(** * AgentChain SDK: the time-bounded cache and the payment lifecycle

    A shallow embedding of [src/utils/cache.ts] (class [Cache]) and of
    [src/services/PaymentProcessor.ts] (class [PaymentProcessor]), with the
    properties of the payment / cache subsystem stated over it.

    Conventions of the embedding:
    - a JavaScript [Map<string, V>] is an association list in insertion
      order with unique keys ([JsMap]); [Map.prototype.set] on a present
      key keeps the key's position, on a new key appends;
    - [Date.now()] / [new Date()] is the argument [now] of each operation,
      in milliseconds, an integer;
    - an [async] method runs to completion as one step of the single
      JavaScript thread; a thrown error (rejected promise) is the [Throw]
      result of the small state-and-exception monad [M], and mutations made
      before the throw persist, as in JavaScript;
    - [setTimeout] appends a pending timer to the [timers] queue of the
      state; firing it runs the callback;
    - the external collaborators ([WalletService], the RPC connection, the
      id generator) are values of the record [WalletService] and arguments
      of the operations. *)

From Stdlib Require Import String List ZArith QArith Bool Lia Permutation Sorted.
Import ListNotations.
Local Open Scope string_scope.
Local Open Scope Z_scope.

(** ** JavaScript [Map<string, V>] : insertion-ordered association list *)

Module JsMap.
Section Defs.
Context {V : Type}.

Definition t := list (string * V).

Definition empty : t := [].

(** [Map.prototype.get]; [None] is [undefined]. *)
Fixpoint get (k : string) (m : t) : option V :=
  match m with
  | [] => None
  | (k', v) :: m' => if String.eqb k k' then Some v else get k m'
  end.

Definition has (k : string) (m : t) : bool :=
  match get k m with Some _ => true | None => false end.

(** [Map.prototype.set]: overwrite in place, or append. *)
Fixpoint set (k : string) (v : V) (m : t) : t :=
  match m with
  | [] => [(k, v)]
  | (k', v') :: m' =>
      if String.eqb k k' then (k, v) :: m' else (k', v') :: set k v m'
  end.

(** [Map.prototype.delete] (the map after the call). *)
Definition delete (k : string) (m : t) : t :=
  filter (fun kv => negb (String.eqb k (fst kv))) m.

Definition size (m : t) : Z := Z.of_nat (length m).

Definition keys (m : t) : list string := map fst m.

Definition values (m : t) : list V := map snd m.

(** [m.keys().next().value]; [None] is [undefined] (empty map). *)
Definition first_key (m : t) : option string :=
  match m with
  | [] => None
  | (k, _) :: _ => Some k
  end.

(** Keys of a [Map] are pairwise distinct. *)
Definition wf (m : t) : Prop := NoDup (keys m).
End Defs.
Arguments t : clear implicits.
End JsMap.

(** ** [src/utils/cache.ts] *)

Module Cache.

(** A value of type [T | null]. *)
Inductive nullable (T : Type) : Type :=
| Null
| Val (v : T).
Arguments Null {T}.
Arguments Val {T} v.

Record CacheEntry (T : Type) : Type := mkEntry {
  data : nullable T;
  timestamp : Z;
  ttl : Z
}.
Arguments mkEntry {T}.
Arguments data {T}.
Arguments timestamp {T}.
Arguments ttl {T}.

Record CacheConfig : Type := mkConfig {
  defaultTTL : Z;
  maxSize : Z;
  cleanupInterval : Z
}.

(** The defaults of the constructor. *)
Definition default_config : CacheConfig :=
  {| defaultTTL := 5 * 60 * 1000;
     maxSize := 1000;
     cleanupInterval := 60 * 1000 |}.

Record t (T : Type) : Type := mkCache {
  store : JsMap.t (CacheEntry T);
  config : CacheConfig;
  cleanupTimer : bool   (* whether the sweep interval is armed *)
}.
Arguments mkCache {T}.
Arguments store {T}.
Arguments config {T}.
Arguments cleanupTimer {T}.

Section Ops.
Context {T : Type}.

(** [new Cache(config)]: empty store, sweep timer started. *)
Definition create (cfg : CacheConfig) : t T :=
  {| store := JsMap.empty; config := cfg; cleanupTimer := true |}.

Definition with_store (c : t T) (s : JsMap.t (CacheEntry T)) : t T :=
  {| store := s; config := config c; cleanupTimer := cleanupTimer c |}.

(** [ttl || this.config.defaultTTL]: [undefined] and [0] are falsy. *)
Definition ttl_or_default (ttl : option Z) (c : t T) : Z :=
  match ttl with
  | Some x => if x =? 0 then defaultTTL (config c) else x
  | None => defaultTTL (config c)
  end.

(** Truthiness of a string: only the empty string is falsy. *)
Definition truthy (k : string) : bool := negb (String.eqb k "").

(** [const oldestKey = this.store.keys().next().value;
     if (oldestKey) { this.store.delete(oldestKey); }] *)
Definition evict_oldest (s : JsMap.t (CacheEntry T)) : JsMap.t (CacheEntry T) :=
  match JsMap.first_key s with
  | Some oldestKey => if truthy oldestKey then JsMap.delete oldestKey s else s
  | None => s
  end.

Definition set (c : t T) (key : string) (d : nullable T) (ttl : option Z)
    (now : Z) : t T :=
  let entry := {| data := d; timestamp := now; ttl := ttl_or_default ttl c |} in
  let s :=
    if JsMap.size (store c) >=? maxSize (config c)
    then evict_oldest (store c)
    else store c in
  with_store c (JsMap.set key entry s).

(** [now - entry.timestamp > entry.ttl] *)
Definition expired (e : CacheEntry T) (now : Z) : bool :=
  now - timestamp e >? ttl e.

Definition get (c : t T) (key : string) (now : Z) : nullable T * t T :=
  match JsMap.get key (store c) with
  | None => (Null, c)
  | Some entry =>
      if expired entry now
      then (Null, with_store c (JsMap.delete key (store c)))
      else (data entry, c)
  end.

Definition has (c : t T) (key : string) (now : Z) : bool * t T :=
  match JsMap.get key (store c) with
  | None => (false, c)
  | Some entry =>
      if expired entry now
      then (false, with_store c (JsMap.delete key (store c)))
      else (true, c)
  end.

Definition delete (c : t T) (key : string) : bool * t T :=
  (JsMap.has key (store c), with_store c (JsMap.delete key (store c))).

Definition clear (c : t T) : t T := with_store c JsMap.empty.

Definition size (c : t T) : Z := JsMap.size (store c).

Definition keys (c : t T) : list string := JsMap.keys (store c).

(** The sweep: collect the expired keys, then delete each of them. *)
Definition cleanup (c : t T) (now : Z) : t T :=
  let expiredKeys :=
    map fst (filter (fun kv => expired (snd kv) now) (store c)) in
  with_store c
    (fold_left (fun s key => JsMap.delete key s) expiredKeys (store c)).

Definition destroy (c : t T) : t T :=
  clear {| store := store c; config := config c; cleanupTimer := false |}.

(** [getOrSet]: the fetcher is a computation over an external world [W];
    [now] is the time of the [get], [now'] the time of the [set] after
    the fetcher resolved. *)
Definition getOrSet {W : Type} (c : t T) (key : string)
    (fetcher : W -> nullable T * W) (ttl : option Z) (now now' : Z) (w : W)
    : nullable T * t T * W :=
  match get c key now with
  | (Val cached, c1) => (Val cached, c1, w)
  | (Null, c1) =>
      let '(d, w') := fetcher w in
      (d, set c1 key d ttl now', w')
  end.
End Ops.

(** A run of [set] calls, oldest first. *)
Record set_call (T : Type) : Type := mkSetCall {
  sc_key : string;
  sc_data : nullable T;
  sc_ttl : option Z;
  sc_now : Z
}.
Arguments mkSetCall {T}.
Arguments sc_key {T}.
Arguments sc_data {T}.
Arguments sc_ttl {T}.
Arguments sc_now {T}.

Definition set_all {T : Type} (c : t T) (calls : list (set_call T)) : t T :=
  fold_left (fun c' s => set c' (sc_key s) (sc_data s) (sc_ttl s) (sc_now s))
            calls c.

(** [n] successive [getOrSet] calls for one key with one fetcher; the
    [i]-th call reads the clock at [clock i] and stores at the same time.
    The results of the calls come first, oldest first. *)
Fixpoint getOrSet_n {T W : Type} (n : nat) (c : t T) (key : string)
    (fetcher : W -> nullable T * W) (ttl : option Z) (clock : nat -> Z) (w : W)
    : list (nullable T) * t T * W :=
  match n with
  | O => ([], c, w)
  | S n' =>
      let '(r, c', w') := getOrSet c key fetcher ttl (clock O) (clock O) w in
      let '(rs, c'', w'') :=
        getOrSet_n n' c' key fetcher ttl (fun i => clock (S i)) w' in
      (r :: rs, c'', w'')
  end.

End Cache.

(** ** [src/types/index.ts] *)

Module Types.

Inductive PaymentStatus : Type := PENDING | CONFIRMED | FAILED | CANCELLED.

Definition PaymentStatus_eqb (a b : PaymentStatus) : bool :=
  match a, b with
  | PENDING, PENDING | CONFIRMED, CONFIRMED
  | FAILED, FAILED | CANCELLED, CANCELLED => true
  | _, _ => false
  end.

(** A JavaScript [number], as far as the code inspects it: the amount is
    only compared with [0] and copied. *)
Inductive number : Type :=
| NaN
| Inf (negative : bool)
| Fin (q : Q).

(** [x <= 0] *)
Definition number_le0 (x : number) : bool :=
  match x with
  | NaN => false
  | Inf negative => negative
  | Fin q => Qle_bool q 0
  end.

Module Request.
Record PaymentRequest : Type := mkRequest {
  amount : number;
  currency : string;
  recipient : string;
  reference : option string;
  memo : option string;
  expiresAt : option Z
}.
End Request.
Export Request (PaymentRequest).

Record Payment : Type := mkPayment {
  id : string;
  agentId : option string;
  userId : string;
  amount : number;
  currency : string;
  txSignature : string;
  status : PaymentStatus;
  createdAt : Z;
  confirmedAt : option Z;
  metadata : option (list (string * string))
}.

(** [AgentChainError] and its subclasses; [details] is the second
    constructor argument ([any]). [ExternalError] is an error raised by a
    collaborator outside the repository (web3, the RPC endpoint). *)
Inductive error : Type :=
| PaymentError (message : string) (details : details)
| WalletError (message : string) (details : details)
| ExternalError (message : string)
with details : Type :=
| NoDetails
| Cause (e : error)
| CurrencyDetails (currency : string).

End Types.
Import Types.

(** ** [src/utils/logger.ts], as the sequence of logger calls *)

Inductive LogLevel : Type := DEBUG | INFO | WARN | ERROR.

(** ** The collaborators of [PaymentProcessor] *)

(** Result of [walletService.sendSOL]. *)
Inductive send_result : Type :=
| SendThrows (e : error)
| SendResult (signature : string) (confirmed : bool).

(** [confirmationStatus] of a signature status, when present. *)
Inductive confirmation_level : Type := Processed | Confirmed | Finalized.

(** [status.value] of [connection.getSignatureStatus]: [err] is the
    transaction error ([TransactionError = {} | string]), [None] for
    [null]. A string error is kept as it is, an error object as its JSON
    text, which is never empty. *)
Record signature_status : Type := mkSigStatus {
  confirmationStatus : option confirmation_level;
  err : option string
}.

(** Result of [connection.getSignatureStatus(signature)]: the call may
    throw (endpoint unreachable) or resolve to [{ value }], where [value]
    may be [null]. *)
Inductive oracle_result : Type :=
| OracleThrows (e : error)
| OracleValue (value : option signature_status).

Record WalletService : Type := mkWallet {
  isWalletConnected : bool;
  (* whether [new PublicKey(s)] succeeds *)
  validPublicKey : string -> bool;
  sendSOL : string -> number -> option string -> send_result;
  getSignatureStatus : string -> oracle_result
}.

(** ** [src/services/PaymentProcessor.ts] *)

Module PaymentProcessor.

(** A pending [setTimeout(checkConfirmation, delay)] of one monitor; the
    closure variable [attempts] travels with it. *)
Record timer : Type := mkTimer {
  due : Z;
  paymentId : string;
  attempts : Z
}.

(** The processor with the module-level [cache] and [logger] it uses. The
    entries of the shared cache under the prefix [payment:] hold Payments. *)
Record state : Type := mkState {
  payments : JsMap.t Payment;
  cache : Cache.t Payment;
  timers : list timer;
  log : list (LogLevel * string)
}.

Definition initial : state :=
  {| payments := JsMap.empty;
     cache := Cache.create Cache.default_config;
     timers := [];
     log := [] |}.

(** *** State and exceptions *)

Inductive res (A : Type) : Type :=
| Ok (a : A)
| Throw (e : error).
Arguments Ok {A} a.
Arguments Throw {A} e.

Definition M (A : Type) : Type := state -> res A * state.

Definition ret {A} (a : A) : M A := fun s => (Ok a, s).

Definition throw {A} (e : error) : M A := fun s => (Throw e, s).

Definition bind {A B} (m : M A) (f : A -> M B) : M B :=
  fun s =>
    match m s with
    | (Ok a, s') => f a s'
    | (Throw e, s') => (Throw e, s')
    end.

(** [try { m } catch (error) { h error }] *)
Definition try_catch {A} (m : M A) (h : error -> M A) : M A :=
  fun s =>
    match m s with
    | (Ok a, s') => (Ok a, s')
    | (Throw e, s') => h e s'
    end.

Declare Scope js_scope.
Delimit Scope js_scope with js.
Notation "x <- m ;; k" := (bind m (fun x => k))
  (at level 61, m at next level, right associativity) : js_scope.
Notation "m ;; k" := (bind m (fun _ => k))
  (at level 61, right associativity) : js_scope.
Local Open Scope js_scope.

(** Field updates of the state. *)
Definition with_payments (s : state) (m : JsMap.t Payment) : state :=
  {| payments := m; cache := cache s; timers := timers s; log := log s |}.

Definition with_cache (s : state) (c : Cache.t Payment) : state :=
  {| payments := payments s; cache := c; timers := timers s; log := log s |}.

Definition with_timers (s : state) (ts : list timer) : state :=
  {| payments := payments s; cache := cache s; timers := ts; log := log s |}.

Definition with_log (s : state) (l : list (LogLevel * string)) : state :=
  {| payments := payments s; cache := cache s; timers := timers s; log := l |}.

Definition logger (l : LogLevel) (msg : string) : M unit :=
  fun s => (Ok tt, with_log s (log s ++ [(l, msg)])).

Definition payments_set (k : string) (p : Payment) : M unit :=
  fun s => (Ok tt, with_payments s (JsMap.set k p (payments s))).

Definition cache_set (k : string) (p : Payment) (ttl : Z) (now : Z) : M unit :=
  fun s =>
    (Ok tt, with_cache s (Cache.set (cache s) k (Cache.Val p) (Some ttl) now)).

Definition cache_get (k : string) (now : Z) : M (Cache.nullable Payment) :=
  fun s =>
    let '(v, c) := Cache.get (cache s) k now in
    (Ok v, with_cache s c).

Definition setTimeout (t : timer) : M unit :=
  fun s => (Ok tt, with_timers s (timers s ++ [t])).

Definition cache_key (paymentId : string) : string := "payment:" ++ paymentId.

Definition hour : Z := 60 * 60 * 1000.

(** [WalletService.publicKeyFromString]; a public key is kept as its
    string. *)
Definition publicKeyFromString (ws : WalletService) (s : string) : M string :=
  if validPublicKey ws s then ret s
  else throw (WalletError "Invalid public key format"
                (Cause (ExternalError "Invalid public key input"))).

Definition validatePaymentRequest (ws : WalletService) (now : Z)
    (paymentRequest : PaymentRequest) : M unit :=
  if number_le0 (Request.amount paymentRequest) then
    throw (PaymentError "Payment amount must be greater than 0" NoDetails)
  else if match Request.expiresAt paymentRequest with
          | Some e => e <? now
          | None => false
          end then
    throw (PaymentError "Payment request has expired" NoDetails)
  else if String.eqb (Request.recipient paymentRequest) "" then
    throw (PaymentError "Payment recipient is required" NoDetails)
  else
    try_catch
      (publicKeyFromString ws (Request.recipient paymentRequest) ;; ret tt)
      (fun _ => throw (PaymentError "Invalid recipient address format" NoDetails)).

Definition processSOLPayment (ws : WalletService)
    (paymentRequest : PaymentRequest) : M string :=
  try_catch
    (recipientPublicKey <-
       publicKeyFromString ws (Request.recipient paymentRequest) ;;
     match sendSOL ws recipientPublicKey (Request.amount paymentRequest)
                   (Request.memo paymentRequest) with
     | SendThrows e => throw e
     | SendResult signature confirmed =>
         if negb confirmed
         then throw (PaymentError "Transaction failed to confirm" NoDetails)
         else ret signature
     end)
    (fun error =>
       logger ERROR "Failed to process SOL payment" ;;
       throw (PaymentError "Failed to process SOL payment" (Cause error))).

Definition processSPLTokenPayment (paymentRequest : PaymentRequest) : M string :=
  throw (PaymentError "SPL token payments not yet implemented"
           (CurrencyDetails (Request.currency paymentRequest))).

Definition maxAttempts : Z := 30.

(** [generatePaymentId]: [suffix] stands for
    [Date.now().toString(36) + Math.random().toString(36).substr(2)]. *)
Definition generatePaymentId (suffix : string) : string := "payment_" ++ suffix.

Record ProcessPaymentOptions : Type := mkOptions {
  opt_agentId : option string;
  opt_metadata : option (list (string * string));
  opt_retryAttempts : option Z
}.

Definition no_options : ProcessPaymentOptions :=
  {| opt_agentId := None; opt_metadata := None; opt_retryAttempts := None |}.

(** [monitorPaymentConfirmation]: [attempts = 0] and the first check is
    scheduled after 5 seconds. *)
Definition monitorPaymentConfirmation (now : Z) (paymentId : string) : M unit :=
  setTimeout {| due := now + 5000; paymentId := paymentId; attempts := 0 |}.

Definition processPayment (ws : WalletService) (now : Z) (suffix : string)
    (paymentRequest : PaymentRequest) (userId : string)
    (options : ProcessPaymentOptions) : M Payment :=
  try_catch
    (logger INFO "Processing payment" ;;
     validatePaymentRequest ws now paymentRequest ;;
     (if negb (isWalletConnected ws)
      then throw (PaymentError "Wallet not connected" NoDetails)
      else ret tt) ;;
     txSignature <-
       (if String.eqb (Request.currency paymentRequest) "SOL"
        then processSOLPayment ws paymentRequest
        else processSPLTokenPayment paymentRequest) ;;
     let payment :=
       {| id := generatePaymentId suffix;
          agentId := opt_agentId options;
          userId := userId;
          amount := Request.amount paymentRequest;
          currency := Request.currency paymentRequest;
          txSignature := txSignature;
          status := PENDING;
          createdAt := now;
          confirmedAt := None;
          metadata := opt_metadata options |} in
     payments_set (id payment) payment ;;
     cache_set (cache_key (id payment)) payment hour now ;;
     monitorPaymentConfirmation now (id payment) ;;
     logger INFO "Payment processed" ;;
     ret payment)
    (fun error =>
       logger ERROR "Failed to process payment" ;;
       throw (PaymentError "Failed to process payment" (Cause error))).

Definition getPayment (now : Z) (paymentId : string)
    : M (Cache.nullable Payment) :=
  try_catch
    (cached <- cache_get (cache_key paymentId) now ;;
     match cached with
     | Cache.Val p => ret (Cache.Val p)
     | Cache.Null =>
         fun s =>
           match JsMap.get paymentId (payments s) with
           | Some payment =>
               (cache_set (cache_key paymentId) payment hour now ;;
                ret (Cache.Val payment)) s
           | None => ret Cache.Null s
           end
     end)
    (fun error =>
       logger ERROR "Failed to get payment" ;;
       throw (PaymentError "Failed to get payment" (Cause error))).

(** [{ ...payment, status: CONFIRMED, confirmedAt: new Date() }] *)
Definition confirmed_copy (payment : Payment) (now : Z) : Payment :=
  {| id := id payment; agentId := agentId payment; userId := userId payment;
     amount := amount payment; currency := currency payment;
     txSignature := txSignature payment;
     status := CONFIRMED;
     createdAt := createdAt payment;
     confirmedAt := Some now;
     metadata := metadata payment |}.

(** [{ ...payment, status: FAILED }] *)
Definition failed_copy (payment : Payment) : Payment :=
  {| id := id payment; agentId := agentId payment; userId := userId payment;
     amount := amount payment; currency := currency payment;
     txSignature := txSignature payment;
     status := FAILED;
     createdAt := createdAt payment;
     confirmedAt := confirmedAt payment;
     metadata := metadata payment |}.

(** [status.value?.confirmationStatus === 'confirmed' || ... 'finalized'] *)
Definition reports_confirmed (value : option signature_status) : bool :=
  match value with
  | Some v =>
      match confirmationStatus v with
      | Some Confirmed | Some Finalized => true
      | _ => false
      end
  | None => false
  end.

(** [status.value?.err] is truthy: [null] and the empty string are not. *)
Definition reports_error (value : option signature_status) : bool :=
  match value with
  | Some v =>
      match err v with
      | Some e => negb (String.eqb e "")
      | None => false
      end
  | None => false
  end.

Definition verifyPayment (ws : WalletService) (now : Z) (paymentId : string)
    : M Payment :=
  try_catch
    (found <- getPayment now paymentId ;;
     match found with
     | Cache.Null => throw (PaymentError "Payment not found" NoDetails)
     | Cache.Val payment =>
         logger DEBUG "Verifying payment" ;;
         match getSignatureStatus ws (txSignature payment) with
         | OracleThrows e => throw e
         | OracleValue value =>
             if reports_confirmed value then
               let updatedPayment := confirmed_copy payment now in
               payments_set paymentId updatedPayment ;;
               cache_set (cache_key paymentId) updatedPayment hour now ;;
               logger INFO "Payment confirmed" ;;
               ret updatedPayment
             else if reports_error value then
               let updatedPayment := failed_copy payment in
               payments_set paymentId updatedPayment ;;
               cache_set (cache_key paymentId) updatedPayment hour now ;;
               logger WARN "Payment failed" ;;
               ret updatedPayment
             else
               logger DEBUG "Payment still pending" ;;
               ret payment
         end
     end)
    (fun error =>
       logger ERROR "Failed to verify payment" ;;
       throw (PaymentError "Failed to verify payment" (Cause error))).

(** The callback [checkConfirmation] of one monitor, fired at [now] with
    the closure variable [attempts] at [n]. *)
Definition checkConfirmation (ws : WalletService) (now : Z)
    (paymentId : string) (n : Z) : M unit :=
  try_catch
    (payment <- verifyPayment ws now paymentId ;;
     match status payment with
     | CONFIRMED | FAILED => ret tt
     | _ =>
         let n' := n + 1 in
         if n' <? maxAttempts
         then setTimeout {| due := now + 10000; paymentId := paymentId;
                            attempts := n' |}
         else logger WARN "Payment confirmation monitoring timed out"
     end)
    (fun error => logger ERROR "Error monitoring payment confirmation").

(** The event loop fires the oldest pending timer: the timer leaves the
    queue and its callback runs. *)
Definition fire_next (ws : WalletService) (now : Z) : M bool :=
  fun s =>
    match timers s with
    | [] => (Ok false, s)
    | t :: rest =>
        (checkConfirmation ws now (paymentId t) (attempts t) ;; ret true)
          (with_timers s rest)
    end.

(** *** Listing *)

Record ListOptions : Type := mkListOptions {
  f_userId : option string;
  f_agentId : option string;
  f_status : option PaymentStatus;
  f_limit : option Z;
  f_offset : option Z
}.

(** [if (x)] for an optional string: [undefined] and [''] are falsy. *)
Definition supplied_truthy (x : option string) : option string :=
  match x with
  | Some s => if String.eqb s "" then None else Some s
  | None => None
  end.

(** [p.agentId === agentId] for a string [agentId]. *)
Definition agentId_is (x : string) (p : Payment) : bool :=
  match agentId p with
  | Some a => String.eqb a x
  | None => false
  end.

(** The three conditional [filter] calls. The values of the enum
    [PaymentStatus] are non-empty strings, hence truthy. *)
Definition apply_filters (o : ListOptions) (ps : list Payment) : list Payment :=
  let ps1 :=
    match supplied_truthy (f_userId o) with
    | Some u => filter (fun p => String.eqb (userId p) u) ps
    | None => ps
    end in
  let ps2 :=
    match supplied_truthy (f_agentId o) with
    | Some a => filter (agentId_is a) ps1
    | None => ps1
    end in
  match f_status o with
  | Some st => filter (fun p => PaymentStatus_eqb (status p) st) ps2
  | None => ps2
  end.

(** The comparator [(a, b) => b.createdAt.getTime() - a.createdAt.getTime()]. *)
Definition compare_newest_first (a b : Payment) : Z := createdAt b - createdAt a.

(** [Array.prototype.sort(cmp)], which is stable: insertion from the right,
    an element going in front of those it does not compare greater than. *)
Fixpoint sort_insert (cmp : Payment -> Payment -> Z) (x : Payment)
    (l : list Payment) : list Payment :=
  match l with
  | [] => [x]
  | y :: l' => if cmp x y <=? 0 then x :: y :: l' else y :: sort_insert cmp x l'
  end.

Definition array_sort (cmp : Payment -> Payment -> Z) (l : list Payment)
    : list Payment :=
  fold_right (sort_insert cmp) [] l.

(** [Array.prototype.slice(start, end)] for integer arguments. *)
Definition slice_index (len i : Z) : Z :=
  if i <? 0 then Z.max (len + i) 0 else Z.min i len.

Definition array_slice {A} (l : list A) (start stop : Z) : list A :=
  let len := Z.of_nat (length l) in
  let k := slice_index len start in
  let final := slice_index len stop in
  firstn (Z.to_nat (final - k)) (skipn (Z.to_nat k) l).

Definition default {A} (x : option A) (d : A) : A :=
  match x with Some v => v | None => d end.

Definition listPayments (options : ListOptions) : M (list Payment) :=
  try_catch
    (fun s =>
       let limit := default (f_limit options) 50 in
       let offset := default (f_offset options) 0 in
       let payments := apply_filters options (JsMap.values (payments s)) in
       let payments := array_sort compare_newest_first payments in
       let paginatedPayments := array_slice payments offset (offset + limit) in
       (logger DEBUG "Payments listed" ;; ret paginatedPayments) s)
    (fun error =>
       logger ERROR "Failed to list payments" ;;
       throw (PaymentError "Failed to list payments" (Cause error))).

End PaymentProcessor.

(** ** The event loop running one monitor *)

Module Monitor.
Import PaymentProcessor.

(** The event loop fires pending timers one after the other, at most
    [fuel] of them: the [i]-th firing happens at time [clock i], with the
    collaborators answering as [ws i]. The result counts the checks run. *)
Fixpoint run_checks (fuel : nat) (ws : nat -> WalletService) (clock : nat -> Z)
    (st : state) : nat * state :=
  match fuel with
  | O => (O, st)
  | S fuel' =>
      match fire_next (ws O) (clock O) st with
      | (Ok true, st') =>
          let '(k, st'') :=
            run_checks fuel' (fun i => ws (S i)) (fun i => clock (S i)) st' in
          (S k, st'')
      | (_, st') => (O, st')
      end
  end.

End Monitor.

(** ** [createPaymentRequest] of [src/services/PaymentProcessor.ts] *)

Module RequestBuilder.
Import Cache PaymentProcessor.

(** The [options] argument. *)
Record RequestOptions : Type := mkRequestOptions {
  o_reference : option string;
  o_memo : option string;
  o_expiresAt : option Z
}.

(** The builder writes to the module-level cache and logger; the entries
    of the shared cache under the prefix [payment-request:] hold
    PaymentRequests. *)
Record builder_state : Type := mkBuilder {
  requests : Cache.t PaymentRequest;
  b_log : list (LogLevel * string)
}.

Definition b_logger (l : LogLevel) (msg : string) (s : builder_state)
    : builder_state :=
  {| requests := requests s; b_log := b_log s ++ [(l, msg)] |}.

Definition half_hour : Z := 30 * 60 * 1000.

Definition request_key (reference : string) : string :=
  "payment-request:" ++ reference.

(** [generateReference]: [suffix] stands for
    [Date.now().toString(36) + Math.random().toString(36).substr(2)]. *)
Definition generateReference (suffix : string) : string := "pay_" ++ suffix.

(** [options?.reference || this.generateReference()]: an absent or empty
    reference is replaced. *)
Definition reference_or_generated (options : option RequestOptions)
    (suffix : string) : string :=
  match options with
  | Some o =>
      match o_reference o with
      | Some r => if String.eqb r "" then generateReference suffix else r
      | None => generateReference suffix
      end
  | None => generateReference suffix
  end.

(** [options?.expiresAt || new Date(Date.now() + 30 * 60 * 1000)]: a Date
    object is always truthy. *)
Definition expiry_or_default (options : option RequestOptions) (now : Z) : Z :=
  match options with
  | Some o =>
      match o_expiresAt o with
      | Some e => e
      | None => now + half_hour
      end
  | None => now + half_hour
  end.

(** [createPaymentRequest(amount, currency = 'SOL', recipient, options)];
    [currency] is [None] for [undefined]. Nothing in the body throws, so
    the [catch] branch is never taken. *)
Definition createPaymentRequest (now : Z) (suffix : string) (amount : number)
    (currency : option string) (recipient : string)
    (options : option RequestOptions) (s : builder_state)
    : PaymentRequest * builder_state :=
  let currency := match currency with Some c => c | None => "SOL" end in
  let s1 := b_logger INFO "Creating payment request" s in
  let paymentRequest :=
    {| Request.amount := amount;
       Request.currency := currency;
       Request.recipient := recipient;
       Request.reference := Some (reference_or_generated options suffix);
       Request.memo := match options with Some o => o_memo o | None => None end;
       Request.expiresAt := Some (expiry_or_default options now) |} in
  let s2 :=
    {| requests :=
         Cache.set (requests s1)
           (request_key (reference_or_generated options suffix))
           (Val paymentRequest) (Some half_hour) now;
       b_log := b_log s1 |} in
  (paymentRequest, b_logger INFO "Payment request created" s2).

End RequestBuilder.

(** ** [src/utils/logger.ts] *)

Module Logger.

(** The numeric enum [LogLevel]. *)
Inductive LogLevel : Type := DEBUG | INFO | WARN | ERROR | NONE.

Definition level_value (l : LogLevel) : Z :=
  match l with
  | DEBUG => 0
  | INFO => 1
  | WARN => 2
  | ERROR => 3
  | NONE => 4
  end.

Record LoggerConfig : Type := mkLoggerConfig {
  level : LogLevel;
  enableTimestamp : bool;
  enableColors : bool;
  prefix : option string
}.

(** The method of [console] a line is written with. *)
Inductive console_method : Type :=
| console_debug
| console_info
| console_warn
| console_error.

(** A logger with the lines it has written to the console, oldest first. *)
Record t : Type := mkLogger {
  config : LoggerConfig;
  console : list (console_method * string)
}.

(** [new Logger()]: the defaults of the constructor. *)
Definition create : t :=
  {| config := {| level := INFO; enableTimestamp := true;
                  enableColors := true; prefix := None |};
     console := [] |}.

(** [formatMessage]: [iso] is [new Date().toISOString()]; [data] is
    [Some j] for a truthy [data] whose [JSON.stringify(data, null, 2)] is
    [j], and [None] for a missing or falsy one. An empty prefix is falsy. *)
Definition formatMessage (cfg : LoggerConfig) (iso : string) (lvl : string)
    (message : string) (data : option string) : string :=
  ((if enableTimestamp cfg then "[" ++ iso ++ "] " else "") ++
   (match prefix cfg with
    | Some p => if String.eqb p "" then "" else "[" ++ p ++ "] "
    | None => ""
    end) ++
   lvl ++ ": " ++ message ++
   (match data with
    | Some j => " " ++ j
    | None => ""
    end))%string.

Definition shouldLog (cfg : LoggerConfig) (l : LogLevel) : bool :=
  level_value l >=? level_value (level cfg).

Definition write (lg : t) (m : console_method) (line : string) : t :=
  {| config := config lg; console := console lg ++ [(m, line)] |}.

Definition debug (lg : t) (iso message : string) (data : option string) : t :=
  if shouldLog (config lg) DEBUG
  then write lg console_debug (formatMessage (config lg) iso "DEBUG" message data)
  else lg.

Definition info (lg : t) (iso message : string) (data : option string) : t :=
  if shouldLog (config lg) INFO
  then write lg console_info (formatMessage (config lg) iso "INFO" message data)
  else lg.

Definition warn (lg : t) (iso message : string) (data : option string) : t :=
  if shouldLog (config lg) WARN
  then write lg console_warn (formatMessage (config lg) iso "WARN" message data)
  else lg.

Definition error (lg : t) (iso message : string) (data : option string) : t :=
  if shouldLog (config lg) ERROR
  then write lg console_error (formatMessage (config lg) iso "ERROR" message data)
  else lg.

Definition setLevel (lg : t) (l : LogLevel) : t :=
  {| config := {| level := l;
                  enableTimestamp := enableTimestamp (config lg);
                  enableColors := enableColors (config lg);
                  prefix := prefix (config lg) |};
     console := console lg |}.

Definition setPrefix (lg : t) (p : string) : t :=
  {| config := {| level := level (config lg);
                  enableTimestamp := enableTimestamp (config lg);
                  enableColors := enableColors (config lg);
                  prefix := Some p |};
     console := console lg |}.

End Logger.

(** ** [src/AgentChainSDK.ts] *)

Module SDK.

Record RateLimiting : Type := mkRateLimiting {
  rl_enabled : bool;
  maxRequests : Z;
  windowMs : Z
}.

Record CacheSettings : Type := mkCacheSettings {
  cs_enabled : bool;
  cs_ttl : Z
}.

(** [SDKConfig]; [None] is [undefined]. The same record serves for
    [Partial<SDKConfig>] (the constructor options and the updates), where
    [None] is an absent key; a key given with the value [undefined] is not
    modelled. *)
Record SDKConfig : Type := mkSDKConfig {
  environment : option string;
  solanaNetwork : option string;
  rpcEndpoint : option string;
  supabaseUrl : option string;
  supabaseKey : option string;
  moralisApiKey : option string;
  openaiApiKey : option string;
  enableLogging : option bool;
  rateLimiting : option RateLimiting;
  cache : option CacheSettings
}.

(** One key of [{ ...base, ...over }]. *)
Definition spread {A} (base over : option A) : option A :=
  match over with
  | Some v => Some v
  | None => base
  end.

(** [{ ...base, ...over }] *)
Definition merge (base over : SDKConfig) : SDKConfig :=
  {| environment := spread (environment base) (environment over);
     solanaNetwork := spread (solanaNetwork base) (solanaNetwork over);
     rpcEndpoint := spread (rpcEndpoint base) (rpcEndpoint over);
     supabaseUrl := spread (supabaseUrl base) (supabaseUrl over);
     supabaseKey := spread (supabaseKey base) (supabaseKey over);
     moralisApiKey := spread (moralisApiKey base) (moralisApiKey over);
     openaiApiKey := spread (openaiApiKey base) (openaiApiKey over);
     enableLogging := spread (enableLogging base) (enableLogging over);
     rateLimiting := spread (rateLimiting base) (rateLimiting over);
     cache := spread (cache base) (cache over) |}.

Definition no_options : SDKConfig :=
  {| environment := None; solanaNetwork := None; rpcEndpoint := None;
     supabaseUrl := None; supabaseKey := None; moralisApiKey := None;
     openaiApiKey := None; enableLogging := None; rateLimiting := None;
     cache := None |}.

(** The defaults of the constructor. *)
Definition defaults : SDKConfig :=
  {| environment := Some "development";
     solanaNetwork := Some "devnet";
     rpcEndpoint := Some "https://api.devnet.solana.com";
     supabaseUrl := None; supabaseKey := None; moralisApiKey := None;
     openaiApiKey := None;
     enableLogging := Some true;
     rateLimiting := Some {| rl_enabled := true; maxRequests := 100;
                             windowMs := 60000 |};
     cache := Some {| cs_enabled := true; cs_ttl := 300000 |} |}.

(** The configuration the constructor builds from its options. *)
Definition constructed (options : SDKConfig) : SDKConfig := merge defaults options.

(** [!x] for an optional string: [undefined] and [''] are falsy. *)
Definition falsy (x : option string) : bool :=
  match x with
  | Some s => String.eqb s ""
  | None => true
  end.

Record Validation : Type := mkValidation {
  isValid : bool;
  errors : list string;
  warnings : list string
}.

Definition validateConfig (cfg : SDKConfig) : Validation :=
  let errors :=
    ((if falsy (environment cfg) then ["Environment is required"] else []) ++
     (if falsy (solanaNetwork cfg) then ["Solana network is required"] else []) ++
     (if falsy (rpcEndpoint cfg) then ["RPC endpoint is required"] else []))%list in
  let warnings :=
    match environment cfg with
    | Some env =>
        if String.eqb env "production" then
          ((if falsy (supabaseUrl cfg) || falsy (supabaseKey cfg)
            then ["Supabase configuration missing for production environment"]
            else []) ++
           (if falsy (moralisApiKey cfg)
            then ["Moralis API key missing for production environment"]
            else []) ++
           (if falsy (openaiApiKey cfg)
            then ["OpenAI API key missing for production environment"]
            else []))%list
        else []
    | None => []
    end in
  {| isValid := Nat.eqb (length errors) 0;
     errors := errors;
     warnings := warnings |}.

(** The five strings [createProduction] requires. *)
Record ProductionKeys : Type := mkProductionKeys {
  pk_rpcEndpoint : string;
  pk_supabaseUrl : string;
  pk_supabaseKey : string;
  pk_moralisApiKey : string;
  pk_openaiApiKey : string
}.

(** The options [createProduction(config)] passes to the constructor. *)
Definition production_options (k : ProductionKeys) : SDKConfig :=
  {| environment := Some "production";
     solanaNetwork := Some "mainnet-beta";
     rpcEndpoint := Some (pk_rpcEndpoint k);
     supabaseUrl := Some (pk_supabaseUrl k);
     supabaseKey := Some (pk_supabaseKey k);
     moralisApiKey := Some (pk_moralisApiKey k);
     openaiApiKey := Some (pk_openaiApiKey k);
     enableLogging := Some false;
     rateLimiting := Some {| rl_enabled := true; maxRequests := 1000;
                             windowMs := 60000 |};
     cache := None |}.

(** The options [createDevelopment()] passes to the constructor. *)
Definition development_options : SDKConfig :=
  {| environment := Some "development";
     solanaNetwork := Some "devnet";
     rpcEndpoint := Some "https://api.devnet.solana.com";
     supabaseUrl := None; supabaseKey := None; moralisApiKey := None;
     openaiApiKey := None;
     enableLogging := Some true;
     rateLimiting := Some {| rl_enabled := false; maxRequests := 1000;
                             windowMs := 60000 |};
     cache := None |}.

(** [initialize]: the module-level logger is configured from
    [enableLogging] and the start is logged; [iso] and [data] are the
    timestamp and the serialised data of that line. *)
Definition initialize (cfg : SDKConfig) (iso data : string) (lg : Logger.t)
    : Logger.t :=
  let lg1 :=
    match enableLogging cfg with
    | Some true =>
        Logger.setPrefix (Logger.setLevel lg Logger.INFO) "AgentChainSDK"
    | _ => Logger.setLevel lg Logger.NONE
    end in
  Logger.info lg1 iso "AgentChain SDK initialized" (Some data).

(** [clearCache]: clears the module-level cache and logs it. *)
Definition clearCache {T} (iso : string) (c : Cache.t T) (lg : Logger.t)
    : Cache.t T * Logger.t :=
  (Cache.clear c, Logger.info lg iso "SDK cache cleared" None).

Record CacheStats : Type := mkCacheStats {
  stat_size : Z;
  stat_enabled : bool
}.

(** [getCacheStats]: [this.config.cache?.enabled || false]. *)
Definition getCacheStats {T} (cfg : SDKConfig) (c : Cache.t T) : CacheStats :=
  {| stat_size := Cache.size c;
     stat_enabled := match cache cfg with
                     | Some cs => cs_enabled cs
                     | None => false
                     end |}.

End SDK.

(** ** [src/services/AgentManager.ts] *)

(** [LOG_ERROR], next to the agent status of the same name. *)
Definition LOG_ERROR : LogLevel := ERROR.

Module AgentManager.
Import Cache.

Inductive AgentType : Type :=
| TRADING_BOT | SOCIAL_AGENT | AUTOMATION_AGENT | ENTERPRISE_SOLUTION | CUSTOM.

Inductive AgentStatus : Type :=
| DRAFT | DEPLOYED | ACTIVE | PAUSED | ARCHIVED | ERROR.

Definition AgentType_eqb (a b : AgentType) : bool :=
  match a, b with
  | TRADING_BOT, TRADING_BOT | SOCIAL_AGENT, SOCIAL_AGENT
  | AUTOMATION_AGENT, AUTOMATION_AGENT
  | ENTERPRISE_SOLUTION, ENTERPRISE_SOLUTION | CUSTOM, CUSTOM => true
  | _, _ => false
  end.

Definition AgentStatus_eqb (a b : AgentStatus) : bool :=
  match a, b with
  | DRAFT, DRAFT | DEPLOYED, DEPLOYED | ACTIVE, ACTIVE | PAUSED, PAUSED
  | ARCHIVED, ARCHIVED | ERROR, ERROR => true
  | _, _ => false
  end.

(** [AgentMetadata]; the social links and the features are carried as
    they are, serialised. *)
Record AgentMetadata : Type := mkMetadata {
  name : string;
  description : string;
  avatar : option string;
  personality : option string;
  traits : option (list string);
  socialLinks : option string;
  features : option string;
  tags : option (list string)
}.

(** [Partial<AgentMetadata>]; [None] is an absent key. *)
Record MetadataPatch : Type := mkMetadataPatch {
  p_name : option string;
  p_description : option string;
  p_avatar : option string;
  p_personality : option string;
  p_traits : option (list string);
  p_socialLinks : option string;
  p_features : option string;
  p_tags : option (list string)
}.

(** [AgentDeploymentConfig], all of whose keys are optional; the webhooks
    are carried serialised. It serves for its [Partial] too. *)
Record AgentDeploymentConfig : Type := mkDeployment {
  initialSupply : option Z;
  tokenSymbol : option string;
  pumpfunEnabled : option bool;
  chatEnabled : option bool;
  tradingEnabled : option bool;
  customEndpoints : option (list string);
  webhooks : option string
}.

Record Agent : Type := mkAgent {
  id : string;
  ownerId : string;
  type : AgentType;
  status : AgentStatus;
  metadata : AgentMetadata;
  tokenAddress : option string;
  deploymentConfig : option AgentDeploymentConfig;
  createdAt : Z;
  updatedAt : Z;
  deployedAt : option Z
}.

(** [AgentChainError(message, code, statusCode, details)] *)
Inductive AgentChainError : Type :=
| mkError (message code : string) (statusCode : Z) (details : error_details)
with error_details : Type :=
| NoCause
| CausedBy (e : AgentChainError).

(** The manager with the module-level cache and logger it uses; the
    entries of the shared cache under the prefix [agent:] hold Agents. *)
Record state : Type := mkState {
  agents : JsMap.t Agent;
  cache : Cache.t Agent;
  log : list (LogLevel * string)
}.

Definition initial : state :=
  {| agents := JsMap.empty; cache := Cache.create Cache.default_config;
     log := [] |}.

Inductive res (A : Type) : Type :=
| Ok (a : A)
| Throw (e : AgentChainError).
Arguments Ok {A} a.
Arguments Throw {A} e.

Definition M (A : Type) : Type := state -> res A * state.

Definition ret {A} (a : A) : M A := fun s => (Ok a, s).

Definition throw {A} (e : AgentChainError) : M A := fun s => (Throw e, s).

Definition bind {A B} (m : M A) (f : A -> M B) : M B :=
  fun s =>
    match m s with
    | (Ok a, s') => f a s'
    | (Throw e, s') => (Throw e, s')
    end.

Definition try_catch {A} (m : M A) (h : AgentChainError -> M A) : M A :=
  fun s =>
    match m s with
    | (Ok a, s') => (Ok a, s')
    | (Throw e, s') => h e s'
    end.

Declare Scope agent_scope.
Delimit Scope agent_scope with agent.
Notation "x <- m ;; k" := (bind m (fun x => k))
  (at level 61, m at next level, right associativity) : agent_scope.
Notation "m ;; k" := (bind m (fun _ => k))
  (at level 61, right associativity) : agent_scope.
Local Open Scope agent_scope.

Definition logger (l : LogLevel) (msg : string) : M unit :=
  fun s =>
    (Ok tt, {| agents := agents s; cache := cache s;
               log := (log s ++ [(l, msg)])%list |}).

Definition agents_set (k : string) (a : Agent) : M unit :=
  fun s =>
    (Ok tt, {| agents := JsMap.set k a (agents s); cache := cache s;
               log := log s |}).

Definition agents_delete (k : string) : M unit :=
  fun s =>
    (Ok tt, {| agents := JsMap.delete k (agents s); cache := cache s;
               log := log s |}).

Definition half_hour : Z := 30 * 60 * 1000.

Definition cache_key (agentId : string) : string := "agent:" ++ agentId.

Definition cache_set (k : string) (a : Agent) (now : Z) : M unit :=
  fun s =>
    (Ok tt, {| agents := agents s;
               cache := Cache.set (cache s) k (Val a) (Some half_hour) now;
               log := log s |}).

Definition cache_get (k : string) (now : Z) : M (nullable Agent) :=
  fun s =>
    let '(v, c) := Cache.get (cache s) k now in
    (Ok v, {| agents := agents s; cache := c; log := log s |}).

Definition cache_delete (k : string) : M unit :=
  fun s =>
    (Ok tt, {| agents := agents s; cache := snd (Cache.delete (cache s) k);
               log := log s |}).

(** The white space and line terminators that [String.prototype.trim]
    strips, among the code units below 256 (a character of a string is one
    UTF-16 code unit in that range): tab, line feed, vertical tab, form
    feed, carriage return, space and no-break space. *)
Definition is_space (c : Ascii.ascii) : bool :=
  let n := Ascii.nat_of_ascii c in
  (Nat.eqb n 9 || Nat.eqb n 10 || Nat.eqb n 11 || Nat.eqb n 12 ||
   Nat.eqb n 13 || Nat.eqb n 32 || Nat.eqb n 160)%bool.

(** [s.trim().length === 0] *)
Fixpoint trims_to_empty (s : string) : bool :=
  match s with
  | EmptyString => true
  | String c s' => is_space c && trims_to_empty s'
  end.

(** [!s || s.trim().length === 0] *)
Definition blank (s : string) : bool := String.eqb s "" || trims_to_empty s.

Definition validateAgentMetadata (m : AgentMetadata) : M unit :=
  if blank (name m) then
    throw (mkError "Agent name is required" "INVALID_AGENT_NAME" 400 NoCause)
  else if blank (description m) then
    throw (mkError "Agent description is required"
             "INVALID_AGENT_DESCRIPTION" 400 NoCause)
  else if (100 <? String.length (name m))%nat then
    throw (mkError "Agent name cannot exceed 100 characters"
             "AGENT_NAME_TOO_LONG" 400 NoCause)
  else if (1000 <? String.length (description m))%nat then
    throw (mkError "Agent description cannot exceed 1000 characters"
             "AGENT_DESCRIPTION_TOO_LONG" 400 NoCause)
  else ret tt.

(** [generateId]: [suffix] stands for
    [Date.now().toString(36) + Math.random().toString(36).substr(2)]. *)
Definition generateId (suffix : string) : string := "agent_" ++ suffix.

Record CreateAgentOptions : Type := mkCreate {
  c_type : AgentType;
  c_metadata : AgentMetadata;
  c_ownerId : string;
  c_deploymentConfig : option AgentDeploymentConfig
}.

Definition createAgent (now : Z) (suffix : string) (options : CreateAgentOptions)
    : M Agent :=
  try_catch
    (logger INFO "Creating new agent" ;;
     validateAgentMetadata (c_metadata options) ;;
     let agent :=
       {| id := generateId suffix;
          ownerId := c_ownerId options;
          type := c_type options;
          status := DRAFT;
          metadata := c_metadata options;
          tokenAddress := None;
          deploymentConfig := c_deploymentConfig options;
          createdAt := now;
          updatedAt := now;
          deployedAt := None |} in
     agents_set (id agent) agent ;;
     cache_set (cache_key (id agent)) agent now ;;
     logger INFO "Agent created successfully" ;;
     ret agent)
    (fun error =>
       logger LOG_ERROR "Failed to create agent" ;;
       throw (mkError "Failed to create agent" "AGENT_CREATION_FAILED" 500
                (CausedBy error))).

Definition getAgent (now : Z) (agentId : string) : M (nullable Agent) :=
  try_catch
    (logger DEBUG "Fetching agent" ;;
     cached <- cache_get (cache_key agentId) now ;;
     match cached with
     | Val a => logger DEBUG "Agent found in cache" ;; ret (Val a)
     | Null =>
         fun s =>
           match JsMap.get agentId (agents s) with
           | Some agent =>
               (cache_set (cache_key agentId) agent now ;; ret (Val agent)) s
           | None => ret Null s
           end
     end)
    (fun error =>
       logger LOG_ERROR "Failed to fetch agent" ;;
       throw (mkError "Failed to fetch agent" "AGENT_FETCH_FAILED" 500
                (CausedBy error))).

(** One key of [{ ...a, ...b }]. *)
Definition over {A} (base patch : option A) : option A :=
  match patch with
  | Some v => Some v
  | None => base
  end.

(** [{ ...agent.metadata, ...options.metadata }] *)
Definition merge_metadata (m : AgentMetadata) (p : MetadataPatch)
    : AgentMetadata :=
  {| name := match p_name p with Some v => v | None => name m end;
     description :=
       match p_description p with Some v => v | None => description m end;
     avatar := over (avatar m) (p_avatar p);
     personality := over (personality m) (p_personality p);
     traits := over (traits m) (p_traits p);
     socialLinks := over (socialLinks m) (p_socialLinks p);
     features := over (features m) (p_features p);
     tags := over (tags m) (p_tags p) |}.

Definition no_deployment : AgentDeploymentConfig :=
  {| initialSupply := None; tokenSymbol := None; pumpfunEnabled := None;
     chatEnabled := None; tradingEnabled := None; customEndpoints := None;
     webhooks := None |}.

(** [{ ...agent.deploymentConfig, ...options.deploymentConfig }]; spreading
    [undefined] adds no key. *)
Definition merge_deployment (d : option AgentDeploymentConfig)
    (p : AgentDeploymentConfig) : AgentDeploymentConfig :=
  let d := match d with Some d => d | None => no_deployment end in
  {| initialSupply := over (initialSupply d) (initialSupply p);
     tokenSymbol := over (tokenSymbol d) (tokenSymbol p);
     pumpfunEnabled := over (pumpfunEnabled d) (pumpfunEnabled p);
     chatEnabled := over (chatEnabled d) (chatEnabled p);
     tradingEnabled := over (tradingEnabled d) (tradingEnabled p);
     customEndpoints := over (customEndpoints d) (customEndpoints p);
     webhooks := over (webhooks d) (webhooks p) |}.

Record UpdateAgentOptions : Type := mkUpdate {
  u_metadata : option MetadataPatch;
  u_status : option AgentStatus;
  u_deploymentConfig : option AgentDeploymentConfig
}.

Definition status_only (st : AgentStatus) : UpdateAgentOptions :=
  {| u_metadata := None; u_status := Some st; u_deploymentConfig := None |}.

Definition not_found : AgentChainError :=
  mkError "Agent not found" "AGENT_NOT_FOUND" 404 NoCause.

(** The record [updateAgent] builds; the values of the enum [AgentStatus]
    are non-empty strings, so a given status always replaces the old one. *)
Definition updated_agent (agent : Agent) (options : UpdateAgentOptions)
    (now : Z) : Agent :=
  {| id := id agent;
     ownerId := ownerId agent;
     type := type agent;
     status := match u_status options with
               | Some st => st
               | None => status agent
               end;
     metadata := match u_metadata options with
                 | Some p => merge_metadata (metadata agent) p
                 | None => metadata agent
                 end;
     tokenAddress := tokenAddress agent;
     deploymentConfig :=
       match u_deploymentConfig options with
       | Some p => Some (merge_deployment (deploymentConfig agent) p)
       | None => deploymentConfig agent
       end;
     createdAt := createdAt agent;
     updatedAt := now;
     deployedAt := deployedAt agent |}.

(** Every error thrown inside is an [AgentChainError], which the [catch]
    branch throws again as it is. *)
Definition updateAgent (now : Z) (agentId : string)
    (options : UpdateAgentOptions) : M Agent :=
  try_catch
    (logger INFO "Updating agent" ;;
     found <- getAgent now agentId ;;
     match found with
     | Null => throw not_found
     | Val agent =>
         (match u_metadata options with
          | Some p => validateAgentMetadata (merge_metadata (metadata agent) p)
          | None => ret tt
          end) ;;
         let updatedAgent := updated_agent agent options now in
         agents_set agentId updatedAgent ;;
         cache_set (cache_key agentId) updatedAgent now ;;
         logger INFO "Agent updated successfully" ;;
         ret updatedAgent
     end)
    (fun error =>
       logger LOG_ERROR "Failed to update agent" ;;
       throw error).

Definition deleteAgent (now : Z) (agentId : string) : M bool :=
  try_catch
    (logger INFO "Deleting agent" ;;
     found <- getAgent now agentId ;;
     match found with
     | Null => ret false
     | Val _ =>
         agents_delete agentId ;;
         cache_delete (cache_key agentId) ;;
         logger INFO "Agent deleted successfully" ;;
         ret true
     end)
    (fun error =>
       logger LOG_ERROR "Failed to delete agent" ;;
       throw (mkError "Failed to delete agent" "AGENT_DELETE_FAILED" 500
                (CausedBy error))).

(** [deployedAgent.deployedAt = new Date()] *)
Definition with_deployedAt (a : Agent) (now : Z) : Agent :=
  {| id := id a; ownerId := ownerId a; type := type a; status := status a;
     metadata := metadata a; tokenAddress := tokenAddress a;
     deploymentConfig := deploymentConfig a; createdAt := createdAt a;
     updatedAt := updatedAt a; deployedAt := Some now |}.

Definition deployAgent (now : Z) (agentId : string) : M Agent :=
  try_catch
    (logger INFO "Deploying agent" ;;
     found <- getAgent now agentId ;;
     match found with
     | Null => throw not_found
     | Val agent =>
         if negb (AgentStatus_eqb (status agent) DRAFT) then
           throw (mkError "Only draft agents can be deployed"
                    "INVALID_AGENT_STATUS" 400 NoCause)
         else
           updated <- updateAgent now agentId (status_only DEPLOYED) ;;
           let deployedAgent := with_deployedAt updated now in
           agents_set agentId deployedAgent ;;
           cache_set (cache_key agentId) deployedAgent now ;;
           logger INFO "Agent deployed successfully" ;;
           ret deployedAgent
     end)
    (fun error =>
       logger LOG_ERROR "Failed to deploy agent" ;;
       throw error).

Definition pauseAgent (now : Z) (agentId : string) : M Agent :=
  updateAgent now agentId (status_only PAUSED).

Definition resumeAgent (now : Z) (agentId : string) : M Agent :=
  updateAgent now agentId (status_only ACTIVE).

Definition archiveAgent (now : Z) (agentId : string) : M Agent :=
  updateAgent now agentId (status_only ARCHIVED).

Inductive SortBy : Type := ByCreatedAt | ByUpdatedAt.

Inductive SortOrder : Type := Asc | Desc.

Record ListAgentsOptions : Type := mkList {
  l_ownerId : option string;
  l_type : option AgentType;
  l_status : option AgentStatus;
  l_limit : option Z;
  l_offset : option Z;
  l_sortBy : option SortBy;
  l_sortOrder : option SortOrder
}.

Definition sort_key (by_ : SortBy) (a : Agent) : Z :=
  match by_ with
  | ByCreatedAt => createdAt a
  | ByUpdatedAt => updatedAt a
  end.

(** The comparator of [listAgents]. *)
Definition compare_agents (by_ : SortBy) (order : SortOrder) (a b : Agent) : Z :=
  if sort_key by_ a <? sort_key by_ b then
    match order with Asc => -1 | Desc => 1 end
  else if sort_key by_ a >? sort_key by_ b then
    match order with Asc => 1 | Desc => -1 end
  else 0.

(** [Array.prototype.sort(cmp)], stable, as for the payments. *)
Fixpoint sort_insert (cmp : Agent -> Agent -> Z) (x : Agent) (l : list Agent)
    : list Agent :=
  match l with
  | [] => [x]
  | y :: l' => if cmp x y <=? 0 then x :: y :: l' else y :: sort_insert cmp x l'
  end.

Definition array_sort (cmp : Agent -> Agent -> Z) (l : list Agent) : list Agent :=
  fold_right (sort_insert cmp) [] l.

(** The three conditional [filter] calls; an empty [ownerId] is falsy. *)
Definition apply_filters (o : ListAgentsOptions) (l : list Agent) : list Agent :=
  let l1 :=
    match l_ownerId o with
    | Some u =>
        if String.eqb u "" then l
        else filter (fun a => String.eqb (ownerId a) u) l
    | None => l
    end in
  let l2 :=
    match l_type o with
    | Some t => filter (fun a => AgentType_eqb (type a) t) l1
    | None => l1
    end in
  match l_status o with
  | Some st => filter (fun a => AgentStatus_eqb (status a) st) l2
  | None => l2
  end.

Definition listAgents (options : ListAgentsOptions) : M (list Agent) :=
  try_catch
    (logger DEBUG "Listing agents" ;;
     fun s =>
       let limit := PaymentProcessor.default (l_limit options) 50 in
       let offset := PaymentProcessor.default (l_offset options) 0 in
       let sortBy := PaymentProcessor.default (l_sortBy options) ByCreatedAt in
       let sortOrder := PaymentProcessor.default (l_sortOrder options) Desc in
       let agents := apply_filters options (JsMap.values (agents s)) in
       let agents := array_sort (compare_agents sortBy sortOrder) agents in
       let paginatedAgents :=
         PaymentProcessor.array_slice agents offset (offset + limit) in
       (logger DEBUG "Agents listed successfully" ;; ret paginatedAgents) s)
    (fun error =>
       logger LOG_ERROR "Failed to list agents" ;;
       throw (mkError "Failed to list agents" "AGENT_LIST_FAILED" 500
                (CausedBy error))).





End AgentManager.

(** ** Vocabulary of the properties *)

Module Vocabulary.
Import PaymentProcessor.

(** A terminal state of a Payment. *)
Definition terminal (s : PaymentStatus) : Prop :=
  s = CONFIRMED \/ s = FAILED \/ s = CANCELLED.

(** An amount that is zero or negative. *)
Definition nonpositive (x : number) : Prop :=
  match x with
  | NaN => False
  | Inf negative => negative = true
  | Fin q => (q <= 0)%Q
  end.

(** The error a public method of the processor throws wraps, as its
    [details], the error that was thrown first. *)
Fixpoint root_cause (e : error) : error :=
  match e with
  | PaymentError _ (Cause e') => root_cause e'
  | WalletError _ (Cause e') => root_cause e'
  | _ => e
  end.

(** The error kinds named by the specification. The code has the one class
    [PaymentError]; the kind is told by the message of the root cause. *)
Inductive ErrorKind : Type :=
| InvalidPayment
| WalletNotConnected
| NotImplemented
| TransferFailed
| NotFound
| TransientNetworkError.

Definition kind_of (e : error) : option ErrorKind :=
  match root_cause e with
  | PaymentError msg _ =>
      if String.eqb msg "Payment amount must be greater than 0" then Some InvalidPayment
      else if String.eqb msg "Payment request has expired" then Some InvalidPayment
      else if String.eqb msg "Payment recipient is required" then Some InvalidPayment
      else if String.eqb msg "Invalid recipient address format" then Some InvalidPayment
      else if String.eqb msg "Wallet not connected" then Some WalletNotConnected
      else if String.eqb msg "SPL token payments not yet implemented" then Some NotImplemented
      else if String.eqb msg "Transaction failed to confirm" then Some TransferFailed
      else if String.eqb msg "Payment not found" then Some NotFound
      else None
  | WalletError _ _ => None
  | ExternalError _ => Some TransientNetworkError
  end.

(** The report of the status oracle carries the level confirmed or
    finalized. *)
Definition level_settled (value : option signature_status) : Prop :=
  exists s, value = Some s /\
    (confirmationStatus s = Some Confirmed \/
     confirmationStatus s = Some Finalized).

(** The report carries an error: any error but the empty string, which
    JavaScript takes for no error. *)
Definition error_reported (value : option signature_status) : Prop :=
  exists s msg, value = Some s /\ err s = Some msg /\ msg <> "".

(** Asked about [signature], the status oracle answers with neither a
    confirmed or finalized level nor an error. *)
Definition still_pending (ws : WalletService) (signature : string) : Prop :=
  exists value,
    getSignatureStatus ws signature = OracleValue value /\
    ~ level_settled value /\ ~ error_reported value.

(** Asked about [signature], the status oracle reports neither a confirmed
    or finalized level nor an error, or cannot be reached. What it answers
    about other signatures does not matter. *)
Definition oracle_undecided (ws : WalletService) (signature : string) : Prop :=
  match getSignatureStatus ws signature with
  | OracleThrows _ => True
  | OracleValue value => ~ level_settled value /\ ~ error_reported value
  end.

(** Every field of [q] other than [status] and [confirmedAt] is that of
    [p]. *)
Definition same_payment_details (p q : Payment) : Prop :=
  id q = id p /\ agentId q = agentId p /\ userId q = userId p /\
  amount q = amount p /\ currency q = currency p /\
  txSignature q = txSignature p /\ createdAt q = createdAt p /\
  metadata q = metadata p.

(** A Payment matches every supplied field of the filter by equality. *)
Definition matches (o : ListOptions) (p : Payment) : bool :=
  match f_userId o with
  | Some u => String.eqb (userId p) u
  | None => true
  end &&
  match f_agentId o with
  | Some a => agentId_is a p
  | None => true
  end &&
  match f_status o with
  | Some st => PaymentStatus_eqb (status p) st
  | None => true
  end.

(** Newest first: [createdAt] descending. *)
Definition newest_first (a b : Payment) : Prop := createdAt a >= createdAt b.

Definition nonempty_keys (ks : list string) : Prop :=
  Forall (fun k => k <> "") ks.

End Vocabulary.
Import Vocabulary.

(** ** Concrete inputs *)

Module Scenarios.
Import Cache PaymentProcessor.

(** An empty cache of capacity [n]. *)
Definition cache_of_size (n : Z) : Cache.t string :=
  Cache.create {| defaultTTL := 5 * 60 * 1000; maxSize := n;
                  cleanupInterval := 60 * 1000 |}.

(** An entry stored at time 0 with a TTL of 100 ms. *)
Definition cache_100ms : Cache.t string :=
  Cache.set (Cache.create default_config) "k" (Val "v") (Some 100) 0.

(** A fetcher that resolves to [null] and counts its invocations. *)
Definition null_fetcher (count : nat) : nullable string * nat := (Null, S count).

(** A connected wallet whose status oracle answers every query with
    [oracle]. *)
Definition wallet_with (oracle : oracle_result) : WalletService :=
  {| isWalletConnected := true;
     validPublicKey := fun s => negb (String.eqb s "");
     sendSOL := fun _ _ _ => SendResult "sig1" true;
     getSignatureStatus := fun _ => oracle |}.

Definition ws_finalized : WalletService :=
  wallet_with
    (OracleValue (Some {| confirmationStatus := Some Finalized; err := None |})).

Definition ws_processed : WalletService :=
  wallet_with
    (OracleValue (Some {| confirmationStatus := Some Processed; err := None |})).

Definition ws_unreachable : WalletService :=
  wallet_with (OracleThrows (ExternalError "fetch failed")).

(** A connected wallet whose status oracle knows the signature [sig1] as
    processed only and every other signature as finalized. *)
Definition ws_other_finalized : WalletService :=
  {| isWalletConnected := true;
     validPublicKey := fun s => negb (String.eqb s "");
     sendSOL := fun _ _ _ => SendResult "sig1" true;
     getSignatureStatus := fun signature =>
       if String.eqb signature "sig1"
       then OracleValue
              (Some {| confirmationStatus := Some Processed; err := None |})
       else OracleValue
              (Some {| confirmationStatus := Some Finalized; err := None |}) |}.

(** A payment of 1.5 SOL by [alice], created at time 1000. *)
Definition payment_1 (s : PaymentStatus) : Payment :=
  {| id := "payment_1"; agentId := None; userId := "alice";
     amount := Fin (3 # 2); currency := "SOL"; txSignature := "sig1";
     status := s; createdAt := 1000; confirmedAt := None; metadata := None |}.

(** The processor holding [payment_1] only, the cache empty. *)
Definition state_with (p : Payment) : state :=
  {| payments := [("payment_1", p)];
     cache := Cache.create default_config;
     timers := [];
     log := [] |}.

(** The same, with the first check of the monitor pending. *)
Definition state_monitored : state :=
  with_timers (state_with (payment_1 PENDING))
    [{| due := 6000; paymentId := "payment_1"; attempts := 0 |}].

(** A request in a token other than SOL, of amount 0. *)
Definition request_token_zero : PaymentRequest :=
  {| Request.amount := Fin 0; Request.currency := "USDC";
     Request.recipient := "R1"; Request.reference := None;
     Request.memo := None; Request.expiresAt := None |}.

(** A request in a token other than SOL, of amount 1.5. *)
Definition request_token : PaymentRequest :=
  {| Request.amount := Fin (3 # 2); Request.currency := "USDC";
     Request.recipient := "R1"; Request.reference := None;
     Request.memo := None; Request.expiresAt := None |}.

(** A request of amount -2 SOL. *)
Definition request_negative : PaymentRequest :=
  {| Request.amount := Fin (-2 # 1); Request.currency := "SOL";
     Request.recipient := "R1"; Request.reference := None;
     Request.memo := None; Request.expiresAt := None |}.

(** A second payment, by [bob], created later. *)
Definition payment_2 : Payment :=
  {| id := "payment_2"; agentId := Some "agent_7"; userId := "bob";
     amount := Fin 2; currency := "SOL"; txSignature := "sig2";
     status := CONFIRMED; createdAt := 2000; confirmedAt := Some 2500;
     metadata := None |}.

Definition state_two : state :=
  {| payments := [("payment_1", payment_1 PENDING); ("payment_2", payment_2)];
     cache := Cache.create default_config;
     timers := [];
     log := [] |}.

Definition filter_user (u : string) : ListOptions :=
  {| f_userId := Some u; f_agentId := None; f_status := None;
     f_limit := None; f_offset := None |}.

End Scenarios.
Import Scenarios.

(** ** Further concrete inputs *)

Module MoreScenarios.
Import Cache PaymentProcessor RequestBuilder Scenarios.

(** The record [processPayment] creates on success. *)
Definition new_payment (now : Z) (suffix : string) (req : PaymentRequest)
    (userId : string) (options : ProcessPaymentOptions) (signature : string)
    : Payment :=
  {| id := generatePaymentId suffix;
     agentId := opt_agentId options;
     userId := userId;
     amount := Request.amount req;
     currency := Request.currency req;
     txSignature := signature;
     status := PENDING;
     createdAt := now;
     confirmedAt := None;
     metadata := opt_metadata options |}.

(** A request of 1.5 SOL to [R1], without expiry. *)
Definition request_sol : PaymentRequest :=
  {| Request.amount := Fin (3 # 2); Request.currency := "SOL";
     Request.recipient := "R1"; Request.reference := None;
     Request.memo := None; Request.expiresAt := None |}.

(** The same request with the amount [NaN]. *)
Definition request_nan : PaymentRequest :=
  {| Request.amount := NaN; Request.currency := "SOL";
     Request.recipient := "R1"; Request.reference := None;
     Request.memo := None; Request.expiresAt := None |}.

(** A wallet that is not connected. *)
Definition ws_disconnected : WalletService :=
  {| isWalletConnected := false;
     validPublicKey := fun s => negb (String.eqb s "");
     sendSOL := fun _ _ _ => SendResult "sig1" true;
     getSignatureStatus := fun _ => OracleValue None |}.

(** A connected wallet whose transfer does not confirm. *)
Definition ws_unconfirmed : WalletService :=
  {| isWalletConnected := true;
     validPublicKey := fun s => negb (String.eqb s "");
     sendSOL := fun _ _ _ => SendResult "sig1" false;
     getSignatureStatus := fun _ => OracleValue None |}.

(** A connected wallet whose transfer throws. *)
Definition ws_transfer_throws : WalletService :=
  {| isWalletConnected := true;
     validPublicKey := fun s => negb (String.eqb s "");
     sendSOL := fun _ _ _ => SendThrows (ExternalError "blockhash not found");
     getSignatureStatus := fun _ => OracleValue None |}.

(** An oracle reporting a finalized transaction that failed. *)
Definition ws_finalized_with_error : WalletService :=
  wallet_with
    (OracleValue (Some {| confirmationStatus := Some Finalized;
                          err := Some "InstructionError" |})).

(** An oracle reporting an error, the level being [processed]. *)
Definition ws_error : WalletService :=
  wallet_with
    (OracleValue (Some {| confirmationStatus := Some Processed;
                          err := Some "InstructionError" |})).

(** An oracle reporting the empty string as the error, the level being
    [processed]. *)
Definition ws_empty_error : WalletService :=
  wallet_with
    (OracleValue (Some {| confirmationStatus := Some Processed;
                          err := Some "" |})).

Definition empty_builder : builder_state :=
  {| requests := Cache.create default_config; b_log := [] |}.

End MoreScenarios.
Import MoreScenarios.

(** ** Further vocabulary *)

Module MoreVocabulary.
Import AgentManager.

(** An agent matches every supplied field of the filter by equality. *)
Definition agent_matches (o : ListAgentsOptions) (a : Agent) : bool :=
  match l_ownerId o with
  | Some u => String.eqb (ownerId a) u
  | None => true
  end &&
  match l_type o with
  | Some t => AgentType_eqb (type a) t
  | None => true
  end &&
  match l_status o with
  | Some st => AgentStatus_eqb (status a) st
  | None => true
  end.

(** [a] may come before [b] in a list sorted by [by_] in the order
    [order]. *)
Definition in_order (by_ : SortBy) (order : SortOrder) (a b : Agent) : Prop :=
  match order with
  | Asc => sort_key by_ a <= sort_key by_ b
  | Desc => sort_key by_ a >= sort_key by_ b
  end.

(** An agent in DRAFT, and the manager holding it. *)
Definition draft_agent : Agent :=
  {| id := "agent_1"; ownerId := "alice"; type := TRADING_BOT;
     status := DRAFT;
     metadata := {| name := "Bot"; description := "A trading bot";
                    avatar := None; personality := None; traits := None;
                    socialLinks := None; features := None; tags := None |};
     tokenAddress := None; deploymentConfig := None;
     createdAt := 1000; updatedAt := 1000; deployedAt := None |}.

Definition archived_agent : Agent :=
  {| id := "agent_1"; ownerId := "alice"; type := TRADING_BOT;
     status := ARCHIVED;
     metadata := metadata draft_agent;
     tokenAddress := None; deploymentConfig := None;
     createdAt := 1000; updatedAt := 1500; deployedAt := None |}.

Definition manager_with (a : Agent) : AgentManager.state :=
  {| agents := [("agent_1", a)];
     AgentManager.cache := Cache.create Cache.default_config;
     AgentManager.log := [] |}.

Definition create_options (n : string) : CreateAgentOptions :=
  {| c_type := CUSTOM;
     c_metadata := {| name := n; description := "An agent";
                      avatar := None; personality := None; traits := None;
                      socialLinks := None; features := None; tags := None |};
     c_ownerId := "alice";
     c_deploymentConfig := None |}.

Definition list_all (order : SortOrder) : ListAgentsOptions :=
  {| l_ownerId := None; l_type := None; l_status := None; l_limit := None;
     l_offset := None; l_sortBy := None; l_sortOrder := Some order |}.

End MoreVocabulary.
Import MoreVocabulary.

(** * Properties *)

Import Cache.
Local Open Scope list_scope.

(** ** Facts about [JsMap] *)

Section JsMapFacts.
Context {V : Type}.
Implicit Types (m : JsMap.t V) (k : string) (v : V).

Lemma jsmap_get_set_same k v m : JsMap.get k (JsMap.set k v m) = Some v.
Proof.
  induction m as [|[k' v'] m IH]; simpl.
  - now rewrite String.eqb_refl.
  - destruct (String.eqb k k') eqn:E; simpl; rewrite ?String.eqb_refl, ?E; auto.
Qed.

Lemma jsmap_get_set_other k k' v m :
  k <> k' -> JsMap.get k' (JsMap.set k v m) = JsMap.get k' m.
Proof.
  intros Hne. induction m as [|[k0 v0] m IH]; simpl.
  - apply not_eq_sym, String.eqb_neq in Hne. now rewrite Hne.
  - destruct (String.eqb k k0) eqn:E; simpl.
    + apply String.eqb_eq in E; subst k0.
      apply not_eq_sym, String.eqb_neq in Hne. now rewrite Hne.
    + now rewrite IH.
Qed.

Lemma jsmap_get_delete_same k m : JsMap.get k (JsMap.delete k m) = None.
Proof.
  unfold JsMap.delete.
  induction m as [|[k' v'] m IH]; simpl; auto.
  destruct (String.eqb k k') eqn:E; simpl; auto. now rewrite E.
Qed.

Lemma jsmap_get_delete_other k k' m :
  k <> k' -> JsMap.get k' (JsMap.delete k m) = JsMap.get k' m.
Proof.
  intros Hne. unfold JsMap.delete.
  induction m as [|[k0 v0] m IH]; simpl; auto.
  destruct (String.eqb k k0) eqn:E; simpl.
  - apply String.eqb_eq in E; subst k0.
    apply not_eq_sym, String.eqb_neq in Hne. now rewrite Hne.
  - now rewrite IH.
Qed.

Lemma jsmap_get_In k m : JsMap.get k m <> None <-> In k (JsMap.keys m).
Proof.
  induction m as [|[k' v'] m IH]; simpl.
  - tauto.
  - destruct (String.eqb k k') eqn:E.
    + apply String.eqb_eq in E. split; [auto | discriminate].
    + apply String.eqb_neq in E. rewrite IH. split; [auto | intros [H|H]; congruence].
Qed.

Lemma jsmap_get_Some_In k v m : JsMap.get k m = Some v -> In (k, v) m.
Proof.
  induction m as [|[k' v'] m IH]; simpl; [discriminate|].
  destruct (String.eqb k k') eqn:E.
  - apply String.eqb_eq in E. intros [= ->]. subst. now left.
  - auto.
Qed.

Lemma jsmap_In_get k v m : JsMap.wf m -> In (k, v) m -> JsMap.get k m = Some v.
Proof.
  unfold JsMap.wf.
  induction m as [|[k' v'] m IH]; simpl; [tauto|].
  intros Hnd [H|H].
  - inversion H; subst. now rewrite String.eqb_refl.
  - inversion Hnd as [|? ? Hnotin Hnd']; subst.
    destruct (String.eqb k k') eqn:E.
    + apply String.eqb_eq in E; subst k'.
      exfalso. apply Hnotin. now apply (in_map fst) in H.
    + auto.
Qed.

Lemma jsmap_keys_set_present k v m :
  In k (JsMap.keys m) -> JsMap.keys (JsMap.set k v m) = JsMap.keys m.
Proof.
  induction m as [|[k' v'] m IH]; simpl; [tauto|].
  intros H. destruct (String.eqb k k') eqn:E; simpl.
  - apply String.eqb_eq in E. now subst.
  - apply String.eqb_neq in E. f_equal. apply IH.
    destruct H; congruence.
Qed.

Lemma jsmap_keys_set_absent k v m :
  ~ In k (JsMap.keys m) -> JsMap.keys (JsMap.set k v m) = JsMap.keys m ++ [k].
Proof.
  induction m as [|[k' v'] m IH]; simpl; auto.
  intros H. destruct (String.eqb k k') eqn:E; simpl.
  - apply String.eqb_eq in E. subst. tauto.
  - f_equal. apply IH. tauto.
Qed.

Lemma jsmap_set_absent k v m :
  ~ In k (JsMap.keys m) -> JsMap.set k v m = m ++ [(k, v)].
Proof.
  induction m as [|[k' v'] m IH]; simpl; auto.
  intros H. destruct (String.eqb k k') eqn:E; simpl.
  - apply String.eqb_eq in E. subst. tauto.
  - f_equal. apply IH. tauto.
Qed.

Lemma jsmap_size_set k v m :
  JsMap.size (JsMap.set k v m) =
  if JsMap.has k m then JsMap.size m else JsMap.size m + 1.
Proof.
  unfold JsMap.size, JsMap.has.
  induction m as [|[k' v'] m IH]; simpl length; simpl JsMap.get.
  - reflexivity.
  - simpl JsMap.set. destruct (String.eqb k k') eqn:E; simpl length.
    + reflexivity.
    + destruct (JsMap.get k m); lia.
Qed.

Lemma jsmap_wf_set k v m : JsMap.wf m -> JsMap.wf (JsMap.set k v m).
Proof.
  unfold JsMap.wf. intros H.
  destruct (in_dec string_dec k (JsMap.keys m)) as [Hin|Hnin].
  - now rewrite jsmap_keys_set_present.
  - rewrite jsmap_keys_set_absent by assumption.
    apply NoDup_app; [assumption | repeat constructor; simpl; tauto |].
    intros x Hx [<-|[]]. tauto.
Qed.

Lemma jsmap_keys_delete k m :
  JsMap.keys (JsMap.delete k m) =
  filter (fun k' => negb (String.eqb k k')) (JsMap.keys m).
Proof.
  unfold JsMap.delete, JsMap.keys.
  induction m as [|[k' v'] m IH]; simpl; auto.
  destruct (String.eqb k k'); simpl; now rewrite IH.
Qed.

Lemma jsmap_wf_delete k m : JsMap.wf m -> JsMap.wf (JsMap.delete k m).
Proof.
  unfold JsMap.wf. rewrite jsmap_keys_delete. apply NoDup_filter.
Qed.

Lemma jsmap_delete_absent k m :
  ~ In k (JsMap.keys m) -> JsMap.delete k m = m.
Proof.
  unfold JsMap.delete.
  induction m as [|[k' v'] m IH]; simpl; auto.
  intros H. destruct (String.eqb k k') eqn:E; simpl.
  - apply String.eqb_eq in E. subst. tauto.
  - f_equal. apply IH. tauto.
Qed.

(** Deleting the first key of a well-formed map drops the head. *)
Lemma jsmap_delete_head k v m :
  JsMap.wf ((k, v) :: m) -> JsMap.delete k ((k, v) :: m) = m.
Proof.
  unfold JsMap.wf. simpl. intros H. inversion H; subst.
  unfold JsMap.delete at 1. simpl. rewrite String.eqb_refl. simpl.
  now apply jsmap_delete_absent.
Qed.

Lemma jsmap_get_fold_delete ks k m :
  JsMap.get k (fold_left (fun s key => JsMap.delete key s) ks m) =
  if existsb (String.eqb k) ks then None else JsMap.get k m.
Proof.
  revert m. induction ks as [|k0 ks IH]; intros m; simpl; auto.
  rewrite IH. destruct (String.eqb k k0) eqn:E; simpl.
  - apply String.eqb_eq in E; subst k0.
    rewrite jsmap_get_delete_same. now destruct (existsb _ ks).
  - apply String.eqb_neq in E.
    rewrite jsmap_get_delete_other by congruence. reflexivity.
Qed.
End JsMapFacts.

(** ** The cache: lazy expiry *)

Section CacheExpiry.
Context {T : Type}.
Implicit Types (c : Cache.t T) (e : CacheEntry T) (key : string).

Lemma expired_true e now : expired e now = true <-> now - timestamp e > ttl e.
Proof. unfold expired. rewrite Z.gtb_ltb, Z.ltb_lt. lia. Qed.

Lemma expired_false e now : expired e now = false <-> now - timestamp e <= ttl e.
Proof. unfold expired. rewrite Z.gtb_ltb, Z.ltb_ge. lia. Qed.

(** What the sweep leaves under a key: nothing, or what was there. *)
Lemma cleanup_get_cases c key tc :
  JsMap.get key (store (cleanup c tc)) = None \/
  JsMap.get key (store (cleanup c tc)) = JsMap.get key (store c).
Proof.
  unfold cleanup. simpl. rewrite jsmap_get_fold_delete.
  destruct (existsb _ _); auto.
Qed.

(** The sweep keeps an entry that has not expired when it runs. *)
Lemma cleanup_keeps_live c key e tc :
  JsMap.wf (store c) ->
  JsMap.get key (store c) = Some e ->
  expired e tc = false ->
  JsMap.get key (store (cleanup c tc)) = Some e.
Proof.
  intros Hwf Hget Hlive. unfold cleanup. simpl.
  rewrite jsmap_get_fold_delete.
  destruct (existsb _ _) eqn:Ex; [|assumption].
  apply existsb_exists in Ex. destruct Ex as [k' [Hin Heq]].
  apply String.eqb_eq in Heq. subst k'.
  apply in_map_iff in Hin. destruct Hin as [[k' e'] [Hk Hin]].
  simpl in Hk. subst k'.
  apply filter_In in Hin. destruct Hin as [Hin Hexp]. simpl in Hexp.
  apply (jsmap_In_get _ _ _ Hwf) in Hin.
  rewrite Hget in Hin. inversion Hin; subst. congruence.
Qed.

(** The sweep removes an entry that has expired when it runs. *)
Lemma cleanup_removes_expired c key e tc :
  JsMap.get key (store c) = Some e ->
  expired e tc = true ->
  JsMap.get key (store (cleanup c tc)) = None.
Proof.
  intros Hget Hexp. unfold cleanup. simpl.
  rewrite jsmap_get_fold_delete.
  destruct (existsb _ _) eqn:Ex; [reflexivity|].
  exfalso.
  assert (H : existsb (String.eqb key)
                (map fst (filter (fun kv => expired (snd kv) tc) (store c)))
              = true).
  { apply existsb_exists. exists key. split; [|apply String.eqb_refl].
    apply in_map_iff. exists (key, e). split; [reflexivity|].
    apply filter_In. split; [now apply jsmap_get_Some_In | assumption]. }
  congruence.
Qed.

(** [set] stores the entry stamped with the time of the call and with its
    own TTL, whatever the capacity handling did before. *)
Lemma set_stores_entry c key d ttl0 now :
  JsMap.get key (store (Cache.set c key d ttl0 now)) =
  Some {| data := d; timestamp := now; ttl := ttl_or_default ttl0 c |}.
Proof. unfold Cache.set. simpl. apply jsmap_get_set_same. Qed.

(** C4. For every entry [e] stored under [key]: once the time elapsed
    since [e] was stored exceeds [e]'s own TTL, [get key] returns the
    absent marker and deletes that entry (and no other), whether or not
    the sweep has run in between; while the elapsed time does not exceed
    the TTL, [get key] returns the stored value and leaves the cache as it
    is, also after a sweep that ran no later than the read. *)
Theorem C4_get_lazy_expiry c key e now :
  JsMap.get key (store c) = Some e ->
  (now - timestamp e > ttl e ->
     fst (Cache.get c key now) = Null /\
     JsMap.get key (store (snd (Cache.get c key now))) = None /\
     (forall k', k' <> key ->
        JsMap.get k' (store (snd (Cache.get c key now))) =
        JsMap.get k' (store c)) /\
     (forall tc, fst (Cache.get (cleanup c tc) key now) = Null)) /\
  (now - timestamp e <= ttl e ->
     Cache.get c key now = (data e, c) /\
     (forall tc, JsMap.wf (store c) -> tc <= now ->
        fst (Cache.get (cleanup c tc) key now) = data e)).
Proof.
  intros Hget. split.
  - intros Hexp. apply expired_true in Hexp.
    unfold Cache.get at 1 2 3. rewrite Hget, Hexp. simpl.
    repeat split.
    + apply jsmap_get_delete_same.
    + intros k' Hne. apply jsmap_get_delete_other. congruence.
    + intros tc. unfold Cache.get.
      destruct (cleanup_get_cases c key tc) as [H|H]; rewrite H.
      * reflexivity.
      * rewrite Hget, Hexp. reflexivity.
  - intros Hlive. split.
    + apply expired_false in Hlive. unfold Cache.get. now rewrite Hget, Hlive.
    + intros tc Hwf Htc.
      assert (Hlive_tc : expired e tc = false) by (apply expired_false; lia).
      apply expired_false in Hlive.
      unfold Cache.get.
      rewrite (cleanup_keeps_live c key e tc Hwf Hget Hlive_tc), Hlive.
      reflexivity.
Qed.

(** The same read, for the entry a [set] has just stored: the TTL is the
    one given to [set], or the default one. *)
Lemma set_then_get c key d ttl0 t0 now :
  let c' := Cache.set c key d ttl0 t0 in
  (now - t0 > ttl_or_default ttl0 c -> fst (Cache.get c' key now) = Null) /\
  (now - t0 <= ttl_or_default ttl0 c -> Cache.get c' key now = (d, c')).
Proof.
  intros c'. unfold Cache.get. subst c'. rewrite set_stores_entry.
  split; intros H.
  - assert (E : expired {| data := d; timestamp := t0;
                           ttl := ttl_or_default ttl0 c |} now = true)
      by (apply expired_true; simpl; lia).
    now rewrite E.
  - assert (E : expired {| data := d; timestamp := t0;
                           ttl := ttl_or_default ttl0 c |} now = false)
      by (apply expired_false; simpl; lia).
    now rewrite E.
Qed.
End CacheExpiry.


Lemma C4_get_lazy_expiry_witness :
  (fst (Cache.get cache_100ms "k" 150) = Null /\
   JsMap.get "k" (store (snd (Cache.get cache_100ms "k" 150))) = None) /\
  Cache.get cache_100ms "k" 100 = (Val "v", cache_100ms).
Proof.
  pose proof (C4_get_lazy_expiry cache_100ms "k"
                {| data := Val "v"; timestamp := 0; ttl := 100 |}) as H.
  split.
  - destruct (H 150 eq_refl) as [[H1 [H2 _]] _]; [simpl; lia|]. split; assumption.
  - destruct (H 100 eq_refl) as [_ H2]. apply H2. simpl. lia.
Defined.

(** ** The cache: capacity *)

Section CacheCapacity.
Context {T : Type}.
Implicit Types (c : Cache.t T) (e : CacheEntry T) (key : string).

Lemma truthy_true k : truthy k = true <-> k <> "".
Proof.
  unfold truthy. rewrite negb_true_iff. apply String.eqb_neq.
Qed.

(** Eviction at a non-empty oldest key removes exactly the head. *)
Lemma evict_oldest_head k0 e0 (rest : JsMap.t (CacheEntry T)) :
  JsMap.wf ((k0, e0) :: rest) -> k0 <> "" ->
  evict_oldest ((k0, e0) :: rest) = rest.
Proof.
  intros Hwf Hne.
  change (evict_oldest ((k0, e0) :: rest))
    with (if truthy k0 then JsMap.delete k0 ((k0, e0) :: rest)
          else (k0, e0) :: rest).
  apply truthy_true in Hne. rewrite Hne. now apply jsmap_delete_head.
Qed.

Lemma wf_tail k0 e0 (rest : JsMap.t (CacheEntry T)) :
  JsMap.wf ((k0, e0) :: rest) -> JsMap.wf rest /\ ~ In k0 (JsMap.keys rest).
Proof. unfold JsMap.wf. simpl. intros H. inversion H; auto. Qed.

Lemma nonempty_keys_set key e (s : JsMap.t (CacheEntry T)) :
  key <> "" -> nonempty_keys (JsMap.keys s) ->
  nonempty_keys (JsMap.keys (JsMap.set key e s)).
Proof.
  intros Hk Hs. unfold nonempty_keys in *.
  destruct (in_dec string_dec key (JsMap.keys s)) as [Hin|Hnin].
  - now rewrite jsmap_keys_set_present.
  - rewrite jsmap_keys_set_absent by assumption.
    apply Forall_app. split; [assumption | now constructor].
Qed.

(** One [set] keeps the store within a capacity of at least one entry, as
    long as no key is the empty string. *)
Lemma set_preserves_capacity c key d ttl0 now :
  1 <= maxSize (config c) ->
  JsMap.wf (store c) ->
  nonempty_keys (Cache.keys c) ->
  Cache.size c <= maxSize (config c) ->
  key <> "" ->
  let c' := Cache.set c key d ttl0 now in
  config c' = config c /\
  JsMap.wf (store c') /\
  nonempty_keys (Cache.keys c') /\
  Cache.size c' <= maxSize (config c').
Proof.
  intros Hmax Hwf Hkeys Hsize Hkey. unfold Cache.set, Cache.size, Cache.keys in *.
  simpl. split; [reflexivity|].
  destruct (JsMap.size (store c) >=? maxSize (config c)) eqn:Efull.
  - apply Z.geb_le in Efull.
    destruct (store c) as [|[k0 e0] rest] eqn:Es.
    { unfold JsMap.size in Efull. simpl in Efull. lia. }
    assert (Hk0 : k0 <> "") by (inversion Hkeys; assumption).
    rewrite (evict_oldest_head k0 e0 rest Hwf Hk0).
    destruct (wf_tail _ _ _ Hwf) as [Hwf' _].
    split; [now apply jsmap_wf_set|].
    split; [apply nonempty_keys_set; [assumption | now inversion Hkeys]|].
    rewrite jsmap_size_set. unfold JsMap.size in *. simpl length in *.
    destruct (JsMap.has key rest); lia.
  - rewrite Z.geb_leb in Efull. apply Z.leb_gt in Efull.
    split; [now apply jsmap_wf_set|].
    split; [now apply nonempty_keys_set|].
    rewrite jsmap_size_set. destruct (JsMap.has key (store c)); lia.
Qed.

(** Every run of [set] calls on non-empty keys, from an empty cache whose
    capacity is at least one, keeps the keys distinct and non-empty and
    stays within the capacity. *)
Lemma set_all_invariant cfg (calls : list (set_call T)) :
  1 <= maxSize cfg ->
  Forall (fun s => sc_key s <> "") calls ->
  let c := set_all (Cache.create cfg) calls in
  config c = cfg /\
  JsMap.wf (store c) /\
  nonempty_keys (Cache.keys c) /\
  Cache.size c <= maxSize cfg.
Proof.
  intros Hmax Hcalls.
  assert (Inv : forall c,
    config c = cfg -> JsMap.wf (store c) -> nonempty_keys (Cache.keys c) ->
    Cache.size c <= maxSize (config c) ->
    config (set_all c calls) = cfg /\
    JsMap.wf (store (set_all c calls)) /\
    nonempty_keys (Cache.keys (set_all c calls)) /\
    Cache.size (set_all c calls) <= maxSize cfg).
  { induction Hcalls as [|s calls Hs _ IH]; intros c Hcfg Hwf Hk Hsz.
    - simpl. rewrite Hcfg in Hsz. auto.
    - simpl.
      destruct (set_preserves_capacity c (sc_key s) (sc_data s) (sc_ttl s)
                  (sc_now s)) as [H1 [H2 [H3 H4]]];
        try assumption; try (rewrite Hcfg; assumption).
      apply IH; assumption. }
  apply Inv.
  - reflexivity.
  - constructor.
  - constructor.
  - unfold Cache.size, JsMap.size. simpl. lia.
Qed.

(** A new key set on a full store: exactly the oldest entry
    leaves and the new entry goes to the end. *)
Lemma set_new_key_at_capacity c key d ttl0 now k0 e0 rest :
  store c = (k0, e0) :: rest ->
  JsMap.wf (store c) ->
  Cache.size c >= maxSize (config c) ->
  k0 <> "" ->
  ~ In key (Cache.keys c) ->
  store (Cache.set c key d ttl0 now) =
  rest ++ [(key, {| data := d; timestamp := now;
                    ttl := ttl_or_default ttl0 c |})].
Proof.
  intros Hs Hwf Hfull Hk0 Hnew. unfold Cache.set, Cache.size, Cache.keys in *.
  simpl. apply Z.ge_le, Z.geb_le in Hfull. rewrite Hfull.
  rewrite Hs in *. rewrite (evict_oldest_head k0 e0 rest Hwf Hk0).
  apply jsmap_set_absent. simpl in Hnew. tauto.
Qed.

(** Overwriting a present key on a full store whose oldest key is another,
    non-empty one: the oldest entry leaves, so one key fewer is stored. *)
Lemma set_present_key_at_capacity c key d ttl0 now k0 e0 rest :
  store c = (k0, e0) :: rest ->
  JsMap.wf (store c) ->
  Cache.size c >= maxSize (config c) ->
  k0 <> "" ->
  In key (Cache.keys c) ->
  key <> k0 ->
  let c' := Cache.set c key d ttl0 now in
  Cache.keys c' = JsMap.keys rest /\
  Cache.size c' = Cache.size c - 1 /\
  JsMap.get k0 (store c') = None.
Proof.
  intros Hs Hwf Hfull Hk0 Hin Hne. unfold Cache.set, Cache.size, Cache.keys in *.
  simpl. apply Z.ge_le, Z.geb_le in Hfull. rewrite Hfull.
  rewrite Hs in *. rewrite (evict_oldest_head k0 e0 rest Hwf Hk0).
  destruct (wf_tail _ _ _ Hwf) as [Hwf' Hnin].
  assert (Hin' : In key (JsMap.keys rest)).
  { simpl in Hin. destruct Hin; [congruence | assumption]. }
  split; [now apply jsmap_keys_set_present|].
  split.
  - rewrite jsmap_size_set. unfold JsMap.has.
    destruct (JsMap.get key rest) eqn:G.
    + unfold JsMap.size. simpl length. lia.
    + exfalso. apply jsmap_get_In in Hin'. congruence.
  - rewrite jsmap_get_set_other by assumption.
    destruct (JsMap.get k0 rest) eqn:G; [|reflexivity].
    exfalso. apply Hnin. apply jsmap_get_In. congruence.
Qed.
End CacheCapacity.


(** The claim C5 as the specification states it fails: [set] always
    stores the entry, after at most one eviction, so a cache configured with
    [maxSize = 0] holds one entry after the first [set]. *)
Lemma C5_counterexample_capacity_zero :
  let c := set_all (cache_of_size 0) [ mkSetCall "a" (Val "first") None 0 ] in
  maxSize (config c) = 0 /\ Cache.size c = 1 /\ ~ Cache.size c <= maxSize (config c).
Proof.
  repeat split. intros H. apply H. reflexivity.
Qed.

(** C5, as the code has it. For a configured [maxSize] of at least 1 and
    every run of [set] calls on non-empty keys from the empty cache: the
    number of stored entries never exceeds [maxSize]; a further [set] of a
    new key on the store at [maxSize] removes exactly the entry at the head
    of the insertion order and appends the new entry; and a read that hits
    leaves the store, hence the order, as it is (eviction is by insertion,
    not by use). *)
Theorem C5_capacity_bound_and_eviction {T : Type} cfg (calls : list (set_call T)) :
  1 <= maxSize cfg ->
  Forall (fun s => sc_key s <> "") calls ->
  let c := set_all (Cache.create cfg) calls in
  Cache.size c <= maxSize cfg /\
  (forall key d ttl0 now,
     ~ In key (Cache.keys c) ->
     Cache.size c = maxSize cfg ->
     exists k0 e0 rest,
       store c = (k0, e0) :: rest /\
       store (Cache.set c key d ttl0 now) =
         rest ++ [(key, {| data := d; timestamp := now;
                           ttl := ttl_or_default ttl0 c |})] /\
       Cache.size (Cache.set c key d ttl0 now) = maxSize cfg) /\
  (forall key e now,
     JsMap.get key (store c) = Some e -> expired e now = false ->
     snd (Cache.get c key now) = c).
Proof.
  intros Hmax Hcalls c.
  destruct (set_all_invariant cfg calls Hmax Hcalls) as [Hcfg [Hwf [Hk Hsz]]].
  fold c in Hcfg, Hwf, Hk, Hsz.
  split; [exact Hsz|]. split.
  - intros key d ttl0 now Hnew Hfull.
    destruct (store c) as [|[k0 e0] rest] eqn:Hs.
    { unfold Cache.size in Hfull. rewrite Hs in Hfull.
      unfold JsMap.size in Hfull. simpl in Hfull. lia. }
    exists k0, e0, rest. split; [reflexivity|].
    assert (Hk0 : k0 <> "").
    { unfold Cache.keys in Hk. rewrite Hs in Hk. now inversion Hk. }
    assert (Hst : store (Cache.set c key d ttl0 now) =
                  rest ++ [(key, {| data := d; timestamp := now;
                                    ttl := ttl_or_default ttl0 c |})]).
    { apply (set_new_key_at_capacity c key d ttl0 now k0 e0 rest); auto.
      - now rewrite Hs.
      - rewrite Hcfg. lia. }
    split; [exact Hst|].
    unfold Cache.size in *. rewrite Hst. rewrite Hs in Hfull.
    unfold JsMap.size in *. rewrite length_app. simpl length in *. lia.
  - intros key e now Hget Hlive. unfold Cache.get. now rewrite Hget, Hlive.
Qed.

Lemma C5_capacity_bound_and_eviction_witness :
  let c := set_all (cache_of_size 2)
             [ mkSetCall "a" (Val "first") None 0;
               mkSetCall "b" (Val "second") None 1 ] in
  Cache.size c <= 2 /\
  Cache.keys (Cache.set c "c" (Val "third") None 2) = ["b"; "c"].
Proof.
  assert (Hcalls : Forall (fun s : set_call string => sc_key s <> "")
                     [ mkSetCall "a" (Val "first") None 0;
                       mkSetCall "b" (Val "second") None 1 ])
    by (repeat constructor; discriminate).
  assert (Hmax : 1 <= maxSize (config (cache_of_size 2))) by (simpl; lia).
  destruct (C5_capacity_bound_and_eviction (config (cache_of_size 2)) _ Hmax Hcalls)
    as [H1 [H2 _]].
  split; [exact H1|].
  destruct (H2 "c" (Val "third") None 2) as [k0 [e0 [rest [Hs [Hst _]]]]].
  - simpl. intros [H|[H|[]]]; discriminate.
  - reflexivity.
  - vm_compute in Hs. inversion Hs; subst k0 e0 rest.
    exact (f_equal JsMap.keys Hst).
Defined.

(** C9, at the input on which the code departs from it: overwriting a
    present key on a full store must first evict the oldest entry, one key
    fewer being stored afterwards; with the empty string as the oldest key
    nothing is evicted and both keys stay. *)
Theorem C9_overwrite_at_capacity_empty_oldest_key :
  let c := set_all (cache_of_size 2)
             [ mkSetCall "" (Val "first") None 0;
               mkSetCall "k" (Val "second") None 1 ] in
  let c' := Cache.set c "k" (Val "third") None 2 in
  Cache.size c = 2 /\ maxSize (config c) = 2 /\
  Cache.keys c' = [""; "k"] /\ Cache.size c' = 2 /\
  fst (Cache.get c' "" 3) = Val "first".
Proof. repeat split. Qed.

(** ** The cache: a stored [null] is not told apart from a miss *)

Section CacheNull.
Context {T W : Type}.
Implicit Types (c : Cache.t T) (key : string) (f : W -> nullable T * W).

(** After [set] stored [null] under a key, [get] of that key is [null]
    at every later or earlier time. *)
Lemma get_after_set_null c key ttl0 t t' :
  fst (Cache.get (Cache.set c key Null ttl0 t) key t') = Null.
Proof.
  unfold Cache.get. rewrite set_stores_entry.
  destruct (expired _ t'); reflexivity.
Qed.

(** A [getOrSet] whose [get] yields [null] runs the fetcher and stores
    its result. *)
Lemma getOrSet_on_null c key f ttl0 now now' w :
  fst (Cache.get c key now) = Null ->
  getOrSet c key f ttl0 now now' w =
  (fst (f w), Cache.set (snd (Cache.get c key now)) key (fst (f w)) ttl0 now',
   snd (f w)).
Proof.
  intros H. unfold getOrSet.
  destruct (Cache.get c key now) as [r c1]. simpl in H. subst r. simpl.
  now destruct (f w).
Qed.

Lemma getOrSet_n_null_store c key f ttl0 :
  (forall w, fst (f w) = Null) ->
  forall n clock w,
    (forall t, fst (Cache.get c key t) = Null) ->
    fst (fst (getOrSet_n n c key f ttl0 clock w)) = repeat Null n /\
    snd (getOrSet_n n c key f ttl0 clock w) = Nat.iter n (fun x => snd (f x)) w.
Proof.
  intros Hf n. revert c. induction n as [|n IH]; intros c clock w Hc.
  - split; reflexivity.
  - simpl getOrSet_n.
    rewrite (getOrSet_on_null c key f ttl0 _ _ w (Hc (clock O))).
    rewrite Hf.
    specialize (IH (Cache.set (snd (Cache.get c key (clock O))) key Null ttl0
                      (clock O))
                   (fun i => clock (S i)) (snd (f w))
                   (fun t => get_after_set_null _ key ttl0 (clock O) t)).
    destruct (getOrSet_n n _ key f ttl0 _ (snd (f w))) as [[rs c''] w''].
    simpl in *. destruct IH as [IH1 IH2]. split.
    + now rewrite IH1.
    + rewrite IH2. symmetry. exact (Nat.iter_succ_r n W (fun x => snd (f x)) w).
Qed.

(** C10. [get] answers with the one marker [null] for a missing key, for
    an expired entry and for a live entry that stores [null]; hence, for
    a fetcher that always resolves to [null], every one of [n] successive
    [getOrSet] calls on a key that starts without a live non-null value
    returns [null] and runs the fetcher again, whatever the TTL and the
    times of the calls: the stored [null] is never served. *)
Theorem C10_getOrSet_null_never_cached c key f ttl0 :
  (forall w, fst (f w) = Null) ->
  (forall now, JsMap.get key (store c) = None ->
     fst (Cache.get c key now) = Null) /\
  (forall now e, JsMap.get key (store c) = Some e -> expired e now = true ->
     fst (Cache.get c key now) = Null) /\
  (forall now e, JsMap.get key (store c) = Some e -> expired e now = false ->
     data e = Null -> fst (Cache.get c key now) = Null) /\
  (forall n clock w,
     fst (Cache.get c key (clock O)) = Null ->
     fst (fst (getOrSet_n n c key f ttl0 clock w)) = repeat Null n /\
     snd (getOrSet_n n c key f ttl0 clock w) =
     Nat.iter n (fun x => snd (f x)) w).
Proof.
  intros Hf. repeat split.
  - intros now H. unfold Cache.get. now rewrite H.
  - intros now e H He. unfold Cache.get. now rewrite H, He.
  - intros now e H He Hd. unfold Cache.get. now rewrite H, He.
  - destruct n as [|n]; [reflexivity|].
    simpl getOrSet_n.
    rewrite (getOrSet_on_null c key f ttl0 _ _ w H). rewrite Hf.
    destruct (getOrSet_n_null_store
                (Cache.set (snd (Cache.get c key (clock O))) key Null ttl0
                   (clock O))
                key f ttl0 Hf n (fun i => clock (S i)) (snd (f w))
                (fun t => get_after_set_null _ key ttl0 (clock O) t))
      as [H1 _].
    destruct (getOrSet_n n _ key f ttl0 _ (snd (f w))) as [[rs c''] w''].
    simpl in *. now rewrite H1.
  - destruct n as [|n]; [reflexivity|].
    simpl getOrSet_n.
    rewrite (getOrSet_on_null c key f ttl0 _ _ w H). rewrite Hf.
    destruct (getOrSet_n_null_store
                (Cache.set (snd (Cache.get c key (clock O))) key Null ttl0
                   (clock O))
                key f ttl0 Hf n (fun i => clock (S i)) (snd (f w))
                (fun t => get_after_set_null _ key ttl0 (clock O) t))
      as [_ H2].
    destruct (getOrSet_n n _ key f ttl0 _ (snd (f w))) as [[rs c''] w''].
    simpl in *. rewrite H2. symmetry. exact (Nat.iter_succ_r n W (fun x => snd (f x)) w).
Qed.
End CacheNull.


(** Three calls, one second apart, on an empty cache with the default TTL
    of five minutes: three invocations. *)
Lemma C10_getOrSet_null_never_cached_witness :
  fst (fst (getOrSet_n 3 (cache_of_size 1000) "k" null_fetcher None
              (fun i => 1000 * Z.of_nat i) O)) = [Null; Null; Null] /\
  snd (getOrSet_n 3 (cache_of_size 1000) "k" null_fetcher None
         (fun i => 1000 * Z.of_nat i) O) = 3%nat.
Proof.
  destruct (C10_getOrSet_null_never_cached (cache_of_size 1000) "k" null_fetcher
              None (fun _ => eq_refl)) as [_ [_ [_ H]]].
  apply (H 3%nat (fun i => 1000 * Z.of_nat i) O). reflexivity.
Defined.

(** ** The payment processor: reading and verifying *)

Import PaymentProcessor.

Section Verify.
Implicit Types (ws : WalletService) (st : state) (p : Payment).

(** [getPayment] as a case analysis on the cache and on the map. *)
Lemma getPayment_cases now paymentId st :
  getPayment now paymentId st =
  match Cache.get (cache st) (cache_key paymentId) now with
  | (Val p, c1) => (Ok (Val p), with_cache st c1)
  | (Null, c1) =>
      match JsMap.get paymentId (payments st) with
      | Some p =>
          (Ok (Val p),
           with_cache st
             (Cache.set c1 (cache_key paymentId) (Val p) (Some hour) now))
      | None => (Ok Null, with_cache st c1)
      end
  end.
Proof.
  unfold getPayment, try_catch, bind, cache_get.
  destruct (Cache.get (cache st) (cache_key paymentId) now) as [[|p] c1]; simpl.
  - destruct (JsMap.get paymentId (payments st)); reflexivity.
  - reflexivity.
Qed.

(** [getPayment] does not throw and touches the cache only. *)
Lemma getPayment_frame now paymentId st :
  exists r st1,
    getPayment now paymentId st = (Ok r, st1) /\
    payments st1 = payments st /\ timers st1 = timers st /\ log st1 = log st.
Proof.
  rewrite getPayment_cases.
  destruct (Cache.get (cache st) (cache_key paymentId) now) as [[|p] c1].
  - destruct (JsMap.get paymentId (payments st)); eauto 6.
  - eauto 6.
Qed.

(** A stored payment is found: the cached copy when the cache holds a live
    one, the record of the map otherwise. *)
Lemma getPayment_stored now paymentId st p :
  JsMap.get paymentId (payments st) = Some p ->
  exists base st1,
    getPayment now paymentId st = (Ok (Val base), st1) /\
    payments st1 = payments st /\ timers st1 = timers st /\
    (fst (Cache.get (cache st) (cache_key paymentId) now) = Null -> base = p) /\
    (fst (Cache.get (cache st) (cache_key paymentId) now) = Val base \/ base = p).
Proof.
  intros Hp. rewrite getPayment_cases, Hp.
  destruct (Cache.get (cache st) (cache_key paymentId) now) as [[|q] c1]; simpl.
  - exists p. eexists. repeat split; auto.
  - exists q. eexists. repeat split; auto. discriminate.
Qed.

(** Runs [verifyPayment] up to the answer of the oracle, given what
    [getPayment] returned. *)
Ltac verify_after Hg :=
  unfold verifyPayment, try_catch, bind; rewrite Hg; simpl.

(** The outcomes of [verifyPayment] on a payment that was found. *)
Lemma verifyPayment_confirmed ws now paymentId st base st1 value :
  getPayment now paymentId st = (Ok (Val base), st1) ->
  getSignatureStatus ws (txSignature base) = OracleValue value ->
  reports_confirmed value = true ->
  exists st2,
    verifyPayment ws now paymentId st = (Ok (confirmed_copy base now), st2) /\
    payments st2 = JsMap.set paymentId (confirmed_copy base now) (payments st1) /\
    cache st2 = Cache.set (cache st1) (cache_key paymentId)
                  (Val (confirmed_copy base now)) (Some hour) now /\
    timers st2 = timers st1.
Proof.
  intros Hg Ho Hc. verify_after Hg.
  rewrite Ho, Hc. simpl. eexists. repeat split.
Qed.

Lemma verifyPayment_failed ws now paymentId st base st1 value :
  getPayment now paymentId st = (Ok (Val base), st1) ->
  getSignatureStatus ws (txSignature base) = OracleValue value ->
  reports_confirmed value = false ->
  reports_error value = true ->
  exists st2,
    verifyPayment ws now paymentId st = (Ok (failed_copy base), st2) /\
    payments st2 = JsMap.set paymentId (failed_copy base) (payments st1) /\
    cache st2 = Cache.set (cache st1) (cache_key paymentId)
                  (Val (failed_copy base)) (Some hour) now /\
    timers st2 = timers st1.
Proof.
  intros Hg Ho Hc He. verify_after Hg.
  rewrite Ho, Hc, He. simpl. eexists. repeat split.
Qed.

Lemma verifyPayment_pending ws now paymentId st base st1 value :
  getPayment now paymentId st = (Ok (Val base), st1) ->
  getSignatureStatus ws (txSignature base) = OracleValue value ->
  reports_confirmed value = false ->
  reports_error value = false ->
  exists st2,
    verifyPayment ws now paymentId st = (Ok base, st2) /\
    payments st2 = payments st1 /\ cache st2 = cache st1 /\
    timers st2 = timers st1.
Proof.
  intros Hg Ho Hc He. verify_after Hg.
  rewrite Ho, Hc, He. simpl. eexists. repeat split.
Qed.

Lemma verifyPayment_oracle_throws ws now paymentId st base st1 e :
  getPayment now paymentId st = (Ok (Val base), st1) ->
  getSignatureStatus ws (txSignature base) = OracleThrows e ->
  exists st2,
    verifyPayment ws now paymentId st =
      (Throw (PaymentError "Failed to verify payment" (Cause e)), st2) /\
    payments st2 = payments st1 /\ cache st2 = cache st1 /\
    timers st2 = timers st1.
Proof.
  intros Hg Ho. verify_after Hg.
  rewrite Ho. simpl. eexists. repeat split.
Qed.

Lemma verifyPayment_not_found ws now paymentId st st1 :
  getPayment now paymentId st = (Ok Null, st1) ->
  exists st2,
    verifyPayment ws now paymentId st =
      (Throw (PaymentError "Failed to verify payment"
                (Cause (PaymentError "Payment not found" NoDetails))), st2) /\
    payments st2 = payments st1 /\ cache st2 = cache st1 /\
    timers st2 = timers st1.
Proof.
  intros Hg. verify_after Hg. eexists. repeat split.
Qed.

(** [verifyPayment] never touches the timers, and a call that throws
    leaves the map of payments as it was. *)
Lemma verifyPayment_frame ws now paymentId st :
  timers (snd (verifyPayment ws now paymentId st)) = timers st /\
  (forall e, fst (verifyPayment ws now paymentId st) = Throw e ->
     payments (snd (verifyPayment ws now paymentId st)) = payments st).
Proof.
  destruct (getPayment_frame now paymentId st) as [r [st1 [Hg [Hp [Ht _]]]]].
  destruct r as [|base].
  - destruct (verifyPayment_not_found ws _ _ _ _ Hg) as [st2 [E [H1 [_ H3]]]].
    rewrite E. simpl. split; [congruence | intros; congruence].
  - destruct (getSignatureStatus ws (txSignature base)) as [e|value] eqn:Ho.
    + destruct (verifyPayment_oracle_throws ws _ _ _ _ _ e Hg Ho)
        as [st2 [E [H1 [_ H3]]]].
      rewrite E. simpl. split; [congruence | intros; congruence].
    + destruct (reports_confirmed value) eqn:Hc.
      * destruct (verifyPayment_confirmed ws _ _ _ _ _ _ Hg Ho Hc)
          as [st2 [E [H1 [_ H3]]]].
        rewrite E. simpl. split; [congruence | discriminate].
      * destruct (reports_error value) eqn:He.
        -- destruct (verifyPayment_failed ws _ _ _ _ _ _ Hg Ho Hc He)
             as [st2 [E [H1 [_ H3]]]].
           rewrite E. simpl. split; [congruence | discriminate].
        -- destruct (verifyPayment_pending ws _ _ _ _ _ _ Hg Ho Hc He)
             as [st2 [E [H1 [_ H3]]]].
           rewrite E. simpl. split; [congruence | discriminate].
Qed.
End Verify.

(** ** Terminal states and confirmation *)

Section Lifecycle.
Implicit Types (ws : WalletService) (st : state) (p : Payment).

Lemma reports_confirmed_level value s :
  value = Some s ->
  confirmationStatus s = Some Confirmed \/
  confirmationStatus s = Some Finalized ->
  reports_confirmed value = true.
Proof.
  intros -> [H|H]; unfold reports_confirmed; now rewrite H.
Qed.

(** The two tests of [verifyPayment] on the report, in the vocabulary of
    the properties. *)
Lemma reports_confirmed_iff value :
  reports_confirmed value = true <-> level_settled value.
Proof.
  split.
  - unfold reports_confirmed. destruct value as [v|]; [|discriminate].
    destruct (confirmationStatus v) as [[| |]|] eqn:E; try discriminate;
      intros _; exists v; auto.
  - intros [s [Hv Hlevel]]. exact (reports_confirmed_level value s Hv Hlevel).
Qed.

Lemma reports_error_iff value :
  reports_error value = true <-> error_reported value.
Proof.
  unfold reports_error, error_reported. split.
  - destruct value as [v|]; [|discriminate].
    destruct (err v) as [msg|] eqn:E; [|discriminate].
    intros H. exists v, msg. repeat split; auto.
    intros ->. discriminate.
  - intros [s [msg [-> [E Hne]]]]. rewrite E.
    apply String.eqb_neq in Hne. now rewrite Hne.
Qed.

Lemma reports_confirmed_not value :
  ~ level_settled value -> reports_confirmed value = false.
Proof.
  intros H. destruct (reports_confirmed value) eqn:E; [|reflexivity].
  apply reports_confirmed_iff in E. contradiction.
Qed.

Lemma reports_error_not value :
  ~ error_reported value -> reports_error value = false.
Proof.
  intros H. destruct (reports_error value) eqn:E; [|reflexivity].
  apply reports_error_iff in E. contradiction.
Qed.

(** The two records [verifyPayment] builds differ from the record found in
    the status and in [confirmedAt] only. *)
Lemma confirmed_copy_details base now :
  status (confirmed_copy base now) = CONFIRMED /\
  confirmedAt (confirmed_copy base now) = Some now /\
  same_payment_details base (confirmed_copy base now).
Proof. repeat split. Qed.

Lemma failed_copy_details base :
  status (failed_copy base) = FAILED /\
  confirmedAt (failed_copy base) = confirmedAt base /\
  same_payment_details base (failed_copy base).
Proof. repeat split. Qed.

(** C1, as the code has it. [verifyPayment] does not look at the current
    status. [base] is the record [getPayment] finds for the id: the stored
    record unless the cache holds a live copy. A stored Payment in a
    terminal state keeps its status and its [confirmedAt] (the whole map of
    payments is unchanged, and no timer is touched) when the status
    oracle, asked about the signature of [base], reports neither a
    confirmed or finalized level nor an error, or cannot be reached; what
    the oracle knows about other signatures plays no part. When the oracle
    reports a confirmed or finalized level for that signature, the record
    is stored again with the status CONFIRMED and [confirmedAt] at the
    time of the call, every other field as in [base]; when it reports an
    error and no such level, with the status FAILED, every other field as
    in [base]. *)
Theorem C1_terminal_kept_while_oracle_undecided ws now paymentId st p base :
  JsMap.get paymentId (payments st) = Some p ->
  terminal (status p) ->
  fst (getPayment now paymentId st) = Ok (Val base) ->
  let st' := snd (verifyPayment ws now paymentId st) in
  (oracle_undecided ws (txSignature base) ->
     payments st' = payments st /\
     JsMap.get paymentId (payments st') = Some p /\
     timers st' = timers st) /\
  (forall value,
     getSignatureStatus ws (txSignature base) = OracleValue value ->
     (level_settled value ->
        exists updated,
          JsMap.get paymentId (payments st') = Some updated /\
          status updated = CONFIRMED /\
          confirmedAt updated = Some now /\
          same_payment_details base updated) /\
     (~ level_settled value -> error_reported value ->
        exists updated,
          JsMap.get paymentId (payments st') = Some updated /\
          status updated = FAILED /\
          confirmedAt updated = confirmedAt base /\
          same_payment_details base updated)) /\
  (fst (Cache.get (cache st) (cache_key paymentId) now) = Null -> base = p).
Proof.
  intros Hp _ Hfound st'.
  destruct (getPayment now paymentId st) as [r st1] eqn:Hg.
  simpl in Hfound. subst r.
  assert (Hp1 : payments st1 = payments st).
  { destruct (getPayment_frame now paymentId st) as [r' [st1' [Hg' [H _]]]].
    rewrite Hg in Hg'. inversion Hg'; subst. exact H. }
  split; [|split].
  - intros Hor. unfold oracle_undecided in Hor.
    assert (Hpay : payments st' = payments st).
    { subst st'.
      destruct (getSignatureStatus ws (txSignature base)) as [e|value] eqn:Ho.
      - destruct (verifyPayment_oracle_throws ws _ _ _ _ _ e Hg Ho)
          as [st2 [E [H1 _]]].
        rewrite E. simpl. congruence.
      - destruct Hor as [Hc He].
        apply reports_confirmed_not in Hc. apply reports_error_not in He.
        destruct (verifyPayment_pending ws _ _ _ _ _ _ Hg Ho Hc He)
          as [st2 [E [H1 _]]].
        rewrite E. simpl. congruence. }
    repeat split.
    + exact Hpay.
    + now rewrite Hpay.
    + apply verifyPayment_frame.
  - intros value Ho. subst st'. split.
    + intros Hc. apply reports_confirmed_iff in Hc.
      destruct (verifyPayment_confirmed ws _ _ _ _ _ _ Hg Ho Hc)
        as [st2 [E [H1 _]]].
      rewrite E. simpl. exists (confirmed_copy base now).
      split; [rewrite H1; apply jsmap_get_set_same|].
      apply confirmed_copy_details.
    + intros Hc He. apply reports_confirmed_not in Hc.
      apply reports_error_iff in He.
      destruct (verifyPayment_failed ws _ _ _ _ _ _ Hg Ho Hc He)
        as [st2 [E [H1 _]]].
      rewrite E. simpl. exists (failed_copy base).
      split; [rewrite H1; apply jsmap_get_set_same|].
      apply failed_copy_details.
  - intros Hmiss.
    destruct (getPayment_stored now paymentId st p Hp)
      as [base' [st1' [Hg' [_ [_ [Hb _]]]]]].
    rewrite Hg in Hg'. inversion Hg'; subst. auto.
Qed.

(** C7. For a stored payment, [base] being the record [getPayment] finds
    for its id (the record of the map unless the cache holds a live copy):
    when the status oracle reports the level confirmed or finalized for
    its signature, [verifyPayment] returns a record with the status
    CONFIRMED and [confirmedAt] set to the time of the call, every other
    field being that of [base], and stores that record in the map of
    payments and, for one hour, in the cache. *)
Theorem C7_verifyPayment_confirms ws now paymentId st p base value s :
  JsMap.get paymentId (payments st) = Some p ->
  fst (getPayment now paymentId st) = Ok (Val base) ->
  getSignatureStatus ws (txSignature base) = OracleValue value ->
  value = Some s ->
  confirmationStatus s = Some Confirmed \/
  confirmationStatus s = Some Finalized ->
  let st' := snd (verifyPayment ws now paymentId st) in
  (exists updated,
     fst (verifyPayment ws now paymentId st) = Ok updated /\
     status updated = CONFIRMED /\
     confirmedAt updated = Some now /\
     confirmedAt updated <> None /\
     same_payment_details base updated /\
     JsMap.get paymentId (payments st') = Some updated /\
     JsMap.get (cache_key paymentId) (store (cache st')) =
       Some {| data := Val updated; timestamp := now; ttl := hour |} /\
     (forall t, t - now <= hour ->
        fst (Cache.get (cache st') (cache_key paymentId) t) = Val updated)) /\
  (fst (Cache.get (cache st) (cache_key paymentId) now) = Null -> base = p).
Proof.
  intros Hp Hfound Ho Hv Hlevel st'.
  pose proof (reports_confirmed_level value s Hv Hlevel) as Hc.
  destruct (getPayment now paymentId st) as [r st1] eqn:Hg.
  simpl in Hfound. subst r.
  destruct (verifyPayment_confirmed ws _ _ _ _ _ _ Hg Ho Hc)
    as [st2 [E [H1 [H2 _]]]].
  subst st'. rewrite E. simpl.
  set (updated := confirmed_copy base now) in *.
  assert (Hentry :
    JsMap.get (cache_key paymentId) (store (cache st2)) =
    Some {| data := Val updated; timestamp := now; ttl := hour |}).
  { rewrite H2. apply set_stores_entry. }
  split.
  - exists updated.
    destruct (confirmed_copy_details base now) as [Hs [Hat Hsame]].
    split; [reflexivity|]. split; [exact Hs|]. split; [exact Hat|].
    split; [discriminate|]. split; [exact Hsame|].
    split; [rewrite H1; apply jsmap_get_set_same|].
    split; [exact Hentry|].
    intros t Ht. unfold Cache.get. rewrite Hentry.
    assert (E' : expired {| data := Val updated; timestamp := now;
                            ttl := hour |} t = false)
      by (apply expired_false; simpl; lia).
    now rewrite E'.
  - intros Hmiss.
    destruct (getPayment_stored now paymentId st p Hp)
      as [base' [st1' [Hg' [_ [_ [Hb _]]]]]].
    rewrite Hg in Hg'. inversion Hg'; subst. auto.
Qed.

(** A report that carries an error, and no confirmed or finalized level,
    marks the payment found as FAILED, whatever its status was. *)
Lemma verifyPayment_marks_failed ws now paymentId st base value :
  fst (getPayment now paymentId st) = Ok (Val base) ->
  getSignatureStatus ws (txSignature base) = OracleValue value ->
  reports_confirmed value = false ->
  reports_error value = true ->
  JsMap.get paymentId (payments (snd (verifyPayment ws now paymentId st))) =
  Some (failed_copy base).
Proof.
  intros Hfound Ho Hc He.
  destruct (getPayment now paymentId st) as [r st1] eqn:Hg.
  simpl in Hfound. subst r.
  destruct (verifyPayment_failed ws _ _ _ _ _ _ Hg Ho Hc He)
    as [st2 [E [H1 _]]].
  rewrite E. simpl. rewrite H1. apply jsmap_get_set_same.
Qed.
End Lifecycle.

(** The claim C1 as the specification states it fails: a CANCELLED payment
    whose signature the oracle reports as finalized becomes CONFIRMED, and
    its [confirmedAt] changes from absent to the time of the call. *)
Lemma C1_counterexample_cancelled_becomes_confirmed :
  let st := state_with (payment_1 CANCELLED) in
  let st' := snd (verifyPayment ws_finalized 2000 "payment_1" st) in
  JsMap.get "payment_1" (payments st) = Some (payment_1 CANCELLED) /\
  terminal (status (payment_1 CANCELLED)) /\
  exists p',
    JsMap.get "payment_1" (payments st') = Some p' /\
    status p' = CONFIRMED /\
    status p' <> status (payment_1 CANCELLED) /\
    confirmedAt p' = Some 2000 /\
    confirmedAt p' <> confirmedAt (payment_1 CANCELLED).
Proof.
  split; [reflexivity|].
  split; [right; right; reflexivity|].
  exists (confirmed_copy (payment_1 CANCELLED) 2000).
  repeat split; discriminate.
Qed.

(** A FAILED payment, the oracle knowing its signature as processed only
    and every other signature as finalized. *)
Lemma C1_terminal_kept_while_oracle_undecided_witness :
  let st' := snd (verifyPayment ws_other_finalized 2000 "payment_1"
                    (state_with (payment_1 FAILED))) in
  payments st' = payments (state_with (payment_1 FAILED)) /\
  JsMap.get "payment_1" (payments st') = Some (payment_1 FAILED) /\
  timers st' = timers (state_with (payment_1 FAILED)).
Proof.
  assert (Hterm : terminal (status (payment_1 FAILED)))
    by (right; left; reflexivity).
  assert (Hor : oracle_undecided ws_other_finalized
                  (txSignature (payment_1 FAILED))).
  { simpl. split.
    - intros [s [[= <-] [H|H]]]; discriminate H.
    - intros [s [msg [[= <-] [H _]]]]; discriminate H. }
  destruct (C1_terminal_kept_while_oracle_undecided ws_other_finalized 2000
              "payment_1" (state_with (payment_1 FAILED)) (payment_1 FAILED)
              (payment_1 FAILED) eq_refl Hterm eq_refl) as [H _].
  exact (H Hor).
Defined.

Lemma C7_verifyPayment_confirms_witness :
  let st' := snd (verifyPayment ws_finalized 2000 "payment_1"
                    (state_with (payment_1 PENDING))) in
  exists updated,
    fst (verifyPayment ws_finalized 2000 "payment_1"
           (state_with (payment_1 PENDING))) = Ok updated /\
    status updated = CONFIRMED /\
    confirmedAt updated = Some 2000 /\
    same_payment_details (payment_1 PENDING) updated /\
    JsMap.get "payment_1" (payments st') = Some updated /\
    fst (Cache.get (cache st') (cache_key "payment_1") 3000) = Val updated.
Proof.
  destruct (C7_verifyPayment_confirms ws_finalized 2000 "payment_1"
              (state_with (payment_1 PENDING)) (payment_1 PENDING)
              (payment_1 PENDING)
              (Some {| confirmationStatus := Some Finalized; err := None |})
              {| confirmationStatus := Some Finalized; err := None |}
              eq_refl eq_refl eq_refl eq_refl (or_intror eq_refl))
    as [[updated [H1 [H2 [H3 [_ [H4 [H5 [_ H7]]]]]]]] _].
  assert (Hle : 3000 - 2000 <= hour) by (unfold hour; lia).
  exact (ex_intro _ updated
           (conj H1 (conj H2 (conj H3 (conj H4 (conj H5 (H7 3000 Hle))))))).
Defined.

(** ** The confirmation poller *)

Section Poller.
Implicit Types (ws : WalletService) (st : state).

(** No error leaves [checkConfirmation]. *)
Lemma checkConfirmation_never_throws ws now paymentId n st :
  fst (checkConfirmation ws now paymentId n st) = Ok tt.
Proof.
  unfold checkConfirmation, try_catch, bind.
  destruct (verifyPayment ws now paymentId st) as [[payment|e] st1].
  - destruct (status payment); simpl; try reflexivity;
      destruct (n + 1 <? maxAttempts); reflexivity.
  - reflexivity.
Qed.

(** A check that finds the payment neither CONFIRMED nor FAILED counts the
    attempt and, below the budget, schedules the next check 10 seconds
    later. *)
Lemma checkConfirmation_reschedules ws now paymentId n st payment st1 :
  verifyPayment ws now paymentId st = (Ok payment, st1) ->
  status payment = PENDING \/ status payment = CANCELLED ->
  n + 1 < maxAttempts ->
  timers (snd (checkConfirmation ws now paymentId n st)) =
  timers st1 ++ [{| due := now + 10000; paymentId := paymentId;
                    attempts := n + 1 |}].
Proof.
  intros Hv Hs Hn. unfold checkConfirmation, try_catch, bind. rewrite Hv.
  apply Z.ltb_lt in Hn.
  destruct Hs as [Hs|Hs]; rewrite Hs; simpl; rewrite Hn; reflexivity.
Qed.

(** C2, as the code has it. No error leaves [checkConfirmation]. An error
    thrown while checking is caught and logged by the monitor; the handler
    neither counts the attempt nor schedules another check, so the timers
    and the map of payments are as before the check: polling of that
    payment ends at the first error. The attempt is counted, and the next
    check scheduled 10 seconds later while the count stays below 30, only
    by a check that completes and finds the payment neither CONFIRMED nor
    FAILED. *)
Theorem C2_monitor_error_is_logged_and_polling_ends ws now paymentId n st :
  let st1 := snd (verifyPayment ws now paymentId st) in
  let r := checkConfirmation ws now paymentId n st in
  fst r = Ok tt /\
  (forall e,
     fst (verifyPayment ws now paymentId st) = Throw e ->
     log (snd r) =
       log st1 ++ [(ERROR, "Error monitoring payment confirmation")] /\
     timers (snd r) = timers st /\
     payments (snd r) = payments st) /\
  (forall payment,
     fst (verifyPayment ws now paymentId st) = Ok payment ->
     status payment = PENDING \/ status payment = CANCELLED ->
     n + 1 < maxAttempts ->
     timers (snd r) =
       timers st ++ [{| due := now + 10000; paymentId := paymentId;
                        attempts := n + 1 |}]).
Proof.
  intros st1 r.
  destruct (verifyPayment_frame ws now paymentId st) as [Ht Hp].
  split; [apply checkConfirmation_never_throws|]. split.
  - intros e Hthrow. specialize (Hp e Hthrow).
    subst r st1. unfold checkConfirmation, try_catch, bind.
    destruct (verifyPayment ws now paymentId st) as [[payment|e'] s1].
    + discriminate.
    + simpl in *. auto.
  - intros payment Hok Hs Hn. subst r.
    destruct (verifyPayment ws now paymentId st) as [r1 s1] eqn:Hv.
    simpl in Hok, Ht. subst r1.
    rewrite (checkConfirmation_reschedules ws now paymentId n st payment s1
               Hv Hs Hn).
    now rewrite Ht.
Qed.

(** Firing the only pending timer of a monitor whose check throws leaves
    no timer behind. *)
Lemma fire_next_error_leaves_no_timer ws now st t rest e :
  timers st = t :: rest ->
  fst (verifyPayment ws now (paymentId t) (with_timers st rest)) = Throw e ->
  fst (fire_next ws now st) = Ok true /\
  timers (snd (fire_next ws now st)) = rest.
Proof.
  intros Ht Hthrow. unfold fire_next. rewrite Ht. unfold bind.
  pose proof (checkConfirmation_never_throws ws now (paymentId t) (attempts t)
                (with_timers st rest)) as Hok.
  pose proof (verifyPayment_frame ws now (paymentId t) (with_timers st rest))
    as [Hfr _].
  destruct (checkConfirmation ws now (paymentId t) (attempts t)
              (with_timers st rest)) as [[[]|e'] s2] eqn:Hc;
    simpl in Hok; [|discriminate].
  split; [reflexivity|]. simpl.
  change s2 with (snd (Ok tt, s2)). rewrite <- Hc.
  unfold checkConfirmation, try_catch, bind.
  destruct (verifyPayment ws now (paymentId t) (with_timers st rest))
    as [[payment|e''] s1]; simpl in *; [discriminate|assumption].
Qed.
End Poller.

(** The claim C2 as the specification states it fails: the first check of a
    monitor runs while the oracle is unreachable; the error is caught, and
    afterwards no timer is pending (none with the attempt counter at 1, due
    10 seconds later), so the next turn of the event loop has nothing to
    fire for this payment. *)
Lemma C2_counterexample_first_error_ends_polling :
  let st' := snd (fire_next ws_unreachable 6000 state_monitored) in
  fst (fire_next ws_unreachable 6000 state_monitored) = Ok true /\
  timers st' = [] /\
  ~ In {| due := 16000; paymentId := "payment_1"; attempts := 1 |} (timers st') /\
  fst (fire_next ws_unreachable 16000 st') = Ok false.
Proof.
  repeat split. intros [].
Qed.

Lemma C2_monitor_error_is_logged_and_polling_ends_witness :
  let r := checkConfirmation ws_unreachable 6000 "payment_1" 0
             (state_with (payment_1 PENDING)) in
  fst r = Ok tt /\
  timers (snd r) = [] /\
  payments (snd r) = payments (state_with (payment_1 PENDING)).
Proof.
  destruct (C2_monitor_error_is_logged_and_polling_ends ws_unreachable 6000
              "payment_1" 0 (state_with (payment_1 PENDING)))
    as [H1 [H2 _]].
  destruct (H2 (PaymentError "Failed to verify payment"
                  (Cause (ExternalError "fetch failed"))) eq_refl)
    as [_ [H3 H4]].
  exact (conj H1 (conj H3 H4)).
Defined.

(** ** Submission: validation and the currency dispatch *)

Section Submit.
Implicit Types (ws : WalletService) (st : state) (req : PaymentRequest).

Lemma nonpositive_le0 x : nonpositive x -> number_le0 x = true.
Proof.
  destruct x as [|negative|q]; simpl.
  - tauto.
  - auto.
  - apply Qle_bool_iff.
Qed.

(** Validation reads the request only: the state is left as it is. *)
Lemma validatePaymentRequest_frame ws now req st :
  snd (validatePaymentRequest ws now req st) = st.
Proof.
  unfold validatePaymentRequest.
  destruct (number_le0 _); [reflexivity|].
  destruct (match Request.expiresAt req with Some _ => _ | None => _ end);
    [reflexivity|].
  destruct (String.eqb _ ""); [reflexivity|].
  unfold try_catch, bind, publicKeyFromString.
  destruct (validPublicKey ws _); reflexivity.
Qed.

(** Whether validation passes does not depend on the state. *)
Lemma validatePaymentRequest_result ws now req st st0 :
  fst (validatePaymentRequest ws now req st) =
  fst (validatePaymentRequest ws now req st0).
Proof.
  unfold validatePaymentRequest.
  destruct (number_le0 _); [reflexivity|].
  destruct (match Request.expiresAt req with Some _ => _ | None => _ end);
    [reflexivity|].
  destruct (String.eqb _ ""); [reflexivity|].
  unfold try_catch, bind, publicKeyFromString.
  destruct (validPublicKey ws _); reflexivity.
Qed.

(** C3. A request whose amount is zero or negative is rejected by
    [processPayment] with the validation error on the amount (an
    InvalidPayment), wrapped by the method; no Payment is created: the map
    of payments is unchanged, and so are the cache and the timers. *)
Theorem C3_nonpositive_amount_rejected ws now suffix req userId options st :
  nonpositive (Request.amount req) ->
  let r := processPayment ws now suffix req userId options st in
  fst r = Throw (PaymentError "Failed to process payment"
                   (Cause (PaymentError
                             "Payment amount must be greater than 0"
                             NoDetails))) /\
  (forall e, fst r = Throw e -> kind_of e = Some InvalidPayment) /\
  payments (snd r) = payments st /\
  cache (snd r) = cache st /\
  timers (snd r) = timers st.
Proof.
  intros Hamount r. apply nonpositive_le0 in Hamount.
  subst r. unfold processPayment, try_catch, bind, validatePaymentRequest.
  simpl. rewrite Hamount. simpl.
  repeat split. intros e [= <-]. reflexivity.
Qed.

(** The error validation throws is one of its four, each an
    InvalidPayment. *)
Lemma validatePaymentRequest_throws_invalid ws now req st e :
  fst (validatePaymentRequest ws now req st) = Throw e ->
  (exists msg, e = PaymentError msg NoDetails) /\
  kind_of e = Some InvalidPayment.
Proof.
  unfold validatePaymentRequest.
  destruct (number_le0 _); [intros [= <-]; split; eauto|].
  destruct (match Request.expiresAt req with Some _ => _ | None => _ end);
    [intros [= <-]; split; eauto|].
  destruct (String.eqb _ ""); [intros [= <-]; split; eauto|].
  unfold try_catch, bind, publicKeyFromString.
  destruct (validPublicKey ws _); simpl; [discriminate|].
  intros [= <-]; split; eauto.
Qed.

(** C8, as the code has it. A request in a currency other than SOL always
    fails and creates no Payment (map of payments, cache and timers
    unchanged). The failure is that of the first step that fails: the
    error of the validation, an InvalidPayment, when the request does not
    pass validation; the "Wallet not connected" error when it does and the
    wallet is not connected; the NotImplemented error of the SPL-token path
    when it does and the wallet is connected. *)
Theorem C8_token_payment_fails ws now suffix req userId options st :
  Request.currency req <> "SOL" ->
  let r := processPayment ws now suffix req userId options st in
  (exists e, fst r = Throw (PaymentError "Failed to process payment" (Cause e))) /\
  payments (snd r) = payments st /\
  cache (snd r) = cache st /\
  timers (snd r) = timers st /\
  (forall e0,
     fst (validatePaymentRequest ws now req st) = Throw e0 ->
     fst r = Throw (PaymentError "Failed to process payment" (Cause e0)) /\
     kind_of e0 = Some InvalidPayment /\
     forall e, fst r = Throw e -> kind_of e = Some InvalidPayment) /\
  (fst (validatePaymentRequest ws now req st) = Ok tt ->
   isWalletConnected ws = false ->
   fst r = Throw (PaymentError "Failed to process payment"
                    (Cause (PaymentError "Wallet not connected" NoDetails))) /\
   forall e, fst r = Throw e -> kind_of e = Some WalletNotConnected) /\
  (fst (validatePaymentRequest ws now req st) = Ok tt ->
   isWalletConnected ws = true ->
   fst r = Throw (PaymentError "Failed to process payment"
                    (Cause (PaymentError
                              "SPL token payments not yet implemented"
                              (CurrencyDetails (Request.currency req))))) /\
   forall e, fst r = Throw e -> kind_of e = Some NotImplemented).
Proof.
  intros Hcur r. apply String.eqb_neq in Hcur.
  subst r. unfold processPayment, try_catch, bind. simpl.
  pose proof (validatePaymentRequest_frame ws now req
                (with_log st (log st ++ [(INFO, "Processing payment")])))
    as Hfr.
  pose proof (validatePaymentRequest_result ws now req
                (with_log st (log st ++ [(INFO, "Processing payment")])) st)
    as Hres.
  destruct (validatePaymentRequest ws now req
              (with_log st (log st ++ [(INFO, "Processing payment")])))
    as [[[]|e] s1].
  - simpl in Hfr, Hres. subst s1. rewrite <- Hres.
    destruct (isWalletConnected ws); simpl.
    + rewrite Hcur. simpl.
      split; [eauto|]. do 3 (split; [reflexivity|]).
      split; [discriminate|]. split; [discriminate|].
      intros _ _. split; [reflexivity|]. intros e [= <-]. reflexivity.
    + split; [eauto|]. do 3 (split; [reflexivity|]).
      split; [discriminate|]. split; [|discriminate].
      intros _ _. split; [reflexivity|]. intros e [= <-]. reflexivity.
  - simpl in Hfr, Hres. subst s1. simpl.
    pose proof (validatePaymentRequest_throws_invalid ws now req st e
                  (eq_sym Hres)) as [_ Hkind].
    rewrite <- Hres.
    split; [eauto|]. do 3 (split; [reflexivity|]).
    split; [|split; discriminate].
    intros e0 [= <-]. split; [reflexivity|]. split; [exact Hkind|].
    intros e' [= <-]. exact Hkind.
Qed.
End Submit.

(** The claim C8 as the specification states it fails: a request in a
    token other than SOL whose amount is 0 is rejected by validation, an
    InvalidPayment and not the NotImplemented error. *)
Lemma C8_counterexample_validation_comes_first :
  let r := processPayment ws_finalized 0 "x1" request_token_zero "alice"
             no_options initial in
  Request.currency request_token_zero <> "SOL" /\
  fst r = Throw (PaymentError "Failed to process payment"
                   (Cause (PaymentError "Payment amount must be greater than 0"
                             NoDetails))) /\
  (forall e, fst r = Throw e -> kind_of e <> Some NotImplemented).
Proof.
  repeat split.
  - discriminate.
  - intros e [= <-]. discriminate.
Qed.

Lemma C3_nonpositive_amount_rejected_witness :
  let r := processPayment ws_finalized 0 "x1" request_negative "alice"
             no_options initial in
  fst r = Throw (PaymentError "Failed to process payment"
                   (Cause (PaymentError "Payment amount must be greater than 0"
                             NoDetails))) /\
  payments (snd r) = payments initial.
Proof.
  assert (Hneg : nonpositive (Request.amount request_negative))
    by (simpl; unfold Qle; simpl; lia).
  destruct (C3_nonpositive_amount_rejected ws_finalized 0 "x1" request_negative
              "alice" no_options initial Hneg) as [H1 [_ [H3 _]]].
  exact (conj H1 H3).
Defined.

(** A token request that passes validation, with the wallet connected;
    and the token request of amount 0, rejected by validation. *)
Lemma C8_token_payment_fails_witness :
  let r := processPayment ws_finalized 0 "x1" request_token "alice"
             no_options initial in
  let r0 := processPayment ws_finalized 0 "x1" request_token_zero "alice"
              no_options initial in
  fst r = Throw (PaymentError "Failed to process payment"
                   (Cause (PaymentError "SPL token payments not yet implemented"
                             (CurrencyDetails "USDC")))) /\
  payments (snd r) = payments initial /\
  (forall e, fst r0 = Throw e -> kind_of e = Some InvalidPayment).
Proof.
  assert (Hcur : Request.currency request_token <> "SOL") by discriminate.
  assert (Hcur0 : Request.currency request_token_zero <> "SOL") by discriminate.
  destruct (C8_token_payment_fails ws_finalized 0 "x1" request_token "alice"
              no_options initial Hcur) as [_ [H2 [_ [_ [_ [_ H7]]]]]].
  destruct (C8_token_payment_fails ws_finalized 0 "x1" request_token_zero "alice"
              no_options initial Hcur0) as [_ [_ [_ [_ [H5 _]]]]].
  destruct (H7 eq_refl eq_refl) as [H8 _].
  destruct (H5 (PaymentError "Payment amount must be greater than 0" NoDetails)
              eq_refl) as [_ [_ H9]].
  exact (conj H8 (conj H2 H9)).
Defined.

(** ** Listing *)

Section Listing.
Implicit Types (o : ListOptions) (st : state) (p : Payment).

Lemma filter_twice {A} (f g : A -> bool) (l : list A) :
  filter g (filter f l) = filter (fun x => f x && g x) l.
Proof.
  induction l as [|x l IH]; simpl; [reflexivity|].
  destruct (f x); simpl; [destruct (g x)|]; now rewrite IH.
Qed.

Lemma filter_all {A} (l : list A) : filter (fun _ => true) l = l.
Proof. induction l as [|x l IH]; simpl; [reflexivity | now rewrite IH]. Qed.

Lemma supplied_truthy_nonempty x : x <> Some "" -> supplied_truthy x = x.
Proof.
  unfold supplied_truthy. destruct x as [s|]; [|reflexivity].
  intros H. destruct (String.eqb s "") eqn:E; [|reflexivity].
  apply String.eqb_eq in E. congruence.
Qed.

(** With no empty-string field, the conditional filters keep exactly the
    payments matching every supplied field. *)
Lemma apply_filters_matches o (ps : list Payment) :
  f_userId o <> Some "" -> f_agentId o <> Some "" ->
  apply_filters o ps = filter (matches o) ps.
Proof.
  intros Hu Ha. unfold apply_filters, matches.
  rewrite (supplied_truthy_nonempty _ Hu), (supplied_truthy_nonempty _ Ha).
  destruct (f_userId o) as [u|], (f_agentId o) as [a|], (f_status o) as [s|];
    repeat rewrite filter_twice;
    try (rewrite <- (filter_all ps) at 1; repeat rewrite filter_twice);
    apply filter_ext; intros p;
    rewrite ?andb_assoc, ?andb_true_r, ?andb_true_l; reflexivity.
Qed.

Lemma sort_insert_perm cmp x (l : list Payment) :
  Permutation (sort_insert cmp x l) (x :: l).
Proof.
  induction l as [|y l IH]; simpl; [reflexivity|].
  destruct (cmp x y <=? 0); [reflexivity|].
  rewrite IH. apply perm_swap.
Qed.

Lemma array_sort_perm cmp (l : list Payment) :
  Permutation (array_sort cmp l) l.
Proof.
  induction l as [|x l IH]; simpl; [reflexivity|].
  rewrite sort_insert_perm. now constructor.
Qed.

Lemma sort_insert_sorted x (l : list Payment) :
  StronglySorted newest_first l ->
  StronglySorted newest_first (sort_insert compare_newest_first x l).
Proof.
  induction 1 as [|y l Hs IH Hall]; simpl.
  - repeat constructor.
  - unfold compare_newest_first at 1.
    destruct (createdAt y - createdAt x <=? 0) eqn:E.
    + apply Z.leb_le in E.
      constructor; [now constructor|].
      constructor; [unfold newest_first; lia|].
      eapply Forall_impl; [|exact Hall].
      unfold newest_first. intros; lia.
    + apply Z.leb_gt in E.
      constructor; [assumption|].
      eapply Permutation_Forall;
        [symmetry; apply sort_insert_perm|].
      constructor; [unfold newest_first; lia | assumption].
Qed.

Lemma array_sort_sorted (l : list Payment) :
  StronglySorted newest_first (array_sort compare_newest_first l).
Proof.
  induction l as [|x l IH]; simpl; [constructor|].
  now apply sort_insert_sorted.
Qed.

(** For a non-negative offset and limit, [slice(offset, offset + limit)]
    skips [offset] elements and keeps at most [limit]. *)
Lemma array_slice_page {A} (l : list A) offset limit :
  0 <= offset -> 0 <= limit ->
  array_slice l offset (offset + limit) =
  firstn (Z.to_nat limit) (skipn (Z.to_nat offset) l).
Proof.
  intros Ho Hl. unfold array_slice, slice_index.
  destruct (offset <? 0) eqn:E1; [apply Z.ltb_lt in E1; lia|].
  destruct (offset + limit <? 0) eqn:E2; [apply Z.ltb_lt in E2; lia|].
  destruct (Z_le_gt_dec (Z.of_nat (length l)) offset) as [Hbig|Hsmall].
  - rewrite (skipn_all2 (n := Z.to_nat (Z.min offset _))) by lia.
    rewrite (skipn_all2 (n := Z.to_nat offset)) by lia.
    now rewrite !firstn_nil.
  - rewrite (Z.min_l offset) by lia.
    destruct (Z_le_gt_dec (offset + limit) (Z.of_nat (length l))) as [H|H].
    + rewrite (Z.min_l (offset + limit)) by lia. f_equal. lia.
    + rewrite (Z.min_r (offset + limit)) by lia.
      rewrite !firstn_all2; try reflexivity; rewrite length_skipn; lia.
Qed.

(** C6, as the code has it. For a filter whose [userId] and [agentId],
    when supplied, are not the empty string, and with [limit] defaulting
    to 50 and [offset] to 0: the list [sorted] of exactly the stored
    Payments that match every supplied field by equality, in descending
    order of [createdAt], exists such that [listPayments] returns
    [sorted.slice(offset, offset + limit)], that is, for non-negative
    arguments, at most [limit] elements after the first [offset]; the map
    of payments is not modified. *)
Theorem C6_listPayments_filters_sorts_paginates o st :
  f_userId o <> Some "" ->
  f_agentId o <> Some "" ->
  let offset := default (f_offset o) 0 in
  let limit := default (f_limit o) 50 in
  exists sorted,
    Permutation sorted (filter (matches o) (JsMap.values (payments st))) /\
    StronglySorted newest_first sorted /\
    fst (listPayments o st) = Ok (array_slice sorted offset (offset + limit)) /\
    (0 <= offset -> 0 <= limit ->
     fst (listPayments o st) =
     Ok (firstn (Z.to_nat limit) (skipn (Z.to_nat offset) sorted))) /\
    payments (snd (listPayments o st)) = payments st.
Proof.
  intros Hu Ha offset limit.
  exists (array_sort compare_newest_first
            (apply_filters o (JsMap.values (payments st)))).
  split; [|split; [|split; [|split]]].
  - rewrite array_sort_perm. now rewrite apply_filters_matches.
  - apply array_sort_sorted.
  - reflexivity.
  - intros Ho Hl. unfold listPayments, try_catch, bind. simpl.
    fold offset limit. now rewrite array_slice_page.
  - reflexivity.
Qed.
End Listing.

(** The claim C6 as the specification states it fails: with the empty
    string supplied as [userId] no Payment is filtered out, although none
    of the stored Payments has that user id. *)
Lemma C6_counterexample_empty_userId_is_ignored :
  fst (listPayments (filter_user "") state_two) =
    Ok [payment_2; payment_1 PENDING] /\
  filter (matches (filter_user "")) (JsMap.values (payments state_two)) = [] /\
  userId payment_2 <> "".
Proof.
  repeat split. discriminate.
Qed.

Lemma C6_listPayments_filters_sorts_paginates_witness :
  exists sorted,
    Permutation sorted [payment_2] /\
    StronglySorted newest_first sorted /\
    fst (listPayments (filter_user "bob") state_two) =
      Ok (array_slice sorted 0 50).
Proof.
  destruct (C6_listPayments_filters_sorts_paginates (filter_user "bob") state_two)
    as [sorted [H1 [H2 [H3 _]]]]; try discriminate.
  exists sorted. exact (conj H1 (conj H2 H3)).
Defined.

(** * Further properties of the cache *)

Section CacheOperations.
Context {T : Type}.
Implicit Types (c : Cache.t T) (e : CacheEntry T) (key : string).

Lemma jsmap_length_delete (m : JsMap.t (CacheEntry T)) key :
  JsMap.wf m -> In key (JsMap.keys m) ->
  S (length (JsMap.delete key m)) = length m.
Proof.
  unfold JsMap.wf.
  induction m as [|[k' e'] m IH]; simpl; [tauto|].
  intros Hnd Hin. inversion Hnd as [|? ? Hnotin Hnd']; subst.
  unfold JsMap.delete. simpl.
  destruct (String.eqb key k') eqn:E; simpl.
  - apply String.eqb_eq in E. subst k'.
    fold (JsMap.delete key m). now rewrite jsmap_delete_absent.
  - apply String.eqb_neq in E. fold (JsMap.delete key m).
    destruct Hin as [Hin|Hin]; [congruence|].
    now rewrite (IH Hnd' Hin).
Qed.

Lemma jsmap_size_delete (m : JsMap.t (CacheEntry T)) key :
  JsMap.wf m -> In key (JsMap.keys m) ->
  JsMap.size (JsMap.delete key m) = JsMap.size m - 1.
Proof.
  intros Hwf Hin. unfold JsMap.size.
  rewrite <- (jsmap_length_delete m key Hwf Hin). lia.
Qed.

(** X1. [has] and [get] read the store alike: they leave the same cache behind,
    [has] answers [true] exactly for a stored entry that has not expired,
    and whenever [get] returns a value [has] answers [true]. A live entry
    that stores [null] is the one case they tell apart: [has] is [true]
    while [get] returns [null]. *)
Theorem cache_has_agrees_with_get c key now :
  snd (Cache.has c key now) = snd (Cache.get c key now) /\
  (fst (Cache.has c key now) = true <->
   exists e, JsMap.get key (store c) = Some e /\ now - timestamp e <= ttl e) /\
  (forall v, fst (Cache.get c key now) = Val v ->
     fst (Cache.has c key now) = true) /\
  (forall e, JsMap.get key (store c) = Some e -> now - timestamp e <= ttl e ->
     data e = Null ->
     fst (Cache.has c key now) = true /\ fst (Cache.get c key now) = Null).
Proof.
  unfold Cache.has, Cache.get.
  destruct (JsMap.get key (store c)) as [e|] eqn:Hg.
  - destruct (expired e now) eqn:He; simpl.
    + apply expired_true in He. split; [reflexivity|]. split; [|split].
      * split; [discriminate|]. intros [e' [Heq Hle]].
        inversion Heq; subst. lia.
      * discriminate.
      * intros e' Heq Hle. inversion Heq; subst. lia.
    + apply expired_false in He. split; [reflexivity|]. split; [|split].
      * split; [|reflexivity]. intros _. exists e. auto.
      * reflexivity.
      * intros e' Heq _ Hd. inversion Heq; subst. auto.
  - simpl. split; [reflexivity|]. split; [|split].
    + split; [discriminate|]. intros [e [H _]]. discriminate.
    + discriminate.
    + discriminate.
Qed.

(** X2. [delete] answers whether the key was stored, expired or not;
    afterwards the key is absent for [get] and [has] at every time, every
    other key keeps its entry, and the store is one entry smaller when the
    key was there and unchanged when it was not. *)
Theorem cache_delete_removes_only_the_key c key :
  (fst (Cache.delete c key) = true <-> In key (Cache.keys c)) /\
  (forall now,
     fst (Cache.get (snd (Cache.delete c key)) key now) = Null /\
     fst (Cache.has (snd (Cache.delete c key)) key now) = false) /\
  (forall k', k' <> key ->
     JsMap.get k' (store (snd (Cache.delete c key))) = JsMap.get k' (store c)) /\
  (JsMap.wf (store c) -> In key (Cache.keys c) ->
     Cache.size (snd (Cache.delete c key)) = Cache.size c - 1) /\
  (~ In key (Cache.keys c) -> snd (Cache.delete c key) = c).
Proof.
  unfold Cache.delete, Cache.keys, Cache.size. simpl. repeat split.
  - unfold JsMap.has. intros H. apply jsmap_get_In.
    destruct (JsMap.get key (store c)); congruence.
  - unfold JsMap.has. intros H. apply jsmap_get_In in H.
    destruct (JsMap.get key (store c)); congruence.
  - unfold Cache.get. simpl. now rewrite jsmap_get_delete_same.
  - unfold Cache.has. simpl. now rewrite jsmap_get_delete_same.
  - intros k' Hne. apply jsmap_get_delete_other. congruence.
  - intros Hwf Hin. now apply jsmap_size_delete.
  - intros Hnin. rewrite jsmap_delete_absent by assumption.
    destruct c; reflexivity.
Qed.

(** [clear] and [destroy] empty the store and keep the configuration;
    [destroy] also disarms the sweep timer, and a second [destroy] changes
    nothing. The cache stays usable after [destroy]: a later [set] stores
    its entry, but the sweep timer is not armed again, so from then on
    entries leave only by lazy expiry, eviction or deletion. *)
Theorem cache_destroy_is_idempotent c key d ttl0 now :
  Cache.size (Cache.clear c) = 0 /\
  Cache.size (Cache.destroy c) = 0 /\
  config (Cache.destroy c) = config c /\
  cleanupTimer (Cache.destroy c) = false /\
  cleanupTimer (Cache.clear c) = cleanupTimer c /\
  Cache.destroy (Cache.destroy c) = Cache.destroy c /\
  (forall k t, fst (Cache.get (Cache.destroy c) k t) = Null) /\
  Cache.keys (Cache.set (Cache.destroy c) key d ttl0 now) = [key] /\
  cleanupTimer (Cache.set (Cache.destroy c) key d ttl0 now) = false.
Proof.
  repeat split.
  unfold Cache.set, Cache.keys. simpl.
  destruct (JsMap.size JsMap.empty >=? maxSize (config c)); reflexivity.
Qed.

Lemma jsmap_fold_delete_filter (ks : list string) (m : JsMap.t (CacheEntry T)) :
  fold_left (fun s k => JsMap.delete k s) ks m =
  filter (fun kv => negb (existsb (String.eqb (fst kv)) ks)) m.
Proof.
  revert m. induction ks as [|k ks IH]; intros m; simpl.
  - symmetry. apply filter_all.
  - rewrite IH. unfold JsMap.delete. rewrite filter_twice.
    apply filter_ext. intros [k' e']. simpl.
    rewrite (String.eqb_sym k k'). now rewrite negb_orb.
Qed.

(** X3. The sweep keeps exactly the entries that have not expired at the time
    it runs, in their order: the store afterwards is the store before
    without its expired entries. So no stored entry is expired right after
    a sweep, and the sweep never adds an entry. *)
Theorem cache_cleanup_keeps_exactly_the_live_entries c now :
  JsMap.wf (store c) ->
  store (Cache.cleanup c now) =
    filter (fun kv => negb (expired (snd kv) now)) (store c) /\
  (forall k e, In (k, e) (store (Cache.cleanup c now)) -> now - timestamp e <= ttl e) /\
  Cache.size (Cache.cleanup c now) <= Cache.size c /\
  config (Cache.cleanup c now) = config c.
Proof.
  intros Hwf.
  assert (Hst : store (Cache.cleanup c now) =
                filter (fun kv => negb (expired (snd kv) now)) (store c)).
  { unfold Cache.cleanup. simpl. rewrite jsmap_fold_delete_filter.
    apply filter_ext_in. intros [k e] Hin. simpl. f_equal.
    destruct (expired e now) eqn:He.
    - apply existsb_exists. exists k. split; [|apply String.eqb_refl].
      apply in_map_iff. exists (k, e). split; [reflexivity|].
      apply filter_In. auto.
    - destruct (existsb _ _) eqn:Ex; [|reflexivity].
      apply existsb_exists in Ex. destruct Ex as [k' [Hk' Heq]].
      apply String.eqb_eq in Heq. subst k'.
      apply in_map_iff in Hk'. destruct Hk' as [[k2 e2] [Hfst Hin2]].
      simpl in Hfst. subst k2.
      apply filter_In in Hin2. destruct Hin2 as [Hin2 Hexp]. simpl in Hexp.
      apply (jsmap_In_get _ _ _ Hwf) in Hin.
      apply (jsmap_In_get _ _ _ Hwf) in Hin2.
      congruence. }
  split; [exact Hst|]. split; [|split].
  - intros k e Hin. rewrite Hst in Hin. apply filter_In in Hin.
    destruct Hin as [_ Hlive]. simpl in Hlive.
    apply negb_true_iff in Hlive. now apply expired_false.
  - unfold Cache.size, JsMap.size. rewrite Hst.
    apply inj_le. apply filter_length_le.
  - reflexivity.
Qed.

(** X4. A sweep cannot be observed through [get]: whatever [get] returns for a
    key at some time, it returns the same after a sweep that ran no later
    than that time. *)
Theorem cache_cleanup_is_invisible_to_get c key tc now :
  JsMap.wf (store c) ->
  tc <= now ->
  fst (Cache.get (Cache.cleanup c tc) key now) = fst (Cache.get c key now).
Proof.
  intros Hwf Htc. unfold Cache.get at 2.
  destruct (JsMap.get key (store c)) as [e|] eqn:Hg.
  - destruct (expired e now) eqn:He.
    + unfold Cache.get.
      destruct (cleanup_get_cases c key tc) as [H|H]; rewrite H.
      * reflexivity.
      * now rewrite Hg, He.
    + assert (Hlive : expired e tc = false).
      { apply expired_false. apply expired_false in He. lia. }
      unfold Cache.get.
      now rewrite (cleanup_keeps_live c key e tc Hwf Hg Hlive), He.
  - unfold Cache.get.
    destruct (cleanup_get_cases c key tc) as [H|H]; rewrite H; [reflexivity|].
    now rewrite Hg.
Qed.

(** X5. [getOrSet] caches a value that is not [null]: when the key misses and
    the fetcher resolves to [v], the call returns [v], and until the TTL
    of the new entry has passed every further [getOrSet] of the key returns
    [v] without running its fetcher and without changing the cache. *)
Theorem cache_getOrSet_serves_cached_value {W : Type} c key
    (f : W -> nullable T * W) ttl0 now now' w v w' :
  fst (Cache.get c key now) = Null ->
  f w = (Val v, w') ->
  let c1 := snd (fst (Cache.getOrSet c key f ttl0 now now' w)) in
  Cache.getOrSet c key f ttl0 now now' w = (Val v, c1, w') /\
  (forall (g : W -> nullable T * W) ttl1 t t' w2,
     t - now' <= ttl_or_default ttl0 c ->
     Cache.getOrSet c1 key g ttl1 t t' w2 = (Val v, c1, w2)).
Proof.
  intros Hmiss Hf c1.
  assert (E : Cache.getOrSet c key f ttl0 now now' w =
              (Val v, Cache.set (snd (Cache.get c key now)) key (Val v) ttl0 now',
               w')).
  { rewrite (getOrSet_on_null c key f ttl0 now now' w Hmiss). now rewrite Hf. }
  subst c1. rewrite E. simpl. split; [reflexivity|].
  intros g ttl1 t t' w2 Ht.
  assert (Hcfg : ttl_or_default ttl0 (snd (Cache.get c key now)) =
                 ttl_or_default ttl0 c).
  { unfold ttl_or_default, Cache.get.
    destruct (JsMap.get key (store c)) as [e|]; [|reflexivity].
    destruct (expired e now); reflexivity. }
  set (c0 := snd (Cache.get c key now)) in *.
  assert (Hget : Cache.get (Cache.set c0 key (Val v) ttl0 now') key t =
                 (Val v, Cache.set c0 key (Val v) ttl0 now')).
  { unfold Cache.get at 1. rewrite set_stores_entry, Hcfg.
    assert (He : expired {| data := Val v; timestamp := now';
                            ttl := ttl_or_default ttl0 c |} t = false)
      by (apply expired_false; simpl; lia).
    now rewrite He. }
  unfold Cache.getOrSet. now rewrite Hget.
Qed.

(** A TTL of [0] is not "expire at once": [set] treats it as absent and
    uses the default TTL of the cache, so with a default TTL that is not
    negative the entry is served up to the default TTL after it was
    stored. *)
Theorem cache_set_zero_ttl_means_default c key d now t :
  Cache.set c key d (Some 0) now = Cache.set c key d None now /\
  (0 <= t - now <= defaultTTL (config c) ->
   fst (Cache.get (Cache.set c key d (Some 0) now) key t) = d).
Proof.
  split; [reflexivity|].
  intros Ht. unfold Cache.get. rewrite set_stores_entry.
  assert (He : expired {| data := d; timestamp := now;
                          ttl := ttl_or_default (Some 0) c |} t = false)
    by (apply expired_false; simpl; lia).
  now rewrite He.
Qed.

(** X6. [set] touches no key but its own and, on a full store, the oldest one:
    every other key keeps its entry. *)
Theorem cache_set_keeps_the_other_keys c key d ttl0 now k' :
  k' <> key ->
  Cache.size c < maxSize (config c) \/ JsMap.first_key (store c) <> Some k' ->
  JsMap.get k' (store (Cache.set c key d ttl0 now)) = JsMap.get k' (store c).
Proof.
  intros Hne Hcase. unfold Cache.set. simpl.
  rewrite jsmap_get_set_other by congruence.
  destruct (JsMap.size (store c) >=? maxSize (config c)) eqn:Efull;
    [|reflexivity].
  destruct Hcase as [Hsmall|Hfirst].
  - apply Z.geb_le in Efull. unfold Cache.size in Hsmall. lia.
  - unfold evict_oldest.
    destruct (JsMap.first_key (store c)) as [k0|]; [|reflexivity].
    destruct (truthy k0); [|reflexivity].
    apply jsmap_get_delete_other. congruence.
Qed.
End CacheOperations.

Lemma cache_has_agrees_with_get_witness :
  fst (Cache.has cache_100ms "k" 100) = true /\
  fst (Cache.has cache_100ms "k" 150) = false.
Proof.
  destruct (cache_has_agrees_with_get cache_100ms "k" 100) as [_ [[_ H1] _]].
  destruct (cache_has_agrees_with_get cache_100ms "k" 150) as [_ [[H2 _] _]].
  split.
  - apply H1. exists {| data := Val "v"; timestamp := 0; ttl := 100 |}.
    split; [reflexivity | simpl; lia].
  - destruct (fst (Cache.has cache_100ms "k" 150)) eqn:E; [|reflexivity].
    destruct (H2 eq_refl) as [e [He Hle]].
    inversion He; subst. simpl in Hle. lia.
Defined.

Lemma cache_delete_removes_only_the_key_witness :
  fst (Cache.delete cache_100ms "k") = true /\
  Cache.size (snd (Cache.delete cache_100ms "k")) = 0 /\
  snd (Cache.delete cache_100ms "other") = cache_100ms.
Proof.
  destruct (cache_delete_removes_only_the_key cache_100ms "k")
    as [[_ H1] [_ [_ [H4 _]]]].
  destruct (cache_delete_removes_only_the_key cache_100ms "other")
    as [_ [_ [_ [_ H5]]]].
  assert (Hin : In "k" (Cache.keys cache_100ms)) by (left; reflexivity).
  assert (Hwf : JsMap.wf (store cache_100ms))
    by (repeat constructor; simpl; tauto).
  assert (Hnin : ~ In "other" (Cache.keys cache_100ms))
    by (simpl; intros [H|[]]; discriminate).
  exact (conj (H1 Hin) (conj (H4 Hwf Hin) (H5 Hnin))).
Defined.

Lemma cache_cleanup_keeps_exactly_the_live_entries_witness :
  store (Cache.cleanup cache_100ms 150) = [] /\
  store (Cache.cleanup cache_100ms 100) = store cache_100ms.
Proof.
  assert (Hwf : JsMap.wf (store cache_100ms))
    by (repeat constructor; simpl; tauto).
  destruct (cache_cleanup_keeps_exactly_the_live_entries cache_100ms 150 Hwf)
    as [H1 _].
  destruct (cache_cleanup_keeps_exactly_the_live_entries cache_100ms 100 Hwf)
    as [H2 _].
  exact (conj H1 H2).
Defined.

Lemma cache_cleanup_is_invisible_to_get_witness :
  fst (Cache.get (Cache.cleanup cache_100ms 50) "k" 100) = Val "v".
Proof.
  assert (Hwf : JsMap.wf (store cache_100ms))
    by (repeat constructor; simpl; tauto).
  assert (Hle : 50 <= 100) by lia.
  exact (cache_cleanup_is_invisible_to_get cache_100ms "k" 50 100 Hwf Hle).
Defined.

Lemma cache_getOrSet_serves_cached_value_witness :
  Cache.getOrSet
    (snd (fst (Cache.getOrSet (cache_of_size 10) "k"
                 (fun n : nat => (Val "v", S n)) (Some 100) 0 0 O)))
    "k" (fun n : nat => (Val "other", S n)) None 100 100 1%nat =
  (Val "v",
   snd (fst (Cache.getOrSet (cache_of_size 10) "k"
               (fun n : nat => (Val "v", S n)) (Some 100) 0 0 O)),
   1%nat).
Proof.
  destruct (cache_getOrSet_serves_cached_value (cache_of_size 10) "k"
              (fun n : nat => (Val "v", S n)) (Some 100) 0 0 O "v" 1%nat
              eq_refl eq_refl) as [_ H].
  apply H. simpl. lia.
Defined.

Lemma cache_set_zero_ttl_means_default_witness :
  fst (Cache.get (Cache.set (cache_of_size 10) "k" (Val "v") (Some 0) 0)
         "k" 300000) = Val "v".
Proof.
  destruct (cache_set_zero_ttl_means_default (cache_of_size 10) "k" (Val "v")
              0 300000) as [_ H].
  apply H. simpl. lia.
Defined.

Lemma cache_set_keeps_the_other_keys_witness :
  JsMap.get "k" (store (Cache.set cache_100ms "b" (Val "w") None 5)) =
  JsMap.get "k" (store cache_100ms).
Proof.
  apply cache_set_keeps_the_other_keys.
  - discriminate.
  - left. unfold Cache.size, JsMap.size. simpl. lia.
Defined.

(** * Further properties of the payment processor *)

Section Submission.
Implicit Types (ws : WalletService) (st : state) (req : PaymentRequest).

Lemma number_le0_false x : number_le0 x = false <-> ~ nonpositive x.
Proof.
  destruct x as [|negative|q]; simpl.
  - tauto.
  - destruct negative; split; auto; try discriminate. intros H. now contradict H.
  - rewrite <- Qle_bool_iff. destruct (Qle_bool q 0); split; auto; try discriminate.
    intros H. now contradict H.
Qed.

Lemma validatePaymentRequest_ok_iff ws now req st :
  fst (validatePaymentRequest ws now req st) = Ok tt <->
  ~ nonpositive (Request.amount req) /\
  (forall e, Request.expiresAt req = Some e -> now <= e) /\
  Request.recipient req <> "" /\
  validPublicKey ws (Request.recipient req) = true.
Proof.
  unfold validatePaymentRequest.
  destruct (number_le0 (Request.amount req)) eqn:Ea.
  { split; [discriminate|]. intros [H _]. apply number_le0_false in H. congruence. }
  apply number_le0_false in Ea.
  destruct (Request.expiresAt req) as [e|] eqn:Ee.
  - destruct (e <? now) eqn:El.
    { apply Z.ltb_lt in El. split; [discriminate|].
      intros [_ [H _]]. specialize (H e eq_refl). lia. }
    apply Z.ltb_ge in El.
    destruct (String.eqb (Request.recipient req) "") eqn:Er.
    { apply String.eqb_eq in Er. split; [discriminate|]. tauto. }
    apply String.eqb_neq in Er.
    unfold try_catch, bind, publicKeyFromString.
    destruct (validPublicKey ws (Request.recipient req)); simpl.
    + split; [|reflexivity]. intros _. repeat split; auto.
      intros e' [= <-]. exact El.
    + split; [discriminate|]. intros [_ [_ [_ H]]]. discriminate.
  - destruct (String.eqb (Request.recipient req) "") eqn:Er.
    { apply String.eqb_eq in Er. split; [discriminate|]. tauto. }
    apply String.eqb_neq in Er.
    unfold try_catch, bind, publicKeyFromString.
    destruct (validPublicKey ws (Request.recipient req)); simpl.
    + split; [|reflexivity]. intros _. repeat split; auto. discriminate.
    + split; [discriminate|]. intros [_ [_ [_ H]]]. discriminate.
Qed.

Lemma validatePaymentRequest_ok_key ws now req st :
  fst (validatePaymentRequest ws now req st) = Ok tt ->
  validPublicKey ws (Request.recipient req) = true.
Proof. intros H. now apply validatePaymentRequest_ok_iff in H. Qed.

(** X7. Validation accepts exactly the requests whose amount is not zero or
    negative, whose expiry, if any, is not before the time of the call,
    and whose recipient is a non-empty string that is a valid public key.
    An amount that is [NaN] is therefore accepted. *)
Theorem validatePaymentRequest_accepts_exactly ws now req st :
  fst (validatePaymentRequest ws now req st) = Ok tt <->
  ~ nonpositive (Request.amount req) /\
  (forall e, Request.expiresAt req = Some e -> now <= e) /\
  Request.recipient req <> "" /\
  validPublicKey ws (Request.recipient req) = true.
Proof. apply validatePaymentRequest_ok_iff. Qed.

(** X8. On success [processPayment] returns a PENDING Payment carrying the
    amount and currency of the request and the signature returned by the
    transfer, stores it in the map of payments under its id and in the
    cache for one hour, and schedules the first confirmation check 5
    seconds later with the attempt counter at 0. *)
Theorem processPayment_records_pending_payment
    ws now suffix req userId options st signature :
  fst (validatePaymentRequest ws now req st) = Ok tt ->
  isWalletConnected ws = true ->
  Request.currency req = "SOL" ->
  sendSOL ws (Request.recipient req) (Request.amount req) (Request.memo req) =
    SendResult signature true ->
  let payment := new_payment now suffix req userId options signature in
  let r := processPayment ws now suffix req userId options st in
  fst r = Ok payment /\
  payments (snd r) = JsMap.set (id payment) payment (payments st) /\
  JsMap.get (id payment) (payments (snd r)) = Some payment /\
  cache (snd r) =
    Cache.set (cache st) (cache_key (id payment)) (Val payment) (Some hour) now /\
  timers (snd r) =
    timers st ++ [{| due := now + 5000; paymentId := id payment; attempts := 0 |}].
Proof.
  intros Hval Hconn Hcur Hsend payment r.
  pose proof (validatePaymentRequest_ok_key ws now req st Hval) as Hkey.
  subst r. unfold processPayment, try_catch, bind. simpl.
  pose proof (validatePaymentRequest_frame ws now req
                (with_log st (log st ++ [(INFO, "Processing payment")])))
    as Hfr.
  pose proof (validatePaymentRequest_result ws now req
                (with_log st (log st ++ [(INFO, "Processing payment")])) st)
    as Hres.
  destruct (validatePaymentRequest ws now req
              (with_log st (log st ++ [(INFO, "Processing payment")])))
    as [r1 s1].
  simpl in Hfr, Hres. subst s1. rewrite Hval in Hres. subst r1.
  rewrite Hconn. simpl. rewrite Hcur. simpl.
  unfold processSOLPayment, try_catch, bind, publicKeyFromString.
  rewrite Hkey. simpl. rewrite Hsend. simpl.
  repeat split.
  - unfold payment, new_payment. now rewrite Hcur.
  - unfold payment, new_payment. now rewrite Hcur.
  - unfold payment, new_payment. rewrite Hcur. apply jsmap_get_set_same.
  - unfold payment, new_payment. now rewrite Hcur.
Qed.

(** X9. Whatever makes [processPayment] fail, it fails with one
    [PaymentError] wrapping the cause, and it has created nothing: the map
    of payments, the cache and the timers are as before the call. *)
Theorem processPayment_failure_changes_nothing
    ws now suffix req userId options st e :
  fst (processPayment ws now suffix req userId options st) = Throw e ->
  (exists cause, e = PaymentError "Failed to process payment" (Cause cause)) /\
  payments (snd (processPayment ws now suffix req userId options st)) =
    payments st /\
  cache (snd (processPayment ws now suffix req userId options st)) = cache st /\
  timers (snd (processPayment ws now suffix req userId options st)) = timers st.
Proof.
  unfold processPayment, try_catch, bind. simpl.
  pose proof (validatePaymentRequest_frame ws now req
                (with_log st (log st ++ [(INFO, "Processing payment")])))
    as Hfr.
  destruct (validatePaymentRequest ws now req
              (with_log st (log st ++ [(INFO, "Processing payment")])))
    as [[[]|e0] s1]; simpl in Hfr; subst s1; simpl.
  - destruct (isWalletConnected ws); simpl.
    + destruct (String.eqb (Request.currency req) "SOL"); simpl.
      * unfold processSOLPayment, try_catch, bind, publicKeyFromString.
        destruct (validPublicKey ws (Request.recipient req)); simpl.
        -- destruct (sendSOL ws (Request.recipient req) (Request.amount req)
                       (Request.memo req)) as [e1|signature confirmed]; simpl.
           ++ intros [= <-]. repeat split; eauto.
           ++ destruct confirmed; simpl.
              ** discriminate.
              ** intros [= <-]. repeat split; eauto.
        -- intros [= <-]. repeat split; eauto.
      * intros [= <-]. repeat split; eauto.
    + intros [= <-]. repeat split; eauto.
  - intros [= <-]. repeat split; eauto.
Qed.

(** Without a connected wallet a valid request is refused with the
    "Wallet not connected" error, whatever its currency. *)
Theorem processPayment_requires_connected_wallet
    ws now suffix req userId options st :
  fst (validatePaymentRequest ws now req st) = Ok tt ->
  isWalletConnected ws = false ->
  fst (processPayment ws now suffix req userId options st) =
    Throw (PaymentError "Failed to process payment"
             (Cause (PaymentError "Wallet not connected" NoDetails))).
Proof.
  intros Hval Hconn. unfold processPayment, try_catch, bind. simpl.
  pose proof (validatePaymentRequest_frame ws now req
                (with_log st (log st ++ [(INFO, "Processing payment")])))
    as Hfr.
  pose proof (validatePaymentRequest_result ws now req
                (with_log st (log st ++ [(INFO, "Processing payment")])) st)
    as Hres.
  destruct (validatePaymentRequest ws now req
              (with_log st (log st ++ [(INFO, "Processing payment")])))
    as [r1 s1].
  simpl in Hfr, Hres. subst s1. rewrite Hval in Hres. subst r1.
  rewrite Hconn. reflexivity.
Qed.

(** X10. A SOL transfer that the wallet reports as not confirmed, or that
    throws, makes [processPayment] fail, the cause wrapped twice (by the
    SOL path and by the method): the cause is "Transaction failed to
    confirm", a TransferFailed, in the first case and the error thrown by
    the transfer in the second. *)
Theorem processPayment_surfaces_transfer_failure
    ws now suffix req userId options st :
  fst (validatePaymentRequest ws now req st) = Ok tt ->
  isWalletConnected ws = true ->
  Request.currency req = "SOL" ->
  let outcome :=
    sendSOL ws (Request.recipient req) (Request.amount req) (Request.memo req) in
  let r := processPayment ws now suffix req userId options st in
  (forall signature, outcome = SendResult signature false ->
     fst r = Throw (PaymentError "Failed to process payment"
                      (Cause (PaymentError "Failed to process SOL payment"
                                (Cause (PaymentError
                                          "Transaction failed to confirm"
                                          NoDetails))))) /\
     forall e, fst r = Throw e -> kind_of e = Some TransferFailed) /\
  (forall e0, outcome = SendThrows e0 ->
     fst r = Throw (PaymentError "Failed to process payment"
                      (Cause (PaymentError "Failed to process SOL payment"
                                (Cause e0))))).
Proof.
  intros Hval Hconn Hcur outcome r.
  pose proof (validatePaymentRequest_ok_key ws now req st Hval) as Hkey.
  assert (E : r =
    match outcome with
    | SendThrows e0 =>
        (Throw (PaymentError "Failed to process payment"
                  (Cause (PaymentError "Failed to process SOL payment"
                            (Cause e0)))), snd r)
    | SendResult signature false =>
        (Throw (PaymentError "Failed to process payment"
                  (Cause (PaymentError "Failed to process SOL payment"
                            (Cause (PaymentError "Transaction failed to confirm"
                                      NoDetails))))), snd r)
    | SendResult _ true => r
    end).
  { subst r outcome. unfold processPayment, try_catch, bind. simpl.
    pose proof (validatePaymentRequest_frame ws now req
                  (with_log st (log st ++ [(INFO, "Processing payment")])))
      as Hfr.
    pose proof (validatePaymentRequest_result ws now req
                  (with_log st (log st ++ [(INFO, "Processing payment")])) st)
      as Hres.
    destruct (validatePaymentRequest ws now req
                (with_log st (log st ++ [(INFO, "Processing payment")])))
      as [r1 s1].
    simpl in Hfr, Hres. subst s1. rewrite Hval in Hres. subst r1.
    rewrite Hconn. simpl. rewrite Hcur. simpl.
    unfold processSOLPayment, try_catch, bind, publicKeyFromString.
    rewrite Hkey. simpl.
    destruct (sendSOL ws (Request.recipient req) (Request.amount req)
                (Request.memo req)) as [e1|signature [|]]; reflexivity. }
  split.
  - intros signature Ho. rewrite Ho in E. rewrite E. simpl. split; [reflexivity|].
    intros e [= <-]. reflexivity.
  - intros e0 Ho. rewrite Ho in E. rewrite E. reflexivity.
Qed.
End Submission.

Section Reading.
Implicit Types (ws : WalletService) (st : state) (p : Payment).

Lemma cache_get_val_entry {T} (c : Cache.t T) key now v :
  fst (Cache.get c key now) = Val v ->
  exists e, JsMap.get key (store c) = Some e /\ data e = Val v /\
            snd (Cache.get c key now) = c.
Proof.
  unfold Cache.get. destruct (JsMap.get key (store c)) as [e|]; [|discriminate].
  destruct (expired e now); [discriminate|]. simpl. eauto.
Qed.

(** X11. [getPayment] reads through the cache: it never changes the map of
    payments; an id that the cache misses and the map does not hold gives
    [null] and caches nothing; an id that the cache misses and the map
    holds gives the stored record and puts it into the cache, so that for
    the next hour the same call is answered with that record. *)
Theorem getPayment_reads_through_the_cache now paymentId st :
  payments (snd (getPayment now paymentId st)) = payments st /\
  (fst (Cache.get (cache st) (cache_key paymentId) now) = Null ->
   JsMap.get paymentId (payments st) = None ->
   getPayment now paymentId st =
     (Ok Null, with_cache st (snd (Cache.get (cache st) (cache_key paymentId) now)))) /\
  (forall p,
     fst (Cache.get (cache st) (cache_key paymentId) now) = Null ->
     JsMap.get paymentId (payments st) = Some p ->
     fst (getPayment now paymentId st) = Ok (Val p) /\
     JsMap.get (cache_key paymentId)
       (store (cache (snd (getPayment now paymentId st)))) =
       Some {| data := Val p; timestamp := now; ttl := hour |} /\
     forall t, t - now <= hour ->
       getPayment t paymentId (snd (getPayment now paymentId st)) =
       (Ok (Val p), snd (getPayment now paymentId st))).
Proof.
  split; [|split].
  - destruct (getPayment_frame now paymentId st) as [r [st1 [E [H _]]]].
    now rewrite E.
  - intros Hmiss Hnone. rewrite getPayment_cases.
    destruct (Cache.get (cache st) (cache_key paymentId) now) as [r c1].
    simpl in Hmiss. subst r. now rewrite Hnone.
  - intros p Hmiss Hp. rewrite getPayment_cases.
    destruct (Cache.get (cache st) (cache_key paymentId) now) as [r c1].
    simpl in Hmiss. subst r. rewrite Hp. simpl.
    assert (Hentry :
      JsMap.get (cache_key paymentId)
        (store (Cache.set c1 (cache_key paymentId) (Val p) (Some hour) now)) =
      Some {| data := Val p; timestamp := now; ttl := hour |})
      by apply set_stores_entry.
    split; [reflexivity|]. split; [exact Hentry|].
    intros t Ht. rewrite getPayment_cases. simpl.
    unfold Cache.get. rewrite Hentry.
    assert (He : expired {| data := Val p; timestamp := now; ttl := hour |} t
                 = false) by (apply expired_false; simpl; lia).
    rewrite He. simpl. reflexivity.
Qed.

Lemma getPayment_after_processPayment
    ws now suffix req userId options st payment t :
  fst (processPayment ws now suffix req userId options st) = Ok payment ->
  fst (getPayment t (id payment)
         (snd (processPayment ws now suffix req userId options st))) =
  Ok (Val payment).
Proof.
  unfold processPayment, try_catch, bind. simpl.
  pose proof (validatePaymentRequest_frame ws now req
                (with_log st (log st ++ [(INFO, "Processing payment")])))
    as Hfr.
  destruct (validatePaymentRequest ws now req
              (with_log st (log st ++ [(INFO, "Processing payment")])))
    as [[[]|e0] s1]; simpl in Hfr; subst s1; simpl; [|discriminate].
  destruct (isWalletConnected ws); simpl; [|discriminate].
  destruct (String.eqb (Request.currency req) "SOL"); simpl; [|discriminate].
  unfold processSOLPayment, try_catch, bind, publicKeyFromString.
  destruct (validPublicKey ws (Request.recipient req)); simpl; [|discriminate].
  destruct (sendSOL ws (Request.recipient req) (Request.amount req)
              (Request.memo req)) as [e1|signature [|]]; simpl;
    try discriminate.
  intros [= <-]. simpl.
  rewrite getPayment_cases. simpl.
  unfold Cache.get. rewrite set_stores_entry.
  match goal with
  | |- context [expired ?e t] => destruct (expired e t)
  end; simpl.
  - rewrite jsmap_get_set_same. reflexivity.
  - reflexivity.
Qed.

(** X12. A Payment just created by [processPayment] is found by [getPayment]
    at every later time: from the cache during the first hour, from the map
    of payments afterwards. *)
Theorem getPayment_finds_the_processed_payment
    ws now suffix req userId options st payment t :
  fst (processPayment ws now suffix req userId options st) = Ok payment ->
  fst (getPayment t (id payment)
         (snd (processPayment ws now suffix req userId options st))) =
  Ok (Val payment).
Proof. apply getPayment_after_processPayment. Qed.

(** X13. [verifyPayment] on an id that neither the cache nor the map of
    payments holds throws "Payment not found", wrapped by the method, and
    leaves the map of payments and the timers as they are; the status
    oracle plays no part. *)
Theorem verifyPayment_rejects_unknown_id ws now paymentId st :
  JsMap.get paymentId (payments st) = None ->
  fst (Cache.get (cache st) (cache_key paymentId) now) = Null ->
  let r := verifyPayment ws now paymentId st in
  fst r = Throw (PaymentError "Failed to verify payment"
                   (Cause (PaymentError "Payment not found" NoDetails))) /\
  (forall e, fst r = Throw e -> kind_of e = Some NotFound) /\
  payments (snd r) = payments st /\
  timers (snd r) = timers st.
Proof.
  intros Hnone Hmiss r.
  assert (Hg : getPayment now paymentId st =
               (Ok Null,
                with_cache st
                  (snd (Cache.get (cache st) (cache_key paymentId) now)))).
  { rewrite getPayment_cases.
    destruct (Cache.get (cache st) (cache_key paymentId) now) as [r0 c1].
    simpl in Hmiss. subst r0. now rewrite Hnone. }
  destruct (verifyPayment_not_found ws _ _ _ _ Hg) as [st2 [E [H1 [_ H3]]]].
  subst r. rewrite E. simpl. repeat split.
  - intros e [= <-]. reflexivity.
  - now rewrite H1.
  - now rewrite H3.
Qed.

(** X14. [verifyPayment] tests the confirmation level before the error. A
    report that carries an error together with a confirmed or finalized
    level marks the payment CONFIRMED, stamped with the time of the call.
    An error without such a level marks it FAILED, unless the error is
    the empty string: then every field but the status is that of the
    record found (so [confirmedAt] is not stamped) and the record is
    stored in the map and, for one hour, in the cache. An empty string as
    the error, without such a level, counts as no error: the record found
    is returned as it is and the map of payments is unchanged. *)
Theorem verifyPayment_level_comes_before_error
    ws now paymentId st base value s msg :
  fst (getPayment now paymentId st) = Ok (Val base) ->
  getSignatureStatus ws (txSignature base) = OracleValue value ->
  value = Some s ->
  err s = Some msg ->
  let r := verifyPayment ws now paymentId st in
  (confirmationStatus s = Some Confirmed \/
   confirmationStatus s = Some Finalized ->
     exists updated,
       fst r = Ok updated /\
       status updated = CONFIRMED /\
       confirmedAt updated = Some now /\
       same_payment_details base updated /\
       JsMap.get paymentId (payments (snd r)) = Some updated) /\
  (confirmationStatus s = Some Processed \/ confirmationStatus s = None ->
   msg <> "" ->
     exists updated,
       fst r = Ok updated /\
       status updated = FAILED /\
       confirmedAt updated = confirmedAt base /\
       same_payment_details base updated /\
       JsMap.get paymentId (payments (snd r)) = Some updated /\
       JsMap.get (cache_key paymentId) (store (cache (snd r))) =
         Some {| data := Val updated; timestamp := now; ttl := hour |}) /\
  (confirmationStatus s = Some Processed \/ confirmationStatus s = None ->
   msg = "" ->
     fst r = Ok base /\
     payments (snd r) = payments st).
Proof.
  intros Hfound Ho Hv Herr r.
  destruct (getPayment now paymentId st) as [r0 st1] eqn:Hg.
  simpl in Hfound. subst r0.
  assert (Hnolevel :
    confirmationStatus s = Some Processed \/ confirmationStatus s = None ->
    reports_confirmed value = false).
  { intros Hlevel. subst value. unfold reports_confirmed.
    destruct Hlevel as [H|H]; now rewrite H. }
  split; [|split].
  - intros Hlevel.
    pose proof (reports_confirmed_level value s Hv Hlevel) as Hc.
    destruct (verifyPayment_confirmed ws _ _ _ _ _ _ Hg Ho Hc)
      as [st2 [E [H1 _]]].
    subst r. rewrite E. simpl. exists (confirmed_copy base now).
    destruct (confirmed_copy_details base now) as [Hs [Hat Hsame]].
    repeat (split; [assumption || reflexivity|]).
    rewrite H1. apply jsmap_get_set_same.
  - intros Hlevel Hmsg. pose proof (Hnolevel Hlevel) as Hc.
    assert (He : reports_error value = true).
    { apply reports_error_iff. exists s, msg. auto. }
    destruct (verifyPayment_failed ws _ _ _ _ _ _ Hg Ho Hc He)
      as [st2 [E [H1 [H2 _]]]].
    subst r. rewrite E. simpl. exists (failed_copy base).
    destruct (failed_copy_details base) as [Hs [Hat Hsame]].
    repeat (split; [assumption || reflexivity|]).
    split.
    + rewrite H1. apply jsmap_get_set_same.
    + rewrite H2. apply set_stores_entry.
  - intros Hlevel Hmsg. pose proof (Hnolevel Hlevel) as Hc.
    assert (He : reports_error value = false).
    { subst value msg. unfold reports_error. now rewrite Herr. }
    destruct (verifyPayment_pending ws _ _ _ _ _ _ Hg Ho Hc He)
      as [st2 [E [H1 _]]].
    subst r. rewrite E. simpl. split; [reflexivity|].
    rewrite H1.
    destruct (getPayment_frame now paymentId st) as [r' [st1' [Hg' [H _]]]].
    rewrite Hg in Hg'. inversion Hg'; subst. exact H.
Qed.
End Reading.

(** * Further properties of the confirmation poller *)

Section MonitorRun.
Import Monitor.
Implicit Types (ws : WalletService) (st : state) (p : Payment).

Lemma getPayment_with_timers now paymentId st ts :
  getPayment now paymentId (with_timers st ts) =
  (fst (getPayment now paymentId st),
   with_timers (snd (getPayment now paymentId st)) ts).
Proof.
  rewrite !getPayment_cases. simpl.
  destruct (Cache.get (cache st) (cache_key paymentId) now) as [[|q] c1].
  - destruct (JsMap.get paymentId (payments st)); reflexivity.
  - reflexivity.
Qed.

(** With the cache holding, under the key of the id, nothing but the
    stored record, [getPayment] finds that record and keeps it so. *)
Lemma getPayment_coherent now paymentId st p :
  JsMap.get paymentId (payments st) = Some p ->
  (forall e, JsMap.get (cache_key paymentId) (store (cache st)) = Some e ->
     data e = Val p) ->
  exists st1,
    getPayment now paymentId st = (Ok (Val p), st1) /\
    payments st1 = payments st /\ timers st1 = timers st /\
    log st1 = log st /\
    (forall e, JsMap.get (cache_key paymentId) (store (cache st1)) = Some e ->
       data e = Val p).
Proof.
  intros Hp Hcoh. rewrite getPayment_cases, Hp. unfold Cache.get.
  destruct (JsMap.get (cache_key paymentId) (store (cache st))) as [e|] eqn:Hg.
  - destruct (expired e now).
    + eexists. split; [reflexivity|].
      unfold with_cache; cbn [payments cache timers log]. repeat split.
      intros e'. rewrite set_stores_entry. intros [= <-]. reflexivity.
    + rewrite (Hcoh e eq_refl). eexists. split; [reflexivity|].
      unfold with_cache; cbn [payments cache timers log]. repeat split.
      intros e' He'. rewrite Hg in He'. exact (Hcoh e' He').
  - eexists. split; [reflexivity|].
    unfold with_cache; cbn [payments cache timers log]. repeat split.
    intros e'. rewrite set_stores_entry. intros [= <-]. reflexivity.
Qed.

Lemma run_checks_no_timer fuel wss clock st :
  timers st = [] -> run_checks fuel wss clock st = (O, st).
Proof.
  intros Ht. destruct fuel as [|fuel]; [reflexivity|].
  simpl. unfold fire_next. now rewrite Ht.
Qed.

(** One check of a monitor whose payment is still pending. *)
Lemma monitor_pending_step ws now st paymentId0 p n due0 :
  timers st = [{| due := due0; paymentId := paymentId0; attempts := n |}] ->
  JsMap.get paymentId0 (payments st) = Some p ->
  status p = PENDING ->
  (forall e, JsMap.get (cache_key paymentId0) (store (cache st)) = Some e ->
     data e = Val p) ->
  still_pending ws (txSignature p) ->
  exists st',
    fire_next ws now st = (Ok true, st') /\
    payments st' = payments st /\
    (forall e, JsMap.get (cache_key paymentId0) (store (cache st')) = Some e ->
       data e = Val p) /\
    timers st' =
      (if n + 1 <? maxAttempts
       then [{| due := now + 10000; paymentId := paymentId0; attempts := n + 1 |}]
       else []) /\
    ((n + 1 <? maxAttempts) = false ->
     exists l,
       log st' = l ++ [(WARN, "Payment confirmation monitoring timed out")]).
Proof.
  intros Ht Hp Hs Hcoh Hor.
  destruct (getPayment_coherent now paymentId0 (with_timers st []) p Hp Hcoh)
    as [st1 [Hg [Hp1 [Ht1 [_ Hcoh1]]]]].
  simpl in Hp1, Ht1.
  destruct Hor as [value [Ho [Hc He]]].
  apply reports_confirmed_not in Hc. apply reports_error_not in He.
  destruct (verifyPayment_pending ws _ _ _ _ _ _ Hg Ho Hc He)
    as [st2 [E [Hp2 [Hc2 Ht2]]]].
  unfold fire_next. rewrite Ht. simpl paymentId. simpl attempts.
  unfold bind, checkConfirmation, try_catch, bind. rewrite E, Hs.
  destruct (n + 1 <? maxAttempts) eqn:En; simpl.
  - eexists. split; [reflexivity|]. simpl. repeat split.
    + congruence.
    + rewrite Hc2. exact Hcoh1.
    + rewrite Ht2, Ht1. reflexivity.
    + discriminate.
  - eexists. split; [reflexivity|]. simpl. repeat split.
    + congruence.
    + rewrite Hc2. exact Hcoh1.
    + rewrite Ht2, Ht1. reflexivity.
    + intros _. eexists. reflexivity.
Qed.

Lemma monitor_run_from m :
  forall fuel wss clock st paymentId0 p n due0,
    Z.of_nat (S m) = maxAttempts - n ->
    (S m <= fuel)%nat ->
    timers st = [{| due := due0; paymentId := paymentId0; attempts := n |}] ->
    JsMap.get paymentId0 (payments st) = Some p ->
    status p = PENDING ->
    (forall e, JsMap.get (cache_key paymentId0) (store (cache st)) = Some e ->
       data e = Val p) ->
    (forall i, still_pending (wss i) (txSignature p)) ->
    fst (run_checks fuel wss clock st) = S m /\
    timers (snd (run_checks fuel wss clock st)) = [] /\
    payments (snd (run_checks fuel wss clock st)) = payments st /\
    exists l,
      log (snd (run_checks fuel wss clock st)) =
      l ++ [(WARN, "Payment confirmation monitoring timed out")].
Proof.
  induction m as [|m IH];
    intros fuel wss clock st paymentId0 p n due0 Hm Hfuel Ht Hp Hs Hcoh Hor.
  - destruct fuel as [|fuel]; [lia|].
    destruct (monitor_pending_step (wss O) (clock O) st paymentId0 p n due0
                Ht Hp Hs Hcoh (Hor O))
      as [st' [E [Hp' [_ [Ht' Hlog]]]]].
    assert (En : (n + 1 <? maxAttempts) = false)
      by (apply Z.ltb_ge; unfold maxAttempts in *; lia).
    rewrite En in Ht'. simpl run_checks. rewrite E.
    rewrite (run_checks_no_timer fuel _ _ st' Ht'). simpl.
    repeat split; auto.
  - destruct fuel as [|fuel]; [lia|].
    destruct (monitor_pending_step (wss O) (clock O) st paymentId0 p n due0
                Ht Hp Hs Hcoh (Hor O))
      as [st' [E [Hp' [Hcoh' [Ht' _]]]]].
    assert (En : (n + 1 <? maxAttempts) = true)
      by (apply Z.ltb_lt; unfold maxAttempts in *; lia).
    rewrite En in Ht'. simpl run_checks. rewrite E.
    rewrite <- Hp' in Hp.
    destruct (IH fuel (fun i => wss (S i)) (fun i => clock (S i)) st'
                paymentId0 p (n + 1) (clock O + 10000))
      as [H1 [H2 [H3 H4]]]; auto.
    { unfold maxAttempts in *. lia. }
    { lia. }
    destruct (run_checks fuel _ _ st') as [k st''].
    simpl in *. repeat split; auto; congruence.
Qed.

(** X15. The monitor gives up after 30 checks. While the oracle, asked about
    the signature of the payment, keeps answering with neither a confirmed
    or finalized level nor an error (whatever it knows about other
    signatures), the monitor started for a stored PENDING payment runs
    exactly 30 checks, however long the event loop goes on; then no timer
    is left, the timeout is logged as a warning, and the map of payments
    is as it was: the payment is still PENDING. *)
Theorem monitor_gives_up_after_30_checks fuel wss clock st paymentId0 p due0 :
  timers st = [{| due := due0; paymentId := paymentId0; attempts := 0 |}] ->
  JsMap.get paymentId0 (payments st) = Some p ->
  status p = PENDING ->
  (forall e, JsMap.get (cache_key paymentId0) (store (cache st)) = Some e ->
     data e = Val p) ->
  (forall i, still_pending (wss i) (txSignature p)) ->
  (30 <= fuel)%nat ->
  let r := run_checks fuel wss clock st in
  fst r = 30%nat /\
  timers (snd r) = [] /\
  payments (snd r) = payments st /\
  JsMap.get paymentId0 (payments (snd r)) = Some p /\
  exists l,
    log (snd r) = l ++ [(WARN, "Payment confirmation monitoring timed out")].
Proof.
  intros Ht Hp Hs Hcoh Hor Hfuel r.
  destruct (monitor_run_from 29 fuel wss clock st paymentId0 p 0 due0)
    as [H1 [H2 [H3 H4]]]; auto.
  subst r. repeat split; auto. now rewrite H3.
Qed.

(** Once a check finds the payment CONFIRMED or FAILED the monitor ends:
    [checkConfirmation] schedules nothing and adds nothing to what
    [verifyPayment] did. *)
Theorem monitor_ends_when_payment_is_settled ws now paymentId0 n st payment st1 :
  verifyPayment ws now paymentId0 st = (Ok payment, st1) ->
  status payment = CONFIRMED \/ status payment = FAILED ->
  checkConfirmation ws now paymentId0 n st = (Ok tt, st1) /\
  timers (snd (checkConfirmation ws now paymentId0 n st)) = timers st.
Proof.
  intros Hv Hs.
  assert (E : checkConfirmation ws now paymentId0 n st = (Ok tt, st1)).
  { unfold checkConfirmation, try_catch, bind. rewrite Hv.
    destruct Hs as [Hs|Hs]; rewrite Hs; reflexivity. }
  split; [exact E|]. rewrite E. simpl.
  pose proof (verifyPayment_frame ws now paymentId0 st) as [Hfr _].
  rewrite Hv in Hfr. exact Hfr.
Qed.

(** The last check of the budget: with the attempt counter at 29, a check
    that finds the payment still unsettled schedules no further check and
    logs the timeout. *)
Theorem monitor_last_attempt_schedules_nothing ws now paymentId0 n st payment st1 :
  verifyPayment ws now paymentId0 st = (Ok payment, st1) ->
  status payment = PENDING \/ status payment = CANCELLED ->
  maxAttempts <= n + 1 ->
  timers (snd (checkConfirmation ws now paymentId0 n st)) = timers st /\
  log (snd (checkConfirmation ws now paymentId0 n st)) =
    log st1 ++ [(WARN, "Payment confirmation monitoring timed out")].
Proof.
  intros Hv Hs Hn.
  pose proof (verifyPayment_frame ws now paymentId0 st) as [Hfr _].
  rewrite Hv in Hfr. simpl in Hfr.
  unfold checkConfirmation, try_catch, bind. rewrite Hv.
  apply Z.ltb_ge in Hn.
  destruct Hs as [Hs|Hs]; rewrite Hs; simpl; rewrite Hn; simpl; auto.
Qed.

(** X16. Submission followed by a first check that finds the transfer confirmed
    or finalized: the record stored under the id of the payment created by
    [processPayment] has the status CONFIRMED and [confirmedAt] at the time
    of the check, every other field being that of the payment created, and
    no timer is left. *)
Theorem processed_payment_is_confirmed_by_first_check
    ws now suffix req userId options st payment ws' t s :
  timers st = [] ->
  fst (processPayment ws now suffix req userId options st) = Ok payment ->
  getSignatureStatus ws' (txSignature payment) = OracleValue (Some s) ->
  confirmationStatus s = Some Confirmed \/
  confirmationStatus s = Some Finalized ->
  let st1 := snd (processPayment ws now suffix req userId options st) in
  let r := fire_next ws' t st1 in
  fst r = Ok true /\
  (exists confirmed,
     JsMap.get (id payment) (payments (snd r)) = Some confirmed /\
     status confirmed = CONFIRMED /\
     confirmedAt confirmed = Some t /\
     same_payment_details payment confirmed) /\
  timers (snd r) = [].
Proof.
  intros Ht Hok Ho Hlevel st1 r.
  pose proof (getPayment_after_processPayment ws now suffix req userId
                options st payment t Hok) as Hfound.
  fold st1 in Hfound.
  assert (Htimers : timers st1 =
    [{| due := now + 5000; paymentId := id payment; attempts := 0 |}]).
  { subst st1. revert Hok.
    unfold processPayment, try_catch, bind. simpl.
    pose proof (validatePaymentRequest_frame ws now req
                  (with_log st (log st ++ [(INFO, "Processing payment")])))
      as Hfr.
    destruct (validatePaymentRequest ws now req
                (with_log st (log st ++ [(INFO, "Processing payment")])))
      as [[[]|e0] s1]; simpl in Hfr; subst s1; simpl; [|discriminate].
    destruct (isWalletConnected ws); simpl; [|discriminate].
    destruct (String.eqb (Request.currency req) "SOL"); simpl; [|discriminate].
    unfold processSOLPayment, try_catch, bind, publicKeyFromString.
    destruct (validPublicKey ws (Request.recipient req)); simpl; [|discriminate].
    destruct (sendSOL ws (Request.recipient req) (Request.amount req)
                (Request.memo req)) as [e1|signature [|]]; simpl;
      try discriminate.
    intros [= <-]. simpl. now rewrite Ht. }
  assert (Hg : getPayment t (id payment) (with_timers st1 []) =
               (Ok (Val payment),
                with_timers (snd (getPayment t (id payment) st1)) [])).
  { rewrite getPayment_with_timers. now rewrite Hfound. }
  pose proof (reports_confirmed_level (Some s) s eq_refl Hlevel) as Hc.
  destruct (verifyPayment_confirmed ws' _ _ _ _ _ _ Hg Ho Hc)
    as [st2 [E [H1 [_ H3]]]].
  subst r. unfold fire_next. rewrite Htimers. simpl paymentId. simpl attempts.
  unfold bind, checkConfirmation, try_catch, bind. rewrite E. simpl.
  split; [reflexivity|]. split.
  - exists (confirmed_copy payment t).
    split; [rewrite H1; apply jsmap_get_set_same|].
    apply confirmed_copy_details.
  - rewrite H3. reflexivity.
Qed.
End MonitorRun.

(** ** Instances *)

Lemma validatePaymentRequest_accepts_exactly_witness :
  fst (validatePaymentRequest ws_finalized 0 request_nan initial) = Ok tt /\
  fst (validatePaymentRequest ws_finalized 0 request_sol initial) = Ok tt.
Proof.
  split.
  - apply (validatePaymentRequest_accepts_exactly ws_finalized 0 request_nan
             initial).
    repeat split; simpl; try discriminate. tauto.
  - apply (validatePaymentRequest_accepts_exactly ws_finalized 0 request_sol
             initial).
    repeat split; simpl; try discriminate.
    unfold Qle. simpl. lia.
Defined.

Lemma processPayment_records_pending_payment_witness :
  let r := processPayment ws_finalized 7 "x1" request_sol "alice" no_options
             initial in
  fst r = Ok (new_payment 7 "x1" request_sol "alice" no_options "sig1") /\
  timers (snd r) = [{| due := 5007; paymentId := "payment_x1"; attempts := 0 |}].
Proof.
  destruct (processPayment_records_pending_payment ws_finalized 7 "x1"
              request_sol "alice" no_options initial "sig1"
              eq_refl eq_refl eq_refl eq_refl) as [H1 [_ [_ [_ H5]]]].
  exact (conj H1 H5).
Defined.

Lemma processPayment_failure_changes_nothing_witness :
  payments (snd (processPayment ws_finalized 0 "x1" request_negative "alice"
                   no_options initial)) = payments initial /\
  timers (snd (processPayment ws_finalized 0 "x1" request_negative "alice"
                 no_options initial)) = timers initial.
Proof.
  destruct (processPayment_failure_changes_nothing ws_finalized 0 "x1"
              request_negative "alice" no_options initial
              (PaymentError "Failed to process payment"
                 (Cause (PaymentError "Payment amount must be greater than 0"
                           NoDetails)))
              eq_refl) as [_ [H2 [_ H4]]].
  exact (conj H2 H4).
Defined.

Lemma processPayment_requires_connected_wallet_witness :
  fst (processPayment ws_disconnected 0 "x1" request_token "alice" no_options
         initial) =
  Throw (PaymentError "Failed to process payment"
           (Cause (PaymentError "Wallet not connected" NoDetails))).
Proof.
  exact (processPayment_requires_connected_wallet ws_disconnected 0 "x1"
           request_token "alice" no_options initial eq_refl eq_refl).
Defined.

(** A transfer that does not confirm, and a transfer that throws. *)
Lemma processPayment_surfaces_transfer_failure_witness :
  fst (processPayment ws_unconfirmed 0 "x1" request_sol "alice" no_options
         initial) =
  Throw (PaymentError "Failed to process payment"
           (Cause (PaymentError "Failed to process SOL payment"
                     (Cause (PaymentError "Transaction failed to confirm"
                               NoDetails))))) /\
  fst (processPayment ws_transfer_throws 0 "x1" request_sol "alice" no_options
         initial) =
  Throw (PaymentError "Failed to process payment"
           (Cause (PaymentError "Failed to process SOL payment"
                     (Cause (ExternalError "blockhash not found"))))).
Proof.
  destruct (processPayment_surfaces_transfer_failure ws_unconfirmed 0 "x1"
              request_sol "alice" no_options initial eq_refl eq_refl eq_refl)
    as [H _].
  destruct (processPayment_surfaces_transfer_failure ws_transfer_throws 0 "x1"
              request_sol "alice" no_options initial eq_refl eq_refl eq_refl)
    as [_ H'].
  destruct (H "sig1" eq_refl) as [H1 _].
  exact (conj H1 (H' (ExternalError "blockhash not found") eq_refl)).
Defined.

Lemma getPayment_reads_through_the_cache_witness :
  fst (getPayment 2000 "payment_1" (state_with (payment_1 PENDING))) =
    Ok (Val (payment_1 PENDING)) /\
  fst (getPayment 2000 "unknown" (state_with (payment_1 PENDING))) = Ok Null.
Proof.
  destruct (getPayment_reads_through_the_cache 2000 "payment_1"
              (state_with (payment_1 PENDING))) as [_ [_ H3]].
  destruct (getPayment_reads_through_the_cache 2000 "unknown"
              (state_with (payment_1 PENDING))) as [_ [H2 _]].
  destruct (H3 (payment_1 PENDING) eq_refl eq_refl) as [H _].
  split; [exact H|]. now rewrite (H2 eq_refl eq_refl).
Defined.

Lemma getPayment_finds_the_processed_payment_witness :
  fst (getPayment (7 + 2 * hour) "payment_x1"
         (snd (processPayment ws_finalized 7 "x1" request_sol "alice"
                 no_options initial))) =
  Ok (Val (new_payment 7 "x1" request_sol "alice" no_options "sig1")).
Proof.
  exact (getPayment_finds_the_processed_payment ws_finalized 7 "x1" request_sol
           "alice" no_options initial
           (new_payment 7 "x1" request_sol "alice" no_options "sig1")
           (7 + 2 * hour) eq_refl).
Defined.

Lemma verifyPayment_rejects_unknown_id_witness :
  fst (verifyPayment ws_finalized 0 "unknown" initial) =
  Throw (PaymentError "Failed to verify payment"
           (Cause (PaymentError "Payment not found" NoDetails))).
Proof.
  destruct (verifyPayment_rejects_unknown_id ws_finalized 0 "unknown" initial
              eq_refl eq_refl) as [H _].
  exact H.
Defined.

(** A finalized report with an error, a processed report with an error,
    and a processed report with the empty string as the error. *)
Lemma verifyPayment_level_comes_before_error_witness :
  (exists updated,
     fst (verifyPayment ws_finalized_with_error 2000 "payment_1"
            (state_with (payment_1 PENDING))) = Ok updated /\
     status updated = CONFIRMED) /\
  (exists updated,
     fst (verifyPayment ws_error 2000 "payment_1"
            (state_with (payment_1 PENDING))) = Ok updated /\
     status updated = FAILED) /\
  fst (verifyPayment ws_empty_error 2000 "payment_1"
         (state_with (payment_1 PENDING))) = Ok (payment_1 PENDING).
Proof.
  destruct (verifyPayment_level_comes_before_error ws_finalized_with_error 2000
              "payment_1" (state_with (payment_1 PENDING)) (payment_1 PENDING)
              (Some {| confirmationStatus := Some Finalized;
                       err := Some "InstructionError" |})
              {| confirmationStatus := Some Finalized;
                 err := Some "InstructionError" |}
              "InstructionError" eq_refl eq_refl eq_refl eq_refl) as [H1 _].
  destruct (verifyPayment_level_comes_before_error ws_error 2000
              "payment_1" (state_with (payment_1 PENDING)) (payment_1 PENDING)
              (Some {| confirmationStatus := Some Processed;
                       err := Some "InstructionError" |})
              {| confirmationStatus := Some Processed;
                 err := Some "InstructionError" |}
              "InstructionError" eq_refl eq_refl eq_refl eq_refl) as [_ [H2 _]].
  destruct (verifyPayment_level_comes_before_error ws_empty_error 2000
              "payment_1" (state_with (payment_1 PENDING)) (payment_1 PENDING)
              (Some {| confirmationStatus := Some Processed; err := Some "" |})
              {| confirmationStatus := Some Processed; err := Some "" |}
              "" eq_refl eq_refl eq_refl eq_refl) as [_ [_ H3]].
  assert (Hmsg : "InstructionError" <> "") by discriminate.
  destruct (H1 (or_intror eq_refl)) as [u1 [Ha [Hb _]]].
  destruct (H2 (or_introl eq_refl) Hmsg) as [u2 [Hc [Hd _]]].
  destruct (H3 (or_introl eq_refl) eq_refl) as [He _].
  exact (conj (ex_intro _ u1 (conj Ha Hb))
           (conj (ex_intro _ u2 (conj Hc Hd)) He)).
Defined.

(** The oracle knows the signature of the payment as processed only, and
    every other signature as finalized. *)
Lemma monitor_gives_up_after_30_checks_witness :
  fst (Monitor.run_checks 40 (fun _ => ws_other_finalized)
         (fun i => 6000 + 10000 * Z.of_nat i) state_monitored) = 30%nat /\
  timers (snd (Monitor.run_checks 40 (fun _ => ws_other_finalized)
                 (fun i => 6000 + 10000 * Z.of_nat i) state_monitored)) = [].
Proof.
  assert (Hcoh : forall e,
            JsMap.get (cache_key "payment_1") (store (cache state_monitored)) =
            Some e -> data e = Val (payment_1 PENDING))
    by (intros e H; discriminate H).
  assert (Hor : forall i : nat,
            still_pending ((fun _ : nat => ws_other_finalized) i)
              (txSignature (payment_1 PENDING))).
  { intros i. eexists. split; [reflexivity|]. split.
    - intros [s [[= <-] [H|H]]]; discriminate H.
    - intros [s [msg [[= <-] [H _]]]]; discriminate H. }
  assert (Hfuel : (30 <= 40)%nat) by lia.
  destruct (monitor_gives_up_after_30_checks 40 (fun _ => ws_other_finalized)
              (fun i => 6000 + 10000 * Z.of_nat i) state_monitored "payment_1"
              (payment_1 PENDING) 6000 eq_refl eq_refl eq_refl Hcoh Hor Hfuel)
    as [H1 [H2 _]].
  exact (conj H1 H2).
Defined.

Lemma monitor_ends_when_payment_is_settled_witness :
  timers (snd (checkConfirmation ws_finalized 6000 "payment_1" 0
                 (state_with (payment_1 PENDING)))) = [].
Proof.
  destruct (monitor_ends_when_payment_is_settled ws_finalized 6000 "payment_1" 0
              (state_with (payment_1 PENDING))
              (confirmed_copy (payment_1 PENDING) 6000)
              (snd (verifyPayment ws_finalized 6000 "payment_1"
                      (state_with (payment_1 PENDING))))
              eq_refl (or_introl eq_refl)) as [_ H].
  exact H.
Defined.

Lemma monitor_last_attempt_schedules_nothing_witness :
  timers (snd (checkConfirmation ws_processed 6000 "payment_1" 29
                 (state_with (payment_1 PENDING)))) = [].
Proof.
  assert (Hn : maxAttempts <= 29 + 1) by (unfold maxAttempts; lia).
  destruct (monitor_last_attempt_schedules_nothing ws_processed 6000
              "payment_1" 29 (state_with (payment_1 PENDING))
              (payment_1 PENDING)
              (snd (verifyPayment ws_processed 6000 "payment_1"
                      (state_with (payment_1 PENDING))))
              eq_refl (or_introl eq_refl) Hn) as [H _].
  exact H.
Defined.

Lemma processed_payment_is_confirmed_by_first_check_witness :
  let st1 := snd (processPayment ws_finalized 7 "x1" request_sol "alice"
                    no_options initial) in
  (exists confirmed,
     JsMap.get "payment_x1" (payments (snd (fire_next ws_finalized 5007 st1))) =
       Some confirmed /\
     status confirmed = CONFIRMED /\
     confirmedAt confirmed = Some 5007 /\
     same_payment_details
       (new_payment 7 "x1" request_sol "alice" no_options "sig1") confirmed) /\
  timers (snd (fire_next ws_finalized 5007 st1)) = [].
Proof.
  destruct (processed_payment_is_confirmed_by_first_check ws_finalized 7 "x1"
              request_sol "alice" no_options initial
              (new_payment 7 "x1" request_sol "alice" no_options "sig1")
              ws_finalized 5007
              {| confirmationStatus := Some Finalized; err := None |}
              eq_refl eq_refl eq_refl (or_intror eq_refl)) as [_ [H2 H3]].
  exact (conj H2 H3).
Defined.

(** * Properties of the payment request builder *)

Section Builder.
Import RequestBuilder.
Implicit Types (s : builder_state) (options : option RequestOptions).

(** [createPaymentRequest] fills in what the caller left out: the currency
    is SOL when none is given, the reference is the given one unless it is
    absent or empty (then the generated one, starting with [pay_]), and the
    expiry is the given one or 30 minutes after the call. The amount is
    taken as it is, zero, negative or [NaN] included. *)
Theorem createPaymentRequest_applies_defaults
    now suffix amount currency recipient options s :
  let req :=
    fst (createPaymentRequest now suffix amount currency recipient options s) in
  Request.amount req = amount /\
  Request.recipient req = recipient /\
  (currency = None -> Request.currency req = "SOL") /\
  (forall c, currency = Some c -> Request.currency req = c) /\
  (options = None ->
     Request.reference req = Some ("pay_" ++ suffix)%string /\
     Request.expiresAt req = Some (now + 30 * 60 * 1000) /\
     Request.memo req = None) /\
  (forall o, options = Some o ->
     (forall r, o_reference o = Some r -> r <> "" ->
        Request.reference req = Some r) /\
     (o_reference o = None \/ o_reference o = Some "" ->
        Request.reference req = Some ("pay_" ++ suffix)%string) /\
     (forall e, o_expiresAt o = Some e -> Request.expiresAt req = Some e) /\
     (o_expiresAt o = None ->
        Request.expiresAt req = Some (now + 30 * 60 * 1000)) /\
     Request.memo req = o_memo o).
Proof.
  simpl. repeat split.
  - intros ->. reflexivity.
  - intros c ->. reflexivity.
  - subst options. reflexivity.
  - subst options. reflexivity.
  - subst options. reflexivity.
  - intros r Hr Hne. subst options. simpl. rewrite Hr.
    apply String.eqb_neq in Hne. now rewrite Hne.
  - intros [Hr|Hr]; subst options; simpl; rewrite Hr; reflexivity.
  - intros e He. subst options. simpl. now rewrite He.
  - intros He. subst options. simpl. now rewrite He.
  - subst options. reflexivity.
Qed.

(** X17. The request is stored in the cache under [payment-request:<reference>]
    for 30 minutes: a lookup by that key returns the request up to 30
    minutes after the call and nothing afterwards. *)
Theorem createPaymentRequest_caches_for_half_an_hour
    now suffix amount currency recipient options s reference t :
  let r := createPaymentRequest now suffix amount currency recipient options s in
  Request.reference (fst r) = Some reference ->
  (t - now <= 30 * 60 * 1000 ->
     fst (Cache.get (requests (snd r)) ("payment-request:" ++ reference)%string t)
     = Val (fst r)) /\
  (t - now > 30 * 60 * 1000 ->
     fst (Cache.get (requests (snd r)) ("payment-request:" ++ reference)%string t)
     = Null).
Proof.
  intros r Href. subst r. simpl in Href. inversion Href as [Hr]. clear Href.
  unfold createPaymentRequest. cbn [fst snd requests b_logger].
  fold (request_key (reference_or_generated options suffix)).
  unfold Cache.get. rewrite set_stores_entry.
  split; intros Ht.
  - match goal with
    | |- context [expired ?e t] =>
        assert (He : expired e t = false)
          by (apply expired_false; simpl; unfold half_hour; lia)
    end.
    now rewrite He.
  - match goal with
    | |- context [expired ?e t] =>
        assert (He : expired e t = true)
          by (apply expired_true; simpl; unfold half_hour; lia)
    end.
    now rewrite He.
Qed.

(** X18. A request built without an explicit expiry (no options, or options
    that leave [expiresAt] out) expires 30 minutes after it was built:
    validation does not find it expired up to then, and rejects it as
    expired afterwards (its amount not being zero or negative). The amount
    is checked only at submission: a request built with an amount that is
    zero or negative is rejected there. *)
Theorem created_request_is_valid_for_half_an_hour
    ws now suffix amount currency recipient options s st t :
  (forall o, options = Some o -> o_expiresAt o = None) ->
  let req :=
    fst (createPaymentRequest now suffix amount currency recipient options s) in
  Request.expiresAt req = Some (now + 30 * 60 * 1000) /\
  Request.amount req = amount /\
  (nonpositive amount ->
     fst (validatePaymentRequest ws t req st) =
     Throw (PaymentError "Payment amount must be greater than 0" NoDetails)) /\
  (~ nonpositive amount -> t - now > 30 * 60 * 1000 ->
     fst (validatePaymentRequest ws t req st) =
     Throw (PaymentError "Payment request has expired" NoDetails)) /\
  (~ nonpositive amount -> t - now <= 30 * 60 * 1000 ->
     recipient <> "" -> validPublicKey ws recipient = true ->
     fst (validatePaymentRequest ws t req st) = Ok tt).
Proof.
  intros Hopt.
  assert (Hexp : expiry_or_default options now = now + half_hour).
  { unfold expiry_or_default. destruct options as [o|]; [|reflexivity].
    now rewrite (Hopt o eq_refl). }
  simpl. unfold validatePaymentRequest. simpl. rewrite Hexp.
  split; [reflexivity|]. split; [reflexivity|]. repeat split.
  - intros Ha. apply nonpositive_le0 in Ha. now rewrite Ha.
  - intros Ha Ht. apply number_le0_false in Ha. rewrite Ha.
    assert (E : (now + half_hour <? t) = true)
      by (apply Z.ltb_lt; unfold half_hour; lia).
    now rewrite E.
  - intros Ha Ht Hr Hk. apply number_le0_false in Ha. rewrite Ha.
    assert (E : (now + half_hour <? t) = false)
      by (apply Z.ltb_ge; unfold half_hour; lia).
    rewrite E. apply String.eqb_neq in Hr. rewrite Hr.
    unfold try_catch, bind, publicKeyFromString. now rewrite Hk.
Qed.
End Builder.

Lemma createPaymentRequest_applies_defaults_witness :
  Request.currency
    (fst (RequestBuilder.createPaymentRequest 1000 "abc" (Fin (3 # 2)) None "R1"
            None empty_builder)) = "SOL" /\
  Request.reference
    (fst (RequestBuilder.createPaymentRequest 1000 "abc" (Fin (3 # 2)) None "R1"
            None empty_builder)) = Some "pay_abc".
Proof.
  destruct (createPaymentRequest_applies_defaults 1000 "abc" (Fin (3 # 2)) None
              "R1" None empty_builder) as [_ [_ [H3 [_ [H5 _]]]]].
  destruct (H5 eq_refl) as [H6 _].
  exact (conj (H3 eq_refl) H6).
Defined.

Lemma createPaymentRequest_caches_for_half_an_hour_witness :
  fst (Cache.get
         (RequestBuilder.requests
            (snd (RequestBuilder.createPaymentRequest 1000 "abc" (Fin (3 # 2))
                    None "R1" None empty_builder)))
         "payment-request:pay_abc" 2000) =
  Val (fst (RequestBuilder.createPaymentRequest 1000 "abc" (Fin (3 # 2)) None
              "R1" None empty_builder)).
Proof.
  destruct (createPaymentRequest_caches_for_half_an_hour 1000 "abc"
              (Fin (3 # 2)) None "R1" None empty_builder "pay_abc" 2000 eq_refl)
    as [H _].
  apply H. lia.
Defined.

(** Options that give a memo and no expiry. *)
Lemma created_request_is_valid_for_half_an_hour_witness :
  let options :=
    Some {| RequestBuilder.o_reference := None;
            RequestBuilder.o_memo := Some "order 7";
            RequestBuilder.o_expiresAt := None |} in
  Request.expiresAt
    (fst (RequestBuilder.createPaymentRequest 1000 "abc" (Fin (3 # 2))
            None "R1" options empty_builder)) = Some 1801000 /\
  fst (validatePaymentRequest ws_finalized 2000
         (fst (RequestBuilder.createPaymentRequest 1000 "abc" (Fin (3 # 2))
                 None "R1" options empty_builder))
         initial) = Ok tt.
Proof.
  intros options.
  assert (Hopt : forall o, options = Some o -> RequestBuilder.o_expiresAt o = None)
    by (intros o [= <-]; reflexivity).
  destruct (created_request_is_valid_for_half_an_hour ws_finalized 1000 "abc"
              (Fin (3 # 2)) None "R1" options empty_builder initial 2000 Hopt)
    as [H1 [_ [_ [_ H]]]].
  split; [exact H1|].
  apply H.
  - simpl. unfold Qle. simpl. lia.
  - lia.
  - discriminate.
  - reflexivity.
Defined.

(** * Properties of the logger and of the SDK facade *)

Section LoggerFacts.
Implicit Types (lg : Logger.t) (iso message : string) (data : option string).

Lemma app_one_neq {A} (l : list A) (x : A) : l ++ [x] <> l.
Proof.
  intros H. apply (f_equal (@length A)) in H.
  rewrite length_app in H. simpl in H. lia.
Qed.

Lemma logger_write_neq lg m line : Logger.write lg m line <> lg.
Proof.
  intros H. apply (f_equal Logger.console) in H. simpl in H.
  now apply app_one_neq in H.
Qed.

(** X19. The level is a threshold: with the level NONE none of the four methods
    writes; a logger that does not write errors writes nothing, one that
    does not write warnings writes no info line, one that writes no info
    line writes no debug line; and below NONE an error is always written,
    as one line on [console.error]. No method changes the configuration. *)
Theorem logger_level_is_a_threshold lg iso message data :
  (Logger.level (Logger.config lg) = Logger.NONE ->
     Logger.debug lg iso message data = lg /\
     Logger.info lg iso message data = lg /\
     Logger.warn lg iso message data = lg /\
     Logger.error lg iso message data = lg) /\
  (Logger.error lg iso message data = lg ->
     Logger.warn lg iso message data = lg) /\
  (Logger.warn lg iso message data = lg ->
     Logger.info lg iso message data = lg) /\
  (Logger.info lg iso message data = lg ->
     Logger.debug lg iso message data = lg) /\
  (Logger.level (Logger.config lg) <> Logger.NONE ->
     Logger.console (Logger.error lg iso message data) =
     Logger.console lg ++
       [(Logger.console_error,
         Logger.formatMessage (Logger.config lg) iso "ERROR" message data)]) /\
  Logger.config (Logger.debug lg iso message data) = Logger.config lg /\
  Logger.config (Logger.info lg iso message data) = Logger.config lg /\
  Logger.config (Logger.warn lg iso message data) = Logger.config lg /\
  Logger.config (Logger.error lg iso message data) = Logger.config lg.
Proof.
  unfold Logger.debug, Logger.info, Logger.warn, Logger.error, Logger.shouldLog.
  destruct (Logger.level (Logger.config lg)); simpl;
    repeat split; try reflexivity; try congruence;
    intros H; exfalso; now apply logger_write_neq in H.
Qed.
End LoggerFacts.

Section SDKFacts.
Implicit Types (cfg options : SDK.SDKConfig).

Lemma falsy_false x : SDK.falsy x = false <-> exists s, x = Some s /\ s <> "".
Proof.
  unfold SDK.falsy. destruct x as [s|].
  - rewrite String.eqb_neq. split.
    + intros H. exists s. auto.
    + intros [s' [[= <-] H]]. exact H.
  - split; [discriminate|]. intros [s [H _]]. discriminate.
Qed.

(** X20. [validateConfig] finds a configuration valid exactly when the
    environment, the Solana network and the RPC endpoint are all present
    and non-empty; it reports one error for each of them that is not, and
    warnings only for the production environment, none when the Supabase
    URL and key, the Moralis key and the OpenAI key are all non-empty. *)
Theorem validateConfig_requires_three_fields cfg :
  (SDK.isValid (SDK.validateConfig cfg) = true <->
   SDK.falsy (SDK.environment cfg) = false /\
   SDK.falsy (SDK.solanaNetwork cfg) = false /\
   SDK.falsy (SDK.rpcEndpoint cfg) = false) /\
  (SDK.isValid (SDK.validateConfig cfg) = true <->
   SDK.errors (SDK.validateConfig cfg) = []) /\
  length (SDK.errors (SDK.validateConfig cfg)) =
    ((if SDK.falsy (SDK.environment cfg) then 1 else 0) +
     (if SDK.falsy (SDK.solanaNetwork cfg) then 1 else 0) +
     (if SDK.falsy (SDK.rpcEndpoint cfg) then 1 else 0))%nat /\
  (SDK.environment cfg <> Some "production" ->
     SDK.warnings (SDK.validateConfig cfg) = []) /\
  (SDK.environment cfg = Some "production" ->
     SDK.falsy (SDK.supabaseUrl cfg) = false ->
     SDK.falsy (SDK.supabaseKey cfg) = false ->
     SDK.falsy (SDK.moralisApiKey cfg) = false ->
     SDK.falsy (SDK.openaiApiKey cfg) = false ->
     SDK.warnings (SDK.validateConfig cfg) = []).
Proof.
  unfold SDK.validateConfig. simpl.
  split; [|split; [|split; [|split]]].
  - destruct (SDK.falsy (SDK.environment cfg)),
             (SDK.falsy (SDK.solanaNetwork cfg)),
             (SDK.falsy (SDK.rpcEndpoint cfg)); simpl;
      split; try discriminate; try tauto;
      intros [H1 [H2 H3]]; discriminate.
  - destruct (SDK.falsy (SDK.environment cfg)),
             (SDK.falsy (SDK.solanaNetwork cfg)),
             (SDK.falsy (SDK.rpcEndpoint cfg)); simpl;
      split; try discriminate; reflexivity.
  - destruct (SDK.falsy (SDK.environment cfg)),
             (SDK.falsy (SDK.solanaNetwork cfg)),
             (SDK.falsy (SDK.rpcEndpoint cfg)); reflexivity.
  - intros Henv. destruct (SDK.environment cfg) as [env|]; [|reflexivity].
    destruct (String.eqb env "production") eqn:E; [|reflexivity].
    apply String.eqb_eq in E. congruence.
  - intros Henv H1 H2 H3 H4. rewrite Henv. simpl.
    now rewrite H1, H2, H3, H4.
Qed.

(** X21. Every SDK passes its own validation unless an option empties a required
    field: the configuration the constructor builds from options whose
    environment, network and RPC endpoint are absent or non-empty is valid.
    In particular [createDevelopment()] is valid without warnings, and
    [createProduction] with five non-empty strings is valid without
    warnings and has logging switched off. *)
Theorem constructed_config_is_valid options :
  SDK.environment options <> Some "" ->
  SDK.solanaNetwork options <> Some "" ->
  SDK.rpcEndpoint options <> Some "" ->
  SDK.isValid (SDK.validateConfig (SDK.constructed options)) = true /\
  SDK.validateConfig (SDK.constructed SDK.development_options) =
    {| SDK.isValid := true; SDK.errors := []; SDK.warnings := [] |} /\
  (forall k,
     SDK.pk_rpcEndpoint k <> "" -> SDK.pk_supabaseUrl k <> "" ->
     SDK.pk_supabaseKey k <> "" -> SDK.pk_moralisApiKey k <> "" ->
     SDK.pk_openaiApiKey k <> "" ->
     SDK.validateConfig (SDK.constructed (SDK.production_options k)) =
       {| SDK.isValid := true; SDK.errors := []; SDK.warnings := [] |} /\
     SDK.enableLogging (SDK.constructed (SDK.production_options k)) =
       Some false).
Proof.
  intros He Hn Hr. split; [|split].
  - unfold SDK.validateConfig, SDK.constructed, SDK.merge, SDK.spread. simpl.
    destruct (SDK.environment options) as [e|],
             (SDK.solanaNetwork options) as [n|],
             (SDK.rpcEndpoint options) as [r|]; simpl;
      repeat match goal with
             | H : Some ?x <> Some "" |- _ =>
                 assert ((x =? "")%string = false)
                   by (apply String.eqb_neq; congruence);
                 clear H
             end;
      repeat match goal with
             | H : (_ =? "")%string = false |- _ => rewrite H; clear H
             end; reflexivity.
  - reflexivity.
  - intros k H1 H2 H3 H4 H5.
    apply String.eqb_neq in H1, H2, H3, H4, H5.
    unfold SDK.validateConfig, SDK.constructed, SDK.merge, SDK.spread. simpl.
    rewrite H1, H2, H3, H4, H5. simpl. split; reflexivity.
Qed.

(** X22. The logging switch of the SDK: when [enableLogging] is not [true],
    [initialize] sets the level NONE and writes nothing, and afterwards no
    method of the logger writes; when it is [true], [initialize] writes
    exactly one line, on [console.info] with the prefix [AgentChainSDK],
    and afterwards debug lines are dropped. *)
Theorem sdk_logging_switch cfg iso data lg iso' message data' :
  (SDK.enableLogging cfg <> Some true ->
     let lg1 := SDK.initialize cfg iso data lg in
     Logger.console lg1 = Logger.console lg /\
     Logger.debug lg1 iso' message data' = lg1 /\
     Logger.info lg1 iso' message data' = lg1 /\
     Logger.warn lg1 iso' message data' = lg1 /\
     Logger.error lg1 iso' message data' = lg1) /\
  (SDK.enableLogging cfg = Some true ->
     let lg1 := SDK.initialize cfg iso data lg in
     Logger.console lg1 =
       Logger.console lg ++
       [(Logger.console_info,
         ((if Logger.enableTimestamp (Logger.config lg)
           then "[" ++ iso ++ "] " else "") ++
          "[AgentChainSDK] INFO: AgentChain SDK initialized " ++ data)%string)] /\
     Logger.debug lg1 iso' message data' = lg1).
Proof.
  split.
  - intros Hoff. unfold SDK.initialize.
    destruct (SDK.enableLogging cfg) as [[|]|]; [congruence| |];
      repeat split.
  - intros Hon. unfold SDK.initialize. rewrite Hon.
    unfold Logger.info, Logger.debug, Logger.shouldLog. simpl.
    split; [|reflexivity].
    unfold Logger.formatMessage. simpl.
    destruct (Logger.enableTimestamp (Logger.config lg)); reflexivity.
Qed.

(** After [clearCache] the cache statistics report a size of 0, whatever
    was cached; the [enabled] flag of the statistics is the one of the
    configuration, and [false] when the configuration has no cache
    section. *)
Theorem sdk_clearCache_empties_the_cache {T} cfg iso (c : Cache.t T) lg :
  SDK.stat_size (SDK.getCacheStats cfg (fst (SDK.clearCache iso c lg))) = 0 /\
  (forall k now, fst (Cache.get (fst (SDK.clearCache iso c lg)) k now) = Null) /\
  (SDK.cache cfg = None ->
     SDK.stat_enabled (SDK.getCacheStats cfg c) = false) /\
  (forall cs, SDK.cache cfg = Some cs ->
     SDK.stat_enabled (SDK.getCacheStats cfg c) = SDK.cs_enabled cs).
Proof.
  repeat split.
  - intros H. unfold SDK.getCacheStats. now rewrite H.
  - intros cs H. unfold SDK.getCacheStats. now rewrite H.
Qed.
End SDKFacts.

Lemma logger_level_is_a_threshold_witness :
  Logger.debug (Logger.setLevel Logger.create Logger.NONE) "t" "m" None =
  Logger.setLevel Logger.create Logger.NONE /\
  Logger.error (Logger.setLevel Logger.create Logger.NONE) "t" "m" None =
  Logger.setLevel Logger.create Logger.NONE.
Proof.
  destruct (logger_level_is_a_threshold
              (Logger.setLevel Logger.create Logger.NONE) "t" "m" None)
    as [H _].
  destruct (H eq_refl) as [H1 [_ [_ H4]]].
  exact (conj H1 H4).
Defined.

Lemma validateConfig_requires_three_fields_witness :
  SDK.isValid (SDK.validateConfig SDK.defaults) = true /\
  SDK.warnings (SDK.validateConfig SDK.defaults) = [].
Proof.
  destruct (validateConfig_requires_three_fields SDK.defaults)
    as [[_ H1] [_ [_ [H4 _]]]].
  split.
  - apply H1. repeat split.
  - apply H4. discriminate.
Defined.

Lemma constructed_config_is_valid_witness :
  SDK.isValid (SDK.validateConfig (SDK.constructed SDK.no_options)) = true.
Proof.
  destruct (constructed_config_is_valid SDK.no_options) as [H _];
    try discriminate.
  exact H.
Defined.

Lemma sdk_logging_switch_witness :
  Logger.console
    (SDK.initialize (SDK.constructed SDK.development_options) "t" "{}"
       Logger.create) =
  [(Logger.console_info,
    "[t] [AgentChainSDK] INFO: AgentChain SDK initialized {}")].
Proof.
  destruct (sdk_logging_switch (SDK.constructed SDK.development_options) "t"
              "{}" Logger.create "t" "m" None) as [_ H].
  destruct (H eq_refl) as [H1 _]. exact H1.
Defined.

Lemma sdk_clearCache_empties_the_cache_witness :
  SDK.stat_enabled (SDK.getCacheStats SDK.defaults cache_100ms) = true /\
  SDK.stat_enabled
    (SDK.getCacheStats (SDK.constructed SDK.development_options) cache_100ms) =
  true.
Proof.
  destruct (sdk_clearCache_empties_the_cache SDK.defaults "t" cache_100ms
              Logger.create) as [_ [_ [_ H]]].
  destruct (sdk_clearCache_empties_the_cache
              (SDK.constructed SDK.development_options) "t" cache_100ms
              Logger.create) as [_ [_ [_ H']]].
  split.
  - exact (H {| SDK.cs_enabled := true; SDK.cs_ttl := 300000 |} eq_refl).
  - exact (H' {| SDK.cs_enabled := true; SDK.cs_ttl := 300000 |} eq_refl).
Defined.

(** * Properties of the agent manager *)

Section Agents.
Import AgentManager.
Implicit Types (st : AgentManager.state) (agent : Agent).

(** [getAgent] as a case analysis on the cache and on the map. *)
Lemma getAgent_cases now agentId st :
  getAgent now agentId st =
  match Cache.get (AgentManager.cache st) (AgentManager.cache_key agentId) now with
  | (Val a, c1) =>
      (Ok (Val a),
       {| agents := agents st; AgentManager.cache := c1;
          AgentManager.log :=
            (AgentManager.log st ++ [(DEBUG, "Fetching agent")]) ++
            [(DEBUG, "Agent found in cache")] |})
  | (Null, c1) =>
      match JsMap.get agentId (agents st) with
      | Some a =>
          (Ok (Val a),
           {| agents := agents st;
              AgentManager.cache :=
                Cache.set c1 (AgentManager.cache_key agentId) (Val a)
                  (Some AgentManager.half_hour) now;
              AgentManager.log :=
                AgentManager.log st ++ [(DEBUG, "Fetching agent")] |})
      | None =>
          (Ok Null,
           {| agents := agents st; AgentManager.cache := c1;
              AgentManager.log :=
                AgentManager.log st ++ [(DEBUG, "Fetching agent")] |})
      end
  end.
Proof.
  unfold getAgent, AgentManager.try_catch, AgentManager.bind,
    AgentManager.logger, AgentManager.cache_get. simpl.
  destruct (Cache.get (AgentManager.cache st) (AgentManager.cache_key agentId) now)
    as [[|a] c1]; simpl.
  - destruct (JsMap.get agentId (agents st)); reflexivity.
  - reflexivity.
Qed.

(** What [getAgent] found it finds again at the same time, whatever was
    logged in between. *)
Lemma getAgent_again now agentId st agent st1 st1' :
  getAgent now agentId st = (Ok (Val agent), st1) ->
  AgentManager.cache st1' = AgentManager.cache st1 ->
  agents st1' = agents st1 ->
  exists st2,
    getAgent now agentId st1' = (Ok (Val agent), st2) /\
    agents st2 = agents st1 /\ AgentManager.cache st2 = AgentManager.cache st1.
Proof.
  rewrite getAgent_cases. intros Hg Hc Ha.
  destruct (Cache.get (AgentManager.cache st) (AgentManager.cache_key agentId) now)
    as [r c1] eqn:Hget.
  assert (Hhit : Cache.get (AgentManager.cache st1)
                   (AgentManager.cache_key agentId) now =
                 (Val agent, AgentManager.cache st1)).
  { destruct r as [|a].
    - destruct (JsMap.get agentId (agents st)) as [a|]; [|discriminate].
      inversion Hg; subst. simpl.
      unfold Cache.get. rewrite set_stores_entry.
      match goal with
      | |- context [expired ?e now] =>
          assert (He : expired e now = false)
            by (apply expired_false; simpl; unfold AgentManager.half_hour; lia)
      end.
      now rewrite He.
    - inversion Hg; subst. simpl.
      assert (H : fst (Cache.get (AgentManager.cache st)
                         (AgentManager.cache_key agentId) now) = Val agent)
        by now rewrite Hget.
      destruct (cache_get_val_entry _ _ _ _ H) as [e [He1 [He2 He3]]].
      rewrite Hget in He3. simpl in He3. subst c1. exact Hget. }
  rewrite getAgent_cases, Hc, Hhit. eexists. split; [reflexivity|].
  simpl. auto.
Qed.

Lemma getAgent_frame now agentId st :
  exists r st1,
    getAgent now agentId st = (Ok r, st1) /\ agents st1 = agents st.
Proof.
  rewrite getAgent_cases.
  destruct (Cache.get (AgentManager.cache st) (AgentManager.cache_key agentId) now)
    as [[|a] c1].
  - destruct (JsMap.get agentId (agents st)); eauto.
  - eauto.
Qed.

(** [updateAgent] with a status only, on an agent that is found. *)
Lemma updateAgent_status_found now agentId st agent target :
  fst (getAgent now agentId st) = Ok (Val agent) ->
  exists st2,
    updateAgent now agentId (status_only target) st =
      (Ok (updated_agent agent (status_only target) now), st2) /\
    agents st2 =
      JsMap.set agentId (updated_agent agent (status_only target) now)
        (agents st) /\
    JsMap.get (AgentManager.cache_key agentId) (store (AgentManager.cache st2)) =
      Some {| data := Val (updated_agent agent (status_only target) now);
              timestamp := now; ttl := AgentManager.half_hour |}.
Proof.
  intros Hfound.
  set (s0 := {| agents := agents st; AgentManager.cache := AgentManager.cache st;
                AgentManager.log :=
                  AgentManager.log st ++ [(INFO, "Updating agent")] |}).
  assert (Hg0 : fst (getAgent now agentId s0) = Ok (Val agent)).
  { rewrite getAgent_cases in Hfound |- *. subst s0. simpl.
    destruct (Cache.get (AgentManager.cache st)
                (AgentManager.cache_key agentId) now) as [[|a] c1].
    - destruct (JsMap.get agentId (agents st)); exact Hfound.
    - exact Hfound. }
  destruct (getAgent_frame now agentId s0) as [r [st1 [Hg Ha]]].
  rewrite Hg in Hg0. simpl in Hg0. inversion Hg0; subst r.
  unfold updateAgent, AgentManager.try_catch, AgentManager.bind.
  change (AgentManager.logger INFO "Updating agent" st)
    with (@Ok unit tt, s0).
  cbv beta iota. rewrite Hg. simpl.
  eexists. split; [reflexivity|]. simpl. split.
  - now rewrite Ha.
  - apply jsmap_get_set_same.
Qed.

(** [getAgent] depends on the map of agents and on the cache only. *)
Lemma getAgent_same_stores now agentId st st' :
  agents st' = agents st ->
  AgentManager.cache st' = AgentManager.cache st ->
  fst (getAgent now agentId st') = fst (getAgent now agentId st) /\
  agents (snd (getAgent now agentId st')) = agents st /\
  AgentManager.cache (snd (getAgent now agentId st')) =
    AgentManager.cache (snd (getAgent now agentId st)).
Proof.
  intros Ha Hc. rewrite !getAgent_cases, Ha, Hc.
  destruct (Cache.get (AgentManager.cache st) (AgentManager.cache_key agentId) now)
    as [[|a] c1].
  - destruct (JsMap.get agentId (agents st)); simpl; auto.
  - simpl; auto.
Qed.

(** X23. An existing agent takes any status on request: [updateAgent] with a
    status does not look at the current one, so [pauseAgent], [resumeAgent]
    and [archiveAgent] succeed on every agent that is found (an ARCHIVED
    agent can be resumed to ACTIVE). The metadata and the creation time are
    kept, [updatedAt] is the time of the call, and the new record is
    stored. *)
Theorem agent_status_changes_are_not_guarded now agentId st agent :
  fst (getAgent now agentId st) = Ok (Val agent) ->
  (forall target,
     let updated := updated_agent agent (status_only target) now in
     fst (updateAgent now agentId (status_only target) st) = Ok updated /\
     status updated = target /\
     metadata updated = metadata agent /\
     createdAt updated = createdAt agent /\
     updatedAt updated = now /\
     JsMap.get agentId
       (agents (snd (updateAgent now agentId (status_only target) st))) =
       Some updated) /\
  fst (pauseAgent now agentId st) =
    Ok (updated_agent agent (status_only PAUSED) now) /\
  fst (resumeAgent now agentId st) =
    Ok (updated_agent agent (status_only ACTIVE) now) /\
  fst (archiveAgent now agentId st) =
    Ok (updated_agent agent (status_only ARCHIVED) now).
Proof.
  intros Hfound.
  assert (H : forall target,
            fst (updateAgent now agentId (status_only target) st) =
              Ok (updated_agent agent (status_only target) now) /\
            JsMap.get agentId
              (agents (snd (updateAgent now agentId (status_only target) st))) =
              Some (updated_agent agent (status_only target) now)).
  { intros target.
    destruct (updateAgent_status_found now agentId st agent target Hfound)
      as [st2 [E [Ha _]]].
    rewrite E. simpl. split; [reflexivity|].
    rewrite Ha. apply jsmap_get_set_same. }
  split; [|split; [|split]].
  - intros target updated. destruct (H target) as [H1 H2].
    repeat split; assumption.
  - apply H.
  - apply H.
  - apply H.
Qed.

(** X24. An id that is neither cached nor stored: [updateAgent] and
    [deployAgent] throw the [AGENT_NOT_FOUND] error (status code 404) as it
    is, not wrapped; [deleteAgent] answers [false]; the map of agents is
    not changed by any of them. *)
Theorem unknown_agent_is_reported_not_found now agentId st options :
  fst (getAgent now agentId st) = Ok Null ->
  fst (updateAgent now agentId options st) =
    Throw (mkError "Agent not found" "AGENT_NOT_FOUND" 404 NoCause) /\
  fst (deployAgent now agentId st) =
    Throw (mkError "Agent not found" "AGENT_NOT_FOUND" 404 NoCause) /\
  fst (deleteAgent now agentId st) = Ok false /\
  agents (snd (updateAgent now agentId options st)) = agents st /\
  agents (snd (deployAgent now agentId st)) = agents st /\
  agents (snd (deleteAgent now agentId st)) = agents st.
Proof.
  intros Hnull.
  assert (Hany : forall msg,
    exists st1,
      getAgent now agentId
        {| agents := agents st; AgentManager.cache := AgentManager.cache st;
           AgentManager.log := AgentManager.log st ++ [(INFO, msg)] |} =
      (Ok Null, st1) /\ agents st1 = agents st).
  { intros msg.
    set (s0 := {| agents := agents st;
                  AgentManager.cache := AgentManager.cache st;
                  AgentManager.log := AgentManager.log st ++ [(INFO, msg)] |}).
    destruct (getAgent_same_stores now agentId st s0 eq_refl eq_refl)
      as [H1 [H2 _]].
    destruct (getAgent now agentId s0) as [r st1].
    simpl in *. exists st1. split; [|assumption]. congruence. }
  destruct (Hany "Updating agent") as [s1 [E1 A1]].
  destruct (Hany "Deploying agent") as [s2 [E2 A2]].
  destruct (Hany "Deleting agent") as [s3 [E3 A3]].
  unfold updateAgent, deployAgent, deleteAgent,
    AgentManager.try_catch, AgentManager.bind.
  change (AgentManager.logger INFO "Updating agent" st)
    with (@Ok unit tt,
          {| agents := agents st; AgentManager.cache := AgentManager.cache st;
             AgentManager.log :=
               AgentManager.log st ++ [(INFO, "Updating agent")] |}).
  change (AgentManager.logger INFO "Deploying agent" st)
    with (@Ok unit tt,
          {| agents := agents st; AgentManager.cache := AgentManager.cache st;
             AgentManager.log :=
               AgentManager.log st ++ [(INFO, "Deploying agent")] |}).
  change (AgentManager.logger INFO "Deleting agent" st)
    with (@Ok unit tt,
          {| agents := agents st; AgentManager.cache := AgentManager.cache st;
             AgentManager.log :=
               AgentManager.log st ++ [(INFO, "Deleting agent")] |}).
  cbv beta iota. rewrite E1, E2, E3. simpl. repeat split; assumption.
Qed.

(** X25. [deployAgent] deploys draft agents only. An agent found in another
    status is refused with [INVALID_AGENT_STATUS] (status code 400) and the
    map of agents is unchanged; an agent found in DRAFT becomes DEPLOYED,
    with [deployedAt] and [updatedAt] at the time of the call and
    everything else kept, and that record is stored. *)
Theorem deployAgent_deploys_drafts_only now agentId st agent :
  fst (getAgent now agentId st) = Ok (Val agent) ->
  (status agent <> DRAFT ->
     fst (deployAgent now agentId st) =
       Throw (mkError "Only draft agents can be deployed"
                "INVALID_AGENT_STATUS" 400 NoCause) /\
     agents (snd (deployAgent now agentId st)) = agents st) /\
  (status agent = DRAFT ->
     let deployed :=
       with_deployedAt (updated_agent agent (status_only DEPLOYED) now) now in
     fst (deployAgent now agentId st) = Ok deployed /\
     status deployed = DEPLOYED /\
     deployedAt deployed = Some now /\
     updatedAt deployed = now /\
     metadata deployed = metadata agent /\
     ownerId deployed = ownerId agent /\
     JsMap.get agentId (agents (snd (deployAgent now agentId st))) =
       Some deployed).
Proof.
  intros Hfound.
  set (s0 := {| agents := agents st; AgentManager.cache := AgentManager.cache st;
                AgentManager.log :=
                  AgentManager.log st ++ [(INFO, "Deploying agent")] |}).
  destruct (getAgent_same_stores now agentId st s0 eq_refl eq_refl)
    as [H1 [H2 _]].
  destruct (getAgent now agentId s0) as [r st1] eqn:Hg.
  simpl in H1, H2. rewrite Hfound in H1. subst r.
  unfold deployAgent, AgentManager.try_catch, AgentManager.bind.
  change (AgentManager.logger INFO "Deploying agent" st) with (@Ok unit tt, s0).
  cbv beta iota. rewrite Hg. cbv beta iota.
  split.
  - intros Hs.
    assert (E : AgentStatus_eqb (status agent) DRAFT = false)
      by (destruct (status agent); try reflexivity; congruence).
    rewrite E. simpl. auto.
  - intros Hs. cbv zeta. rewrite Hs.
    change (negb (AgentStatus_eqb DRAFT DRAFT)) with false. cbv iota.
    destruct (getAgent_again now agentId s0 agent st1 st1 Hg eq_refl eq_refl)
      as [st2 [Hg2 _]].
    assert (Hf : fst (getAgent now agentId st1) = Ok (Val agent))
      by now rewrite Hg2.
    destruct (updateAgent_status_found now agentId st1 agent DEPLOYED Hf)
      as [st3 [E [Ha _]]].
    rewrite E. simpl. repeat split.
    apply jsmap_get_set_same.
Qed.

(** X26. After [deleteAgent] has removed an agent that was found, the agent is
    gone from the map and from the cache: [getAgent] on its id returns
    [null] at every later time. *)
Theorem deleteAgent_leaves_no_copy now agentId st agent t :
  fst (getAgent now agentId st) = Ok (Val agent) ->
  fst (deleteAgent now agentId st) = Ok true /\
  JsMap.get agentId (agents (snd (deleteAgent now agentId st))) = None /\
  (forall other, other <> agentId ->
     JsMap.get other (agents (snd (deleteAgent now agentId st))) =
     JsMap.get other (agents st)) /\
  fst (getAgent t agentId (snd (deleteAgent now agentId st))) = Ok Null.
Proof.
  intros Hfound.
  set (s0 := {| agents := agents st; AgentManager.cache := AgentManager.cache st;
                AgentManager.log :=
                  AgentManager.log st ++ [(INFO, "Deleting agent")] |}).
  destruct (getAgent_same_stores now agentId st s0 eq_refl eq_refl)
    as [H1 [H2 _]].
  destruct (getAgent now agentId s0) as [r st1] eqn:Hg.
  simpl in H1, H2. rewrite Hfound in H1. subst r.
  unfold deleteAgent, AgentManager.try_catch, AgentManager.bind.
  change (AgentManager.logger INFO "Deleting agent" st) with (@Ok unit tt, s0).
  cbv beta iota. rewrite Hg. simpl.
  split; [reflexivity|]. split; [|split].
  - rewrite H2. apply jsmap_get_delete_same.
  - intros other Hne. rewrite H2. apply jsmap_get_delete_other. congruence.
  - rewrite getAgent_cases. simpl. unfold Cache.get. simpl.
    rewrite jsmap_get_delete_same. rewrite H2, jsmap_get_delete_same.
    reflexivity.
Qed.

(** X27. [validateAgentMetadata] accepts exactly the metadata whose name and
    description are not blank (empty or white space only), with a name of
    at most 100 and a description of at most 1000 characters. *)
Theorem validateAgentMetadata_accepts_exactly (m : AgentMetadata) st :
  fst (validateAgentMetadata m st) = Ok tt <->
  blank (name m) = false /\
  blank (description m) = false /\
  (String.length (name m) <= 100)%nat /\
  (String.length (description m) <= 1000)%nat.
Proof.
  unfold validateAgentMetadata.
  destruct (blank (name m)).
  { simpl. split; [discriminate|]. intros [H _]. discriminate. }
  destruct (blank (description m)).
  { simpl. split; [discriminate|]. intros [_ [H _]]. discriminate. }
  destruct (100 <? String.length (name m))%nat eqn:E1.
  { apply Nat.ltb_lt in E1. simpl. split; [discriminate|].
    intros [_ [_ [H _]]]. lia. }
  apply Nat.ltb_ge in E1.
  destruct (1000 <? String.length (description m))%nat eqn:E2.
  { apply Nat.ltb_lt in E2. simpl. split; [discriminate|].
    intros [_ [_ [_ H]]]. lia. }
  apply Nat.ltb_ge in E2. simpl. split; auto.
Qed.

Lemma validateAgentMetadata_frame (m : AgentMetadata) st :
  snd (validateAgentMetadata m st) = st.
Proof.
  unfold validateAgentMetadata.
  destruct (blank (name m)); [reflexivity|].
  destruct (blank (description m)); [reflexivity|].
  destruct (100 <? String.length (name m))%nat; [reflexivity|].
  destruct (1000 <? String.length (description m))%nat; reflexivity.
Qed.

(** X28. [createAgent] with metadata that pass validation returns a DRAFT agent
    owned by the given owner, created and updated at the time of the call,
    stores it, and [getAgent] on its id returns it at every later time;
    with metadata that fail validation it throws [AGENT_CREATION_FAILED]
    (status code 500) wrapping the validation error, and neither the map
    of agents nor the cache is changed. *)
Theorem createAgent_stores_a_draft now suffix options st t :
  (fst (validateAgentMetadata (c_metadata options) st) = Ok tt ->
     exists agent,
       fst (createAgent now suffix options st) = Ok agent /\
       AgentManager.id agent = ("agent_" ++ suffix)%string /\
       status agent = DRAFT /\
       ownerId agent = c_ownerId options /\
       metadata agent = c_metadata options /\
       createdAt agent = now /\ updatedAt agent = now /\
       deployedAt agent = None /\
       fst (getAgent t (AgentManager.id agent)
              (snd (createAgent now suffix options st))) = Ok (Val agent)) /\
  (forall e,
     fst (validateAgentMetadata (c_metadata options) st) = Throw e ->
     fst (createAgent now suffix options st) =
       Throw (mkError "Failed to create agent" "AGENT_CREATION_FAILED" 500
                (CausedBy e)) /\
     agents (snd (createAgent now suffix options st)) = agents st /\
     AgentManager.cache (snd (createAgent now suffix options st)) =
       AgentManager.cache st).
Proof.
  set (s0 := {| agents := agents st; AgentManager.cache := AgentManager.cache st;
                AgentManager.log :=
                  AgentManager.log st ++ [(INFO, "Creating new agent")] |}).
  assert (Hres : fst (validateAgentMetadata (c_metadata options) s0) =
                 fst (validateAgentMetadata (c_metadata options) st)).
  { unfold validateAgentMetadata.
    destruct (blank (name (c_metadata options))); [reflexivity|].
    destruct (blank (description (c_metadata options))); [reflexivity|].
    destruct (100 <? String.length (name (c_metadata options)))%nat;
      [reflexivity|].
    destruct (1000 <? String.length (description (c_metadata options)))%nat;
      reflexivity. }
  pose proof (validateAgentMetadata_frame (c_metadata options) s0) as Hfr.
  unfold createAgent, AgentManager.try_catch, AgentManager.bind.
  change (AgentManager.logger INFO "Creating new agent" st)
    with (@Ok unit tt, s0).
  cbv beta iota.
  destruct (validateAgentMetadata (c_metadata options) s0) as [r s1].
  simpl in Hres, Hfr. subst s1. split.
  - intros Hok. rewrite Hok in Hres. subst r. simpl.
    eexists. split; [reflexivity|]. simpl. repeat split.
    rewrite getAgent_cases. simpl. unfold Cache.get.
    rewrite set_stores_entry.
    match goal with
    | |- context [expired ?e t] => destruct (expired e t)
    end; simpl.
    + rewrite jsmap_get_set_same. reflexivity.
    + reflexivity.
  - intros e He. rewrite He in Hres. subst r. simpl. auto.
Qed.

Lemma agent_sort_insert_perm cmp x (l : list Agent) :
  Permutation (AgentManager.sort_insert cmp x l) (x :: l).
Proof.
  induction l as [|y l IH]; simpl; [reflexivity|].
  destruct (cmp x y <=? 0); [reflexivity|].
  rewrite IH. apply perm_swap.
Qed.

Lemma agent_sort_perm cmp (l : list Agent) :
  Permutation (AgentManager.array_sort cmp l) l.
Proof.
  induction l as [|x l IH]; simpl; [reflexivity|].
  rewrite agent_sort_insert_perm. now constructor.
Qed.

Lemma compare_agents_le by_ order a b :
  compare_agents by_ order a b <= 0 <-> in_order by_ order a b.
Proof.
  unfold compare_agents, in_order.
  destruct (sort_key by_ a <? sort_key by_ b) eqn:E1.
  - apply Z.ltb_lt in E1. destruct order; lia.
  - apply Z.ltb_ge in E1.
    destruct (sort_key by_ a >? sort_key by_ b) eqn:E2.
    + rewrite Z.gtb_ltb in E2. apply Z.ltb_lt in E2. destruct order; lia.
    + rewrite Z.gtb_ltb in E2. apply Z.ltb_ge in E2. destruct order; lia.
Qed.

Lemma in_order_total by_ order a b :
  ~ in_order by_ order a b -> in_order by_ order b a.
Proof. unfold in_order. destruct order; lia. Qed.

Lemma in_order_trans by_ order a b c :
  in_order by_ order a b -> in_order by_ order b c -> in_order by_ order a c.
Proof. unfold in_order. destruct order; lia. Qed.

Lemma agent_sort_insert_sorted by_ order x (l : list Agent) :
  StronglySorted (in_order by_ order) l ->
  StronglySorted (in_order by_ order)
    (AgentManager.sort_insert (compare_agents by_ order) x l).
Proof.
  induction 1 as [|y l Hs IH Hall]; simpl.
  - repeat constructor.
  - destruct (compare_agents by_ order x y <=? 0) eqn:E.
    + apply Z.leb_le, compare_agents_le in E.
      constructor; [now constructor|].
      constructor; [assumption|].
      eapply Forall_impl; [|exact Hall].
      intros z Hz. now apply (in_order_trans by_ order x y z).
    + apply Z.leb_gt in E.
      assert (Hyx : in_order by_ order y x).
      { apply in_order_total. intros H. apply compare_agents_le in H. lia. }
      constructor; [assumption|].
      eapply Permutation_Forall; [symmetry; apply agent_sort_insert_perm|].
      constructor; assumption.
Qed.

Lemma agent_sort_sorted by_ order (l : list Agent) :
  StronglySorted (in_order by_ order)
    (AgentManager.array_sort (compare_agents by_ order) l).
Proof.
  induction l as [|x l IH]; simpl; [constructor|].
  now apply agent_sort_insert_sorted.
Qed.

Lemma agent_filters_match o (l : list Agent) :
  l_ownerId o <> Some "" ->
  AgentManager.apply_filters o l = filter (agent_matches o) l.
Proof.
  intros Hu. unfold AgentManager.apply_filters, agent_matches.
  destruct (l_ownerId o) as [u|].
  - assert (E : (u =? "")%string = false)
      by (apply String.eqb_neq; congruence).
    rewrite E.
    destruct (l_type o) as [t|], (l_status o) as [s|];
      repeat rewrite filter_twice; apply filter_ext; intros a;
      rewrite ?andb_assoc, ?andb_true_r, ?andb_true_l; reflexivity.
  - destruct (l_type o) as [t|], (l_status o) as [s|];
      repeat rewrite filter_twice;
      try (rewrite <- (filter_all l) at 1; repeat rewrite filter_twice);
      apply filter_ext; intros a;
      rewrite ?andb_assoc, ?andb_true_r, ?andb_true_l; reflexivity.
Qed.

Lemma listAgents_value o st :
  fst (listAgents o st) =
    Ok (array_slice
          (AgentManager.array_sort
             (compare_agents (default (l_sortBy o) ByCreatedAt)
                (default (l_sortOrder o) Desc))
             (AgentManager.apply_filters o (JsMap.values (agents st))))
          (default (l_offset o) 0)
          (default (l_offset o) 0 + default (l_limit o) 50)) /\
  agents (snd (listAgents o st)) = agents st.
Proof. split; reflexivity. Qed.

(** X29. [listAgents] returns, of the stored agents that match every supplied
    field (the owner, when supplied, not being the empty string), the slice
    [offset, offset + limit) of their list sorted by the chosen date in the
    chosen order; by default the newest created come first and at most 50
    are returned. The map of agents is not modified. *)
Theorem listAgents_filters_sorts_paginates o st :
  l_ownerId o <> Some "" ->
  let by_ := default (l_sortBy o) ByCreatedAt in
  let order := default (l_sortOrder o) Desc in
  let offset := default (l_offset o) 0 in
  let limit := default (l_limit o) 50 in
  exists sorted,
    Permutation sorted (filter (agent_matches o) (JsMap.values (agents st))) /\
    StronglySorted (in_order by_ order) sorted /\
    fst (listAgents o st) = Ok (array_slice sorted offset (offset + limit)) /\
    (0 <= offset -> 0 <= limit ->
     fst (listAgents o st) =
     Ok (firstn (Z.to_nat limit) (skipn (Z.to_nat offset) sorted))) /\
    agents (snd (listAgents o st)) = agents st.
Proof.
  intros Hu by_ order offset limit.
  destruct (listAgents_value o st) as [Hv Ha].
  exists (AgentManager.array_sort (compare_agents by_ order)
            (AgentManager.apply_filters o (JsMap.values (agents st)))).
  split; [|split; [|split; [|split]]].
  - rewrite agent_sort_perm. now rewrite agent_filters_match.
  - apply agent_sort_sorted.
  - exact Hv.
  - intros Ho Hl. rewrite Hv. fold by_ order offset limit.
    now rewrite array_slice_page.
  - exact Ha.
Qed.



End Agents.

(** ** Instances *)

Lemma agent_status_changes_are_not_guarded_witness :
  fst (AgentManager.resumeAgent 2000 "agent_1" (manager_with archived_agent)) =
    AgentManager.Ok
      (AgentManager.updated_agent archived_agent
         (AgentManager.status_only AgentManager.ACTIVE) 2000) /\
  AgentManager.status
    (AgentManager.updated_agent archived_agent
       (AgentManager.status_only AgentManager.ACTIVE) 2000) =
  AgentManager.ACTIVE.
Proof.
  destruct (agent_status_changes_are_not_guarded 2000 "agent_1"
              (manager_with archived_agent) archived_agent eq_refl)
    as [H1 [_ [H3 _]]].
  destruct (H1 AgentManager.ACTIVE) as [_ [H2 _]].
  exact (conj H3 H2).
Defined.

Lemma unknown_agent_is_reported_not_found_witness :
  fst (AgentManager.deployAgent 2000 "agent_9" AgentManager.initial) =
    AgentManager.Throw
      (AgentManager.mkError "Agent not found" "AGENT_NOT_FOUND" 404
         AgentManager.NoCause) /\
  fst (AgentManager.deleteAgent 2000 "agent_9" AgentManager.initial) =
    AgentManager.Ok false.
Proof.
  destruct (unknown_agent_is_reported_not_found 2000 "agent_9"
              AgentManager.initial
              (AgentManager.status_only AgentManager.PAUSED) eq_refl)
    as [_ [H2 [H3 _]]].
  exact (conj H2 H3).
Defined.

Lemma deployAgent_deploys_drafts_only_witness :
  fst (AgentManager.deployAgent 2000 "agent_1" (manager_with archived_agent)) =
    AgentManager.Throw
      (AgentManager.mkError "Only draft agents can be deployed"
         "INVALID_AGENT_STATUS" 400 AgentManager.NoCause) /\
  fst (AgentManager.deployAgent 2000 "agent_1" (manager_with draft_agent)) =
    AgentManager.Ok
      (AgentManager.with_deployedAt
         (AgentManager.updated_agent draft_agent
            (AgentManager.status_only AgentManager.DEPLOYED) 2000) 2000).
Proof.
  destruct (deployAgent_deploys_drafts_only 2000 "agent_1"
              (manager_with archived_agent) archived_agent eq_refl) as [H1 _].
  destruct (deployAgent_deploys_drafts_only 2000 "agent_1"
              (manager_with draft_agent) draft_agent eq_refl) as [_ H2].
  assert (Hne : AgentManager.status archived_agent <> AgentManager.DRAFT)
    by discriminate.
  destruct (H1 Hne) as [Ha _].
  destruct (H2 eq_refl) as [Hb _].
  exact (conj Ha Hb).
Defined.

Lemma deleteAgent_leaves_no_copy_witness :
  fst (AgentManager.deleteAgent 2000 "agent_1" (manager_with draft_agent)) =
    AgentManager.Ok true /\
  fst (AgentManager.getAgent 3000 "agent_1"
         (snd (AgentManager.deleteAgent 2000 "agent_1"
                 (manager_with draft_agent)))) = AgentManager.Ok Null.
Proof.
  destruct (deleteAgent_leaves_no_copy 2000 "agent_1" (manager_with draft_agent)
              draft_agent 3000 eq_refl) as [H1 [_ [_ H4]]].
  exact (conj H1 H4).
Defined.

Lemma validateAgentMetadata_accepts_exactly_witness :
  fst (AgentManager.validateAgentMetadata (AgentManager.metadata draft_agent)
         AgentManager.initial) = AgentManager.Ok tt.
Proof.
  apply (validateAgentMetadata_accepts_exactly
           (AgentManager.metadata draft_agent) AgentManager.initial).
  repeat split; simpl; lia.
Defined.

Lemma createAgent_stores_a_draft_witness :
  (exists agent,
     fst (AgentManager.createAgent 1000 "x1" (create_options "Bot")
            AgentManager.initial) = AgentManager.Ok agent /\
     AgentManager.status agent = AgentManager.DRAFT) /\
  fst (AgentManager.createAgent 1000 "x1" (create_options "  ")
         AgentManager.initial) =
    AgentManager.Throw
      (AgentManager.mkError "Failed to create agent" "AGENT_CREATION_FAILED" 500
         (AgentManager.CausedBy
            (AgentManager.mkError "Agent name is required" "INVALID_AGENT_NAME"
               400 AgentManager.NoCause))).
Proof.
  destruct (createAgent_stores_a_draft 1000 "x1" (create_options "Bot")
              AgentManager.initial 2000) as [H1 _].
  destruct (createAgent_stores_a_draft 1000 "x1" (create_options "  ")
              AgentManager.initial 2000) as [_ H2].
  destruct (H1 eq_refl) as [agent [Ha [_ [Hs _]]]].
  destruct (H2 (AgentManager.mkError "Agent name is required"
                  "INVALID_AGENT_NAME" 400 AgentManager.NoCause) eq_refl)
    as [Hb _].
  split; [exists agent; exact (conj Ha Hs) | exact Hb].
Defined.

Lemma listAgents_filters_sorts_paginates_witness :
  exists sorted,
    Permutation sorted [draft_agent] /\
    fst (AgentManager.listAgents (list_all AgentManager.Asc)
           (manager_with draft_agent)) =
      AgentManager.Ok (array_slice sorted 0 50).
Proof.
  destruct (listAgents_filters_sorts_paginates (list_all AgentManager.Asc)
              (manager_with draft_agent)) as [sorted [H1 [_ [H3 _]]]];
    try discriminate.
  exists sorted. exact (conj H1 H3).
Defined.

